(** * Dynatrace assistant: intent resolution and problem correlation

  A shallow embedding of the parts of the assistant that carry its logic:
  - [utils/timeframe.py]: [parse_timeframe], [human_readable_timeframe];
  - [prompt_handler/intent_parser.py]: [AIIntentParser.parse] with its
    generative tier and its keyword/regex fallback tier;
  - [main.py]: [apply_context], [update_context], [add_message],
    [find_similar_services], [process_user_input];
  - [dynatrace_api/problems.py]: [get_problems_for_service], the two
    filters, [_calculate_relevance] and [categorize_problems].

  Python values are typed the way the code uses them.

  A [str] is a [string].  The strings of the model stand for ASCII text,
  on which [lower], [upper], [strip] and the classes [\d], [\s], [\w] of
  [re] are what Python's are.  On other text Python's act on more
  characters, as [\d] on the decimal digits of other scripts; the theorems
  whose truth depends on it carry the hypothesis [ascii_text].

  An [int] is a [Z]; the conversion [int()] has CPython's limit of
  digits.

  A dictionary of the Problems API is a record whose fields tell a missing
  key, [null] and a value apart ([Problems.value]): the code calls methods
  on what [get] returns, and [None] has none.  The values have the types
  the API gives them: strings, dictionaries, lists of dictionaries.  Where
  the code only compares or stores a value, the field is an [option], and
  [None] is a missing key or [null].  An exception is a [Py.exn], raised
  by [Raise].

  The JSON object decoded from a backend answer is a [gmap]. *)

From Stdlib Require Import ZArith String Ascii List Bool Lia Permutation.
From Stdlib Require Import DecimalString.
From stdpp Require Import base option list strings gmap.

Open Scope string_scope.
Open Scope list_scope.

(** ** Python string primitives *)

Module PyStr.

Definition in_range (lo hi : N) (c : ascii) : bool :=
  let n := N_of_ascii c in (N.leb lo n && N.leb n hi)%bool.

Definition is_upper (c : ascii) : bool := in_range 65 90 c.
Definition is_lower (c : ascii) : bool := in_range 97 122 c.
Definition is_digit (c : ascii) : bool := in_range 48 57 c.

(** [str.isspace] on the ASCII range: TAB, LF, VT, FF, CR, the four
    separators FS, GS, RS, US, and the space. *)
Definition is_space (c : ascii) : bool :=
  (in_range 9 13 c || in_range 28 32 c)%bool.

Definition lower_char (c : ascii) : ascii :=
  if is_upper c then ascii_of_N (N_of_ascii c + 32) else c.

Definition upper_char (c : ascii) : ascii :=
  if is_lower c then ascii_of_N (N_of_ascii c - 32) else c.

Fixpoint map_chars (f : ascii -> ascii) (s : string) : string :=
  match s with
  | EmptyString => EmptyString
  | String c s' => String (f c) (map_chars f s')
  end.

(** [s.lower()] and [s.upper()]. *)
Definition lower : string -> string := map_chars lower_char.
Definition upper : string -> string := map_chars upper_char.

(** [needle in hay]: [needle] starts at some position of [hay]. *)
Fixpoint str_in (needle hay : string) : bool :=
  if String.prefix needle hay then true
  else match hay with
       | EmptyString => false
       | String _ hay' => str_in needle hay'
       end.

Fixpoint lstrip (s : string) : string :=
  match s with
  | String c s' => if is_space c then lstrip s' else s
  | EmptyString => EmptyString
  end.

(** Dropping trailing whitespace: a character is kept when it is not a
    space or when something is kept after it. *)
Fixpoint rstrip (s : string) : string :=
  match s with
  | EmptyString => EmptyString
  | String c s' =>
      match rstrip s' with
      | EmptyString => if is_space c then EmptyString else String c EmptyString
      | r => String c r
      end
  end.

(** [s.strip()]. *)
Definition strip (s : string) : string := rstrip (lstrip s).

Fixpoint all_chars (p : ascii -> bool) (s : string) : bool :=
  match s with
  | EmptyString => true
  | String c s' => (p c && all_chars p s')%bool
  end.

(** The characters of ASCII text. *)
Definition is_ascii (c : ascii) : bool := N.ltb (N_of_ascii c) 128.

(** Truth value of a [str]: the empty string is falsy. *)
Definition truthy (s : string) : bool :=
  match s with EmptyString => false | _ => true end.

(** Truth value of an optional [str]: [None] and the empty string are
    falsy. *)
Definition truthy_opt (o : option string) : bool :=
  match o with Some s => truthy s | None => false end.

End PyStr.

(** ** Exceptions *)

Module Py.

Inductive exn :=
| ValueError
| OverflowError
| KeyError
| IndexError
| AttributeError
| TypeError
| OtherException.

Inductive result (A : Type) :=
| Return (a : A)
| Raise (e : exn).
Arguments Return {A} a.
Arguments Raise {A} e.

Definition bind {A B} (x : result A) (f : A -> result B) : result B :=
  match x with
  | Return a => f a
  | Raise e => Raise e
  end.

End Py.

Notation "x <- c1 ;; c2" := (Py.bind c1 (fun x => c2))
  (at level 100, c1 at next level, right associativity).

(** ** [dynatrace_api/problems.py] *)

Module Problems.
Import PyStr Py.

(** What a dictionary of the Problems API holds under a key: the key is
    missing ([Absent]), it holds [None], which is JSON's [null] ([Null]),
    or it holds a value of the type the API gives it. *)
Inductive value (A : Type) : Type :=
| Absent
| Null
| Present (a : A).
Arguments Absent {A}.
Arguments Null {A}.
Arguments Present {A} a.

(** [d.get(key, fallback)]; Python's [None] is [None]. *)
Definition get {A} (v : value A) (fallback : A) : option A :=
  match v with
  | Absent => Some fallback
  | Null => None
  | Present a => Some a
  end.

(** [x.method(...)]: [None] has none of the methods the code calls. *)
Definition on {A B} (x : option A) (method : A -> result B) : result B :=
  match x with
  | Some a => method a
  | None => Raise AttributeError
  end.

(** [a + b] on lists, and [for ... in l]: [None] is no list. *)
Definition concat {A} (a b : option (list A)) : result (list A) :=
  match a, b with
  | Some a, Some b => Return (a ++ b)
  | _, _ => Raise TypeError
  end.

Definition iter {A} (l : option (list A)) : result (list A) :=
  match l with
  | Some l => Return l
  | None => Raise TypeError
  end.

(** [{"id": ...}], the value of an entity's ["entityId"] key.  The id is
    only compared: [None] stands for a missing id and for [null]. *)
Record EntityId := { id_value : option string }.

(** An entity reference of a problem: [{"entityId": {...}, "name": ...}],
    with other keys or without. *)
Record Entity := {
  entityId : value EntityId;
  name : value string
}.

(** A problem record as the Problems API returns it, with the
    ["relevance"] key the filters add.  Under ["rootCauseEntity"],
    [Present] is a dictionary that is not empty; the empty one, which is
    the fallback of both [get] calls, reads as [Absent].  The relevance is
    only compared: [None] stands for a missing key and for [null]. *)
Record Problem := {
  problemId : option string;
  title : value string;
  displayName : value string;
  status : value string;
  severityLevel : value string;
  impactedEntities : value (list Entity);
  affectedEntities : value (list Entity);
  rootCauseEntity : value Entity;
  relevance : option string
}.

(** [problem["relevance"] = tag] *)
Definition set_relevance (problem : Problem) (tag : string) : Problem :=
  {| problemId := problemId problem;
     title := title problem;
     displayName := displayName problem;
     status := status problem;
     severityLevel := severityLevel problem;
     impactedEntities := impactedEntities problem;
     affectedEntities := affectedEntities problem;
     rootCauseEntity := rootCauseEntity problem;
     relevance := Some tag |}.

(** [{}] *)
Definition empty_id : EntityId := {| id_value := None |}.
Definition empty_entity : Entity := {| entityId := Absent; name := Absent |}.

(** [entity.get("entityId", {}).get("id")] *)
Definition get_id (entity : Entity) : result (option string) :=
  on (get (entityId entity) empty_id) (fun r => Return (id_value r)).

(** [entity.get("entityId", {}).get("id") == entity_id] *)
Definition id_is (entity_id : string) (entity : Entity) : result bool :=
  i <- get_id entity ;;
  Return match i with
         | Some s => String.eqb s entity_id
         | None => false
         end.

(** [entity_name = entity.get("name", "").lower()], then
    [service_name.lower() in entity_name]. *)
Definition name_has (service_name : string) (entity : Entity) : result bool :=
  entity_name <-
    on (get (name entity) EmptyString) (fun s => Return (lower s)) ;;
  Return (str_in (lower service_name) entity_name).

(** The loop of [_calculate_relevance] over the impacted entities. *)
Fixpoint any_id (entity_id : string) (entities : list Entity) : result bool :=
  match entities with
  | [] => Return false
  | entity :: rest =>
      found <- id_is entity_id entity ;;
      if found then Return true else any_id entity_id rest
  end.

Definition _calculate_relevance (problem : Problem) (entity_id : string)
  : result string :=
  let root_cause := get (rootCauseEntity problem) empty_entity in
  is_root <- on root_cause (id_is entity_id) ;;
  if is_root then Return "root_cause"
  else
    let impacted := get (impactedEntities problem) [] in
    entities <- iter impacted ;;
    directly <- any_id entity_id entities ;;
    if directly then Return "directly_impacted"
    else Return "indirectly_affected".

(** [impacted + affected], then [root_cause] appended when it is truthy:
    neither [None] nor the empty dictionary. *)
Definition all_entities (problem : Problem) : result (list Entity) :=
  let impacted := get (impactedEntities problem) [] in
  let affected := get (affectedEntities problem) [] in
  all_entities <- concat impacted affected ;;
  match rootCauseEntity problem with
  | Present root_cause => Return (all_entities ++ [root_cause])
  | Absent | Null => Return all_entities
  end.

(** How the inner loop of [_filter_problems_by_entity] leaves: at the first
    entity that matches by id or, failing that on the same entity, by
    name. *)
Inductive hit := ById | ByName.

Fixpoint scan_entities (entity_id service_name : string)
    (entities : list Entity) : result (option hit) :=
  match entities with
  | [] => Return None
  | entity :: rest =>
      by_id <- id_is entity_id entity ;;
      if by_id then Return (Some ById)
      else
        by_name <- name_has service_name entity ;;
        if by_name then Return (Some ByName)
        else scan_entities entity_id service_name rest
  end.

(** One iteration of the outer loop: the tag the problem receives, if it
    is accepted; what the iteration raises is not caught. *)
Definition entity_tag (entity_id service_name : string) (problem : Problem)
  : result (option string) :=
  entities <- all_entities problem ;;
  found <- scan_entities entity_id service_name entities ;;
  match found with
  | Some ById =>
      relevance <- _calculate_relevance problem entity_id ;;
      Return (Some relevance)
  | Some ByName => Return (Some "name_match")
  | None => Return None
  end.

(** A filter run gives the input list as the run leaves it (its records are
    tagged in place) and its outcome: the returned list, which holds the
    accepted records themselves, or the exception of the iteration that
    raised, at which the run stops. *)
Record Filtered := {
  problems_after : list Problem;
  outcome : result (list Problem)
}.

Fixpoint run_filter (tag : Problem -> result (option string))
    (problems : list Problem) : Filtered :=
  match problems with
  | [] => {| problems_after := []; outcome := Return [] |}
  | problem :: rest =>
      match tag problem with
      | Raise e => {| problems_after := problem :: rest; outcome := Raise e |}
      | Return (Some t) =>
          let problem' := set_relevance problem t in
          let r := run_filter tag rest in
          {| problems_after := problem' :: problems_after r;
             outcome :=
               (filtered_problems <- outcome r ;;
                Return (problem' :: filtered_problems)) |}
      | Return None =>
          let r := run_filter tag rest in
          {| problems_after := problem :: problems_after r;
             outcome := outcome r |}
      end
  end.

Definition _filter_problems_by_entity (problems : list Problem)
    (entity_id service_name : string) : Filtered :=
  run_filter (entity_tag entity_id service_name) problems.

(** The inner loop of [_filter_problems_by_name]. *)
Fixpoint any_name (service_name : string) (entities : list Entity)
  : result bool :=
  match entities with
  | [] => Return false
  | entity :: rest =>
      found <- name_has service_name entity ;;
      if found then Return true else any_name service_name rest
  end.

(** The loop body of [_filter_problems_by_name]. *)
Definition name_tag (service_name : string) (problem : Problem)
  : result (option string) :=
  let service_lower := lower service_name in
  title <- on (get (title problem) EmptyString) (fun s => Return (lower s)) ;;
  display_name <-
    on (get (displayName problem) EmptyString) (fun s => Return (lower s)) ;;
  if (str_in service_lower title || str_in service_lower display_name)%bool
  then Return (Some "title_match")
  else
    let impacted := get (impactedEntities problem) [] in
    let affected := get (affectedEntities problem) [] in
    entities <- concat impacted affected ;;
    found <- any_name service_name entities ;;
    if found then Return (Some "entity_match") else Return None.

Definition _filter_problems_by_name (problems : list Problem)
    (service_name : string) : Filtered :=
  run_filter (name_tag service_name) problems.

(** The dictionary [categorize_problems] returns: its four keys. *)
Record Categorized := {
  critical : list Problem;
  important : list Problem;
  related : list Problem;
  resolved : list Problem
}.

(** The loop body of [categorize_problems]. *)
Definition categorize_step (categorized : Categorized) (problem : Problem)
  : result Categorized :=
  status <- on (get (status problem) EmptyString) (fun s => Return (upper s)) ;;
  severity <-
    on (get (severityLevel problem) EmptyString) (fun s => Return (upper s)) ;;
  let relevance := default "unknown" (relevance problem) in
  if String.eqb status "RESOLVED" then
    Return {| critical := critical categorized;
              important := important categorized;
              related := related categorized;
              resolved := resolved categorized ++ [problem] |}
  else if (String.eqb relevance "root_cause"
           || existsb (String.eqb severity) ["ERROR"; "CUSTOM_ALERT"])%bool
  then
    Return {| critical := critical categorized ++ [problem];
              important := important categorized;
              related := related categorized;
              resolved := resolved categorized |}
  else if String.eqb relevance "directly_impacted" then
    Return {| critical := critical categorized;
              important := important categorized ++ [problem];
              related := related categorized;
              resolved := resolved categorized |}
  else
    Return {| critical := critical categorized;
              important := important categorized;
              related := related categorized ++ [problem];
              resolved := resolved categorized |}.

Fixpoint categorize_loop (categorized : Categorized) (problems : list Problem)
  : result Categorized :=
  match problems with
  | [] => Return categorized
  | problem :: rest =>
      categorized' <- categorize_step categorized problem ;;
      categorize_loop categorized' rest
  end.

Definition categorize_problems (problems : list Problem)
  : result Categorized :=
  categorize_loop
    {| critical := []; important := []; related := []; resolved := [] |}
    problems.

End Problems.

(** ** Python's [re], as far as the patterns of the program go

    A backtracking matcher in the list-of-successes style: [run r st] lists
    the states in which [r] can leave the subject from [st], in the order
    in which Python's matcher tries them, so that its head is the match
    Python reports.  Every [Star] body of the program's patterns is a single
    character class; [iterate] stops an iteration that consumes nothing. *)

Module Re.
Import PyStr.

Inductive regex :=
| Eps
| Class (p : ascii -> bool)
| Seq (r1 r2 : regex)
| Alt (r1 r2 : regex)
| Star (r : regex)
| Group (n : nat) (r : regex)
| Bol
| Eol
| WordB.

(** [r+], [r?] and a literal word. *)
Definition Plus (r : regex) : regex := Seq r (Star r).
Definition Opt (r : regex) : regex := Alt r Eps.
Definition Chr (c : ascii) : regex := Class (Ascii.eqb c).

Fixpoint Lit (s : string) : regex :=
  match s with
  | EmptyString => Eps
  | String c EmptyString => Chr c
  | String c s' => Seq (Chr c) (Lit s')
  end.

(** [r1|r2|...|rn] *)
Fixpoint AltOf (r : regex) (rs : list regex) : regex :=
  match rs with
  | [] => r
  | r' :: rs' => Alt r (AltOf r' rs')
  end.

(** [r1 r2 ... rn] *)
Fixpoint SeqOf (rs : list regex) : regex :=
  match rs with
  | [] => Eps
  | [r] => r
  | r :: rs' => Seq r (SeqOf rs')
  end.

(** [\w] on the ASCII range. *)
Definition is_word (c : ascii) : bool :=
  (is_digit c || is_lower c || is_upper c || Ascii.eqb c "_")%bool.

(** Where the matcher stands: the characters behind it, nearest first, the
    characters ahead, and the groups closed so far, latest first. *)
Record mstate := {
  seen : list ascii;
  rest : list ascii;
  groups : list (nat * list ascii)
}.

Definition word_at (l : list ascii) : bool :=
  match l with
  | c :: _ => is_word c
  | [] => false
  end.

Definition at_boundary (st : mstate) : bool :=
  xorb (word_at (seen st)) (word_at (rest st)).

Definition newline : ascii := ascii_of_N 10.

(** [$] without [re.MULTILINE]: the end of the subject, or just before a
    newline that ends it. *)
Definition at_end (st : mstate) : bool :=
  match rest st with
  | [] => true
  | [c] => Ascii.eqb c newline
  | _ => false
  end.

Definition capture (n : nat) (st st' : mstate) : mstate :=
  {| seen := seen st';
     rest := rest st';
     groups :=
       (n, firstn (length (rest st) - length (rest st')) (rest st))
         :: groups st' |}.

Fixpoint iterate (step : mstate -> list mstate) (fuel : nat) (st : mstate)
  : list mstate :=
  match fuel with
  | O => [st]
  | S fuel' =>
      flat_map
        (fun st' =>
           if Nat.ltb (length (rest st')) (length (rest st))
           then iterate step fuel' st' else [])
        (step st)
        ++ [st]
  end.

Fixpoint run (r : regex) (st : mstate) {struct r} : list mstate :=
  match r with
  | Eps => [st]
  | Class p =>
      match rest st with
      | c :: rest' =>
          if p c
          then [{| seen := c :: seen st; rest := rest';
                   groups := groups st |}]
          else []
      | [] => []
      end
  | Seq r1 r2 => flat_map (run r2) (run r1 st)
  | Alt r1 r2 => run r1 st ++ run r2 st
  | Star r1 => iterate (run r1) (length (rest st)) st
  | Group n r1 => map (capture n st) (run r1 st)
  | Bol => match seen st with [] => [st] | _ => [] end
  | Eol => if at_end st then [st] else []
  | WordB => if at_boundary st then [st] else []
  end.

Fixpoint lookup_group (n : nat) (gs : list (nat * list ascii))
  : option (list ascii) :=
  match gs with
  | [] => None
  | (k, w) :: gs' => if Nat.eqb k n then Some w else lookup_group n gs'
  end.

(** [m.group(n)], for a group that took part in the match. *)
Definition group (n : nat) (m : mstate) : string :=
  string_of_list_ascii (default [] (lookup_group n (groups m))).

Definition start (behind ahead : list ascii) : mstate :=
  {| seen := behind; rest := ahead; groups := [] |}.

(** [re.match(r, s)] *)
Definition re_match (r : regex) (s : string) : option mstate :=
  head (run r (start [] (list_ascii_of_string s))).

Fixpoint search_from (r : regex) (behind ahead : list ascii)
  : option mstate :=
  match run r (start behind ahead) with
  | m :: _ => Some m
  | [] =>
      match ahead with
      | [] => None
      | c :: ahead' => search_from r (c :: behind) ahead'
      end
  end.

(** [re.search(r, s)] *)
Definition re_search (r : regex) (s : string) : option mstate :=
  search_from r [] (list_ascii_of_string s).

(** [re.sub] with the empty replacement: the text of each match, taken from
    left to right, is dropped; a match of no character changes nothing and
    the scan moves on by one character. *)
Fixpoint delete_from (r : regex) (fuel : nat) (behind ahead : list ascii)
  : list ascii :=
  match fuel with
  | O => ahead
  | S fuel' =>
      let skip :=
        match ahead with
        | [] => []
        | c :: ahead' => c :: delete_from r fuel' (c :: behind) ahead'
        end in
      match run r (start behind ahead) with
      | m :: _ =>
          if Nat.ltb (length (rest m)) (length ahead)
          then delete_from r fuel' (seen m) (rest m)
          else skip
      | [] => skip
      end
  end.

Definition re_delete (r : regex) (s : string) : string :=
  let l := list_ascii_of_string s in
  string_of_list_ascii (delete_from r (S (length l)) [] l).

(** The character classes of the program, on ASCII text: [\d] is the
    digits 0 to 9 and [\s] the blanks of [is_space].  (Python's [\d] also
    takes the decimal digits of other scripts, and its [\s] other blanks:
    text that has them is outside the model, see [Spec.ascii_text].) *)
Definition digit : regex := Class is_digit.
Definition space : regex := Class is_space.
Definition one_of (s : string) : regex :=
  Class (fun c => existsb (Ascii.eqb c) (list_ascii_of_string s)).

End Re.

(** ** [utils/timeframe.py] *)

Module Timeframe.
Import PyStr Re Py.

(** [r'^(\d+)([mhdw])$'] *)
Definition timeframe_pattern : regex :=
  SeqOf [Bol; Group 1 (Plus digit); Group 2 (one_of "mhdw"); Eol].

Definition digit_value (c : ascii) : Z := (Z.of_N (N_of_ascii c) - 48)%Z.

Fixpoint int_acc (acc : Z) (s : string) : Z :=
  match s with
  | EmptyString => acc
  | String c s' => int_acc (10 * acc + digit_value c)%Z s'
  end.

(** The number a string of decimal digits denotes. *)
Definition decimal (s : string) : Z := int_acc 0%Z s.

(** [sys.get_int_max_str_digits()], as CPython sets it by default. *)
Definition int_max_str_digits : Z := 4300%Z.

(** [int(s)] for a string of decimal digits.  An [int] has no bound, but
    the conversion has: a string of more digits than the limit, leading
    zeros counted, raises [ValueError]. *)
Definition int (s : string) : result Z :=
  if (int_max_str_digits <? Z.of_nat (String.length s))%Z
  then Raise ValueError
  else Return (decimal s).

(** [str(n)], for a number [int] returned: its digits are within the
    limit of the conversion. *)
Definition str (n : Z) : string := NilZero.string_of_int (Z.to_int n).

(** A [datetime] is the number of microseconds since 0001-01-01T00:00:00,
    the least one; the greatest is 9999-12-31T23:59:59.999999.  A
    [timedelta] is a number of microseconds whose whole days stay within
    999999999 in magnitude. *)
Definition datetime := Z.
Definition day_us : Z := (86400 * 1000000)%Z.
Definition max_ordinal : Z := 3652059%Z.
Definition datetime_max : datetime := (max_ordinal * day_us - 1)%Z.
Definition max_delta_days : Z := 999999999%Z.

Inductive timedelta_kw := minutes | hours | days | weeks.

Definition kw_seconds (kw : timedelta_kw) : Z :=
  match kw with
  | minutes => 60%Z
  | hours => 3600%Z
  | days => 86400%Z
  | weeks => 604800%Z
  end.

(** [timedelta] called with the one keyword [kw] set to [value]:
    [OverflowError] when the day count is out of range. *)
Definition timedelta (kw : timedelta_kw) (value : Z) : result Z :=
  let us := (value * kw_seconds kw * 1000000)%Z in
  if (Z.abs (us / day_us) >? max_delta_days)%Z then Raise OverflowError
  else Return us.

(** [t - delta]: [OverflowError] when the date leaves the years 1..9999. *)
Definition datetime_sub (t : datetime) (delta : Z) : result datetime :=
  let t' := (t - delta)%Z in
  if ((0 <=? t') && (t' <=? datetime_max))%Z then Return t'
  else Raise OverflowError.

Definition unit_mapping (unit : string) : result timedelta_kw :=
  if String.eqb unit "m" then Return minutes
  else if String.eqb unit "h" then Return hours
  else if String.eqb unit "d" then Return days
  else if String.eqb unit "w" then Return weeks
  else Raise KeyError.

(** [parse_timeframe], with the instant [datetime.utcnow()] reads as
    [now]. *)
Definition parse_timeframe (now : datetime) (timeframe : string)
  : result (datetime * datetime) :=
  match re_match timeframe_pattern (lower timeframe) with
  | None => Raise ValueError
  | Some m =>
      value <- int (group 1 m) ;;
      let unit := group 2 m in
      kw <- unit_mapping unit ;;
      delta <- timedelta kw value ;;
      from_time <- datetime_sub now delta ;;
      Return (from_time, now)
  end.

Definition unit_names (value : Z) (unit : string) : result string :=
  if String.eqb unit "m"
  then Return (if (value =? 1)%Z then "minute" else "minutes")
  else if String.eqb unit "h"
  then Return (if (value =? 1)%Z then "hour" else "hours")
  else if String.eqb unit "d"
  then Return (if (value =? 1)%Z then "day" else "days")
  else if String.eqb unit "w"
  then Return (if (value =? 1)%Z then "week" else "weeks")
  else Raise KeyError.

Definition human_readable_timeframe (timeframe : string) : result string :=
  match re_match timeframe_pattern (lower timeframe) with
  | None => Return timeframe
  | Some m =>
      value <- int (group 1 m) ;;
      let unit := group 2 m in
      unit_name <- unit_names value unit ;;
      Return ("Last " +:+ str value +:+ " " +:+ unit_name)
  end.

End Timeframe.

(** ** [prompt_handler/intent_parser.py] *)

Module IntentParser.
Import PyStr Re Py.

(** The intent dictionary.  Its five parser keys are always present; their
    values are strings or [None].  ["is_followup"] is absent ([None]) until
    [apply_context] sets it. *)
Record Intent := {
  type : option string;
  service_name : option string;
  timeframe : option string;
  additional_context : option string;
  raw_query : string;
  is_followup : option bool
}.

(** *** The fallback tier *)

Definition intent_keywords : list (string * list string) :=
  [ ("check_abnormality",
     [ "check"; "status"; "health"; "issue"; "problem"; "error";
       "alert"; "wrong"; "failing"; "down"; "broken"; "not working";
       "abnormal"; "anomaly"; "investigate"; "look into"; "whats up with";
       "how is"; "how are"; "happening with"; "going on" ]);
    ("list_services",
     [ "list"; "show all"; "show me"; "get all"; "what services";
       "available services"; "which services"; "all services";
       "what do we have"; "what applications"; "show services" ]);
    ("service_details",
     [ "details about"; "info about"; "information on"; "tell me about";
       "what is"; "describe"; "explain"; "more about" ]);
    ("metrics_analysis",
     [ "metrics"; "performance"; "stats"; "statistics"; "kpi";
       "how fast"; "response time"; "latency"; "throughput";
       "cpu"; "memory"; "disk"; "analyze"; "analysis" ]);
    ("compare_services",
     [ "compare"; "comparison"; "versus"; "vs"; "difference between";
       "which is better"; "against"; "relative to" ]);
    ("troubleshoot",
     [ "troubleshoot"; "diagnose"; "debug"; "fix"; "solve";
       "why is"; "root cause"; "reason for"; "causing";
       "slow"; "help with"; "figure out" ]) ].

(** [sum(1 for keyword in keywords if keyword in text)] *)
Definition score (text : string) (keywords : list string) : nat :=
  length (List.filter (fun keyword => str_in keyword text) keywords).

(** The dictionary [scores], in insertion order: the intents whose score is
    positive. *)
Definition scores_of (text : string) (table : list (string * list string))
  : list (string * nat) :=
  List.filter (fun entry => Nat.ltb 0 (snd entry))
    (map (fun entry => (fst entry, score text (snd entry))) table).

(** [max(scores, key=scores.get)] walks the keys in insertion order and
    keeps the first one of greatest score. *)
Fixpoint max_from (best : string * nat) (scores : list (string * nat))
  : string :=
  match scores with
  | [] => fst best
  | entry :: scores' =>
      if Nat.ltb (snd best) (snd entry) then max_from entry scores'
      else max_from best scores'
  end.

Definition _detect_intent_type_flexible (text : string) : string :=
  match scores_of text intent_keywords with
  | entry :: scores' => max_from entry scores'
  | [] => "general_question"
  end.

(** [[a-zA-Z0-9\-_.]] and [[a-zA-Z0-9\-_]] *)
Definition name_char : regex :=
  Class (fun c => (is_lower c || is_upper c || is_digit c
                   || existsb (Ascii.eqb c) (list_ascii_of_string "-_."))%bool).
Definition slug_char : regex :=
  Class (fun c => (is_lower c || is_upper c || is_digit c
                   || existsb (Ascii.eqb c) (list_ascii_of_string "-_"))%bool).

(** [[:\s]] *)
Definition colon_or_space : regex :=
  Class (fun c => (Ascii.eqb c ":" || is_space c)%bool).

(** The double and the single quote. *)
Definition quote : regex :=
  Class (fun c => (Ascii.eqb c (ascii_of_N 34) || Ascii.eqb c (ascii_of_N 39))%bool).

Definition service_pattern_1 : regex :=
  SeqOf [WordB; Lit "for"; Plus colon_or_space; Group 1 (Plus name_char)].

Definition service_pattern_2 : regex :=
  SeqOf [WordB; AltOf (Lit "of") [Lit "about"]; Plus colon_or_space;
         Group 1 (Plus name_char)].

Definition service_pattern_3 : regex :=
  SeqOf [WordB; Lit "service"; Plus colon_or_space; Group 1 (Plus name_char)].

Definition service_pattern_3b : regex :=
  SeqOf [Group 1 (Plus name_char); Plus space; Lit "service"; WordB].

Definition service_pattern_4 : regex :=
  SeqOf [quote; Group 1 (Plus name_char); quote].

Definition service_patterns : list regex :=
  [ SeqOf [WordB;
           Group 1
             (Seq (Plus slug_char)
                (AltOf (Lit "api")
                   [Lit "service"; Lit "controller"; Lit "backend";
                    Lit "frontend"; Lit "gateway"; Lit "proxy"]));
           WordB];
    SeqOf [WordB; AltOf (Lit "api") [Lit "service"; Lit "controller"];
           one_of "-_"; Group 1 (Plus slug_char); WordB] ].

Definition action_words : list string :=
  ["check"; "analyze"; "monitor"; "debug"; "fix"; "look"; "see"; "show"].

Definition action_pattern (action : string) : regex :=
  SeqOf [WordB; Lit action; Plus space;
         Opt (Seq (Lit "the") (Plus space));
         Group 1 (Plus name_char); WordB].

Definition common_words : list string :=
  ["service"; "services"; "status"; "health"; "metrics"; "issues"].

(** The first pattern of the list that is found in [text]. *)
Fixpoint first_search (patterns : list regex) (text : string)
  : option mstate :=
  match patterns with
  | [] => None
  | pattern :: patterns' =>
      match re_search pattern text with
      | Some m => Some m
      | None => first_search patterns' text
      end
  end.

Fixpoint after_action (actions : list string) (text : string)
  : option string :=
  match actions with
  | [] => None
  | action :: actions' =>
      match re_search (action_pattern action) text with
      | Some m =>
          let candidate := group 1 m in
          if existsb (String.eqb candidate) common_words
          then after_action actions' text
          else Some candidate
      | None => after_action actions' text
      end
  end.

Definition _extract_service_name_flexible (text : string) : option string :=
  match first_search
          [service_pattern_1; service_pattern_2; service_pattern_3;
           service_pattern_3b; service_pattern_4] text with
  | Some m => Some (group 1 m)
  | None =>
      match first_search service_patterns text with
      | Some m => Some (group 1 m)
      | None => after_action action_words text
      end
  end.

(** [r'\b(\d+)\s*([mhdw])\b'] *)
Definition timeframe_pattern_1 : regex :=
  SeqOf [WordB; Group 1 (Plus digit); Star space; Group 2 (one_of "mhdw");
         WordB].

Definition unit_word : regex :=
  AltOf (Lit "minute") [Lit "hour"; Lit "day"; Lit "week"].

(** [r'\b(?:last|past|previous|recent)\s+(\d+)\s*(minute|hour|day|week)s?\b'] *)
Definition timeframe_pattern_2 : regex :=
  SeqOf [WordB;
         AltOf (Lit "last") [Lit "past"; Lit "previous"; Lit "recent"];
         Plus space; Group 1 (Plus digit); Star space; Group 2 unit_word;
         Opt (Chr "s"); WordB].

(** [r'\bin\s+the\s+(?:last|past)\s+(\d+)\s*(minute|hour|day|week)s?\b'] *)
Definition timeframe_pattern_3 : regex :=
  SeqOf [WordB; Lit "in"; Plus space; Lit "the"; Plus space;
         AltOf (Lit "last") [Lit "past"];
         Plus space; Group 1 (Plus digit); Star space; Group 2 unit_word;
         Opt (Chr "s"); WordB].

Definition time_keywords : list (string * string) :=
  [ ("today", "24h"); ("yesterday", "48h"); ("this week", "7d");
    ("this month", "30d"); ("recent", "2h"); ("recently", "2h") ].

(** [s[0]] *)
Definition first_letter (s : string) : result string :=
  match s with
  | String c _ => Return (String c EmptyString)
  | EmptyString => Raise IndexError
  end.

Fixpoint keyword_timeframe (table : list (string * string)) (text : string)
  : string :=
  match table with
  | [] => "2h"
  | (keyword, timeframe) :: table' =>
      if str_in keyword text then timeframe
      else keyword_timeframe table' text
  end.

Definition _extract_timeframe_flexible (text : string) : result string :=
  match re_search timeframe_pattern_1 text with
  | Some m => Return (group 1 m +:+ group 2 m)
  | None =>
      match first_search [timeframe_pattern_2; timeframe_pattern_3] text with
      | Some m =>
          let value := group 1 m in
          unit <- first_letter (group 2 m) ;;
          Return (value +:+ unit)
      | None => Return (keyword_timeframe time_keywords text)
      end
  end.

Definition _parse_with_patterns (text : string) : result Intent :=
  let text_lower := lower text in
  let intent_type := _detect_intent_type_flexible text_lower in
  let service_name := _extract_service_name_flexible text_lower in
  timeframe <- _extract_timeframe_flexible text_lower ;;
  let intent_type :=
    if truthy intent_type then intent_type else "general_question" in
  Return {| type := Some intent_type;
            service_name := service_name;
            timeframe := Some timeframe;
            additional_context := Some EmptyString;
            raw_query := text;
            is_followup := None |}.

(** *** The generative tier *)

(** What [requests.post] gives back from Ollama: the status code and the
    value [response.json()['response']], [None] when the body has no such
    text. *)
Record HttpResponse := {
  status_code : Z;
  response_text : option string
}.

(** The client object, as [_call_ai] uses it: the provider name and the
    calls into the provider libraries, each of which returns or raises. *)
Record AIClient := {
  provider : string;
  chat : string -> string -> result string;
  generate_content : string -> result string;
  post : string -> result HttpResponse
}.

(** A decoded JSON document: an object whose members are strings or
    [null], as the answer contract has them, or a document of another
    shape, which has no [get]. *)
Inductive json :=
| JObject (members : gmap string (option string))
| JOther.

Definition dq : string := String (ascii_of_N 34) EmptyString.

Definition system_prompt : string :=
"You are an intent classifier for a Dynatrace monitoring chatbot.
Your job is to extract structured information from user queries.

Available intent types:
- check_abnormality: User wants to check service health, issues, problems, errors
- list_services: User wants to see all available services
- service_details: User wants detailed info about a specific service
- metrics_analysis: User wants to analyze performance metrics
- compare_services: User wants to compare multiple services
- troubleshoot: User wants help diagnosing an issue
- general_question: General question about monitoring or the system

Extract:
1. intent_type: One of the above types
2. service_name: The service name mentioned (if any)
3. timeframe: Time period like " +:+ dq +:+ "2h" +:+ dq +:+ ", " +:+ dq
+:+ "30m" +:+ dq +:+ ", " +:+ dq +:+ "7d" +:+ dq +:+ " (default: " +:+ dq
+:+ "2h" +:+ dq +:+ ")
4. additional_context: Any other relevant information

Respond ONLY with valid JSON in this exact format:
{
  " +:+ dq +:+ "intent_type" +:+ dq +:+ ": " +:+ dq +:+ "check_abnormality"
+:+ dq +:+ ",
  " +:+ dq +:+ "service_name" +:+ dq +:+ ": " +:+ dq +:+ "ordercontroller"
+:+ dq +:+ ",
  " +:+ dq +:+ "timeframe" +:+ dq +:+ ": " +:+ dq +:+ "2h" +:+ dq +:+ ",
  " +:+ dq +:+ "additional_context" +:+ dq +:+ ": " +:+ dq +:+ dq +:+ "
}

If no service name is mentioned, use null for service_name.
If no timeframe is mentioned, use " +:+ dq +:+ "2h" +:+ dq +:+ ".
".

Definition paragraph_break : string :=
  String newline (String newline EmptyString).

Definition _call_ai (client : AIClient) (system_prompt user_prompt : string)
  : result string :=
  let provider := provider client in
  if String.eqb provider "openai" then
    content <- chat client system_prompt user_prompt ;;
    Return (strip content)
  else if String.eqb provider "anthropic" then
    text <- chat client system_prompt user_prompt ;;
    Return (strip text)
  else if String.eqb provider "gemini" then
    let full_prompt := system_prompt +:+ paragraph_break +:+ user_prompt in
    text <- generate_content client full_prompt ;;
    Return (strip text)
  else if String.eqb provider "ollama" then
    response <-
      post client (system_prompt +:+ paragraph_break +:+ user_prompt) ;;
    if (status_code response =? 200)%Z then
      match response_text response with
      | Some text => Return (strip text)
      | None => Raise KeyError
      end
    else Raise OtherException
  else Raise OtherException.

(** [r'^```json\s*'] and [r'```\s*$'] *)
Definition fence_open : regex := SeqOf [Bol; Lit "```json"; Star space].
Definition fence_close : regex := SeqOf [Lit "```"; Star space; Eol].

Definition clean_response (response : string) : string :=
  let response_clean := strip response in
  if String.prefix "```" response_clean
  then re_delete fence_close (re_delete fence_open response_clean)
  else response_clean.

(** [intent_data.get(key, fallback)] *)
Definition get_or (members : gmap string (option string)) (key : string)
    (fallback : option string) : option string :=
  match members !! key with
  | Some v => v
  | None => fallback
  end.

Section Parser.

(** [json.loads]: [None] when it raises. *)
Variable json_loads : string -> option json.

(** The body of the [try] block of [_parse_with_ai]. *)
Definition ai_attempt (client : AIClient) (user_input : string)
  : result Intent :=
  let user_prompt := "User query: " +:+ user_input in
  response <- _call_ai client system_prompt user_prompt ;;
  match json_loads (clean_response response) with
  | None => Raise ValueError
  | Some JOther => Raise OtherException
  | Some (JObject intent_data) =>
      Return {| type := get_or intent_data "intent_type"
                          (Some "general_question");
                service_name := get_or intent_data "service_name" None;
                timeframe := get_or intent_data "timeframe" (Some "2h");
                additional_context :=
                  get_or intent_data "additional_context" (Some EmptyString);
                raw_query := user_input;
                is_followup := None |}
  end.

(** [_parse_with_ai]: whatever the attempt raises is logged and answered
    by [None]. *)
Definition _parse_with_ai (client : AIClient) (user_input : string)
  : option Intent :=
  match ai_attempt client user_input with
  | Return intent => Some intent
  | Raise _ => None
  end.

(** [AIIntentParser.parse], for a parser built on [ai_client]
    ([use_ai] is [ai_client is not None]).  [_parse_with_ai] raises
    nothing, so the handler around its call has nothing to catch; an
    intent dictionary is never empty, hence truthy. *)
Definition parse (ai_client : option AIClient) (user_input : string)
  : result (option Intent) :=
  if (negb (truthy user_input) || negb (truthy (strip user_input)))%bool
  then Return None
  else
    let user_input_clean := strip user_input in
    let fallback :=
      intent <- _parse_with_patterns user_input_clean ;;
      Return (Some intent) in
    match ai_client with
    | Some client =>
        match _parse_with_ai client user_input_clean with
        | Some intent => Return (Some intent)
        | None => fallback
        end
    | None => fallback
    end.

End Parser.

End IntentParser.

(** ** [main.py] *)

Module Main.
Import PyStr Py IntentParser.

(** [st.session_state.conversation_context] *)
Record Context := {
  last_service : option string;
  last_intent : option string;
  last_timeframe : option string
}.

(** The context a session starts with. *)
Definition initial_context : Context :=
  {| last_service := None; last_intent := None; last_timeframe := Some "2h" |}.

Definition opt_eqb (a b : option string) : bool :=
  match a, b with
  | Some x, Some y => String.eqb x y
  | None, None => true
  | _, _ => false
  end.

Definition apply_context (context : Context) (intent : Intent) : Intent :=
  let intent :=
    if (negb (truthy_opt (service_name intent))
        && truthy_opt (last_service context))%bool
    then
      if opt_eqb (type intent) (last_intent context)
      then {| type := type intent;
              service_name := last_service context;
              timeframe := timeframe intent;
              additional_context := additional_context intent;
              raw_query := raw_query intent;
              is_followup := Some true |}
      else intent
    else intent in
  if (negb (truthy_opt (timeframe intent))
      || opt_eqb (timeframe intent) (Some "2h"))%bool
  then
    if truthy_opt (last_timeframe context)
    then {| type := type intent;
            service_name := service_name intent;
            timeframe := last_timeframe context;
            additional_context := additional_context intent;
            raw_query := raw_query intent;
            is_followup := is_followup intent |}
    else intent
  else intent.

Definition update_context (context : Context) (intent : Intent) : Context :=
  let context :=
    if truthy_opt (service_name intent)
    then {| last_service := service_name intent;
            last_intent := last_intent context;
            last_timeframe := last_timeframe context |}
    else context in
  let context :=
    if truthy_opt (type intent)
    then {| last_service := last_service context;
            last_intent := type intent;
            last_timeframe := last_timeframe context |}
    else context in
  if truthy_opt (timeframe intent)
  then {| last_service := last_service context;
          last_intent := last_intent context;
          last_timeframe := timeframe intent |}
  else context.

End Main.

(** * Vocabulary of the properties *)

Module Spec.
Import PyStr Re Py Timeframe IntentParser Main Problems.

(** ** Reading a record *)

(** The string under a key, empty when there is none. *)
Definition text_of (v : value string) : string :=
  match v with
  | Present s => s
  | Absent | Null => EmptyString
  end.

(** The list under a key, empty when there is none. *)
Definition list_of {A} (v : value (list A)) : list A :=
  match v with
  | Present l => l
  | Absent | Null => []
  end.

(** The id of an entity, if it has one. *)
Definition id_of (entity : Entity) : option string :=
  match entityId entity with
  | Present r => id_value r
  | Absent | Null => None
  end.

(** The entities of a record: impacted, affected, root cause. *)
Definition entities_of (p : Problem) : list Entity :=
  list_of (impactedEntities p) ++ list_of (affectedEntities p)
    ++ match rootCauseEntity p with
       | Present root_cause => [root_cause]
       | Absent | Null => []
       end.

(** No key the filters read holds [null]: neither in the record nor in
    its entities. *)
Definition readable (entity : Entity) : Prop :=
  entityId entity <> Null /\ name entity <> Null.

Definition null_free (p : Problem) : Prop :=
  title p <> Null /\ displayName p <> Null
  /\ impactedEntities p <> Null /\ affectedEntities p <> Null
  /\ rootCauseEntity p <> Null
  /\ Forall readable (entities_of p).

(** No key [categorize_problems] calls a method on holds [null]. *)
Definition rated (p : Problem) : Prop :=
  status p <> Null /\ severityLevel p <> Null.

(** ** Buckets *)

Inductive bucket := Critical | Important | Related | Resolved.

Definition bucket_eqb (a b : bucket) : bool :=
  match a, b with
  | Critical, Critical | Important, Important
  | Related, Related | Resolved, Resolved => true
  | _, _ => false
  end.

(** The bucket the stated priority order gives a record: resolved status
    first, then root cause or high severity, then direct impact.  Status and
    severity are read in upper case, a missing relevance reads as
    [unknown]. *)
Definition bucket_of (p : Problem) : bucket :=
  if String.eqb (upper (text_of (status p))) "RESOLVED"
  then Resolved
  else if (String.eqb (default "unknown" (relevance p)) "root_cause"
           || String.eqb (upper (text_of (severityLevel p))) "ERROR"
           || String.eqb (upper (text_of (severityLevel p)))
                "CUSTOM_ALERT")%bool
  then Critical
  else if String.eqb (default "unknown" (relevance p)) "directly_impacted"
  then Important
  else Related.

Definition in_bucket (b : bucket) (p : Problem) : bool :=
  bucket_eqb (bucket_of p) b.

Definition bucket_list (c : Categorized) (b : bucket) : list Problem :=
  match b with
  | Critical => critical c
  | Important => important c
  | Related => related c
  | Resolved => resolved c
  end.

(** ** Frame of a filter run *)

(** Two records that differ in their relevance at most. *)
Definition same_but_relevance (p p' : Problem) : Prop :=
  problemId p' = problemId p
  /\ title p' = title p
  /\ displayName p' = displayName p
  /\ status p' = status p
  /\ severityLevel p' = severityLevel p
  /\ impactedEntities p' = impactedEntities p
  /\ affectedEntities p' = affectedEntities p
  /\ rootCauseEntity p' = rootCauseEntity p.

(** What a filter run that returned [matched] leaves at position [i],
    where the input list has the record [p] and the loop body decided
    [decision] ([None]: not accepted): the list still has a record there,
    equal to [p] in every field but its relevance; a record that is not
    accepted is [p] itself, untagged if [p] was, and is not in the returned
    list; an accepted record carries its tag and is in the returned
    list. *)
Definition left_at (after matched : list Problem) (i : nat) (p : Problem)
    (decision : option string) : Prop :=
  exists p',
    after !! i = Some p'
    /\ same_but_relevance p p'
    /\ match decision with
       | None =>
           p' = p
           /\ (relevance p = None -> relevance p' = None)
           /\ ~ In p' matched
       | Some t =>
           p' = set_relevance p t /\ In p' matched
       end.

(** The record as the loop body leaves it. *)
Definition tagged (p : Problem) (decision : option string) : Problem :=
  match decision with
  | Some t => set_relevance p t
  | None => p
  end.

(** The frame of a run of the loop body [tag] over [problems].  Whatever
    the outcome, the list keeps its length and each record every field but
    its relevance.  A run that returns has decided on every record.  A run
    that raises has stopped at a record [k] on which the body raised; the
    records before it are as the body left them, tagged when accepted,
    though no list is returned; the records from [k] on are untouched. *)
Definition frame (tag : Problem -> result (option string))
    (problems : list Problem) (r : Filtered) : Prop :=
  length (problems_after r) = length problems
  /\ (forall i p p',
        problems !! i = Some p -> problems_after r !! i = Some p' ->
        same_but_relevance p p')
  /\ (forall matched,
        outcome r = Return matched ->
        forall i p,
          problems !! i = Some p ->
          exists decision,
            tag p = Return decision
            /\ left_at (problems_after r) matched i p decision)
  /\ (forall e,
        outcome r = Raise e ->
        exists k p,
          problems !! k = Some p /\ tag p = Raise e
          /\ (forall i q,
                i < k -> problems !! i = Some q ->
                exists decision,
                  tag q = Return decision
                  /\ problems_after r !! i = Some (tagged q decision))
          /\ (forall i, k <= i -> problems_after r !! i = problems !! i)).

(** ** Entity matches *)

(** The entity has the id; the entity has the service name in its name,
    whatever the case. *)
Definition has_id (entity_id : string) (entity : Entity) : bool :=
  match id_of entity with
  | Some s => String.eqb s entity_id
  | None => false
  end.

Definition has_name (service_name : string) (entity : Entity) : bool :=
  str_in (lower service_name) (lower (text_of (name entity))).

(** The relevance rule as it is stated: root cause first, then the
    impacted entities, else indirectly affected. *)
Definition stated_relevance (entity_id : string) (p : Problem) : string :=
  if match rootCauseEntity p with
     | Present root_cause => has_id entity_id root_cause
     | Absent | Null => false
     end
  then "root_cause"
  else if existsb (has_id entity_id) (list_of (impactedEntities p))
  then "directly_impacted"
  else "indirectly_affected".




(** A problem rooted in the service SERVICE-123, resolved by now, and one
    that is open and impacts another service which has the name of the
    first as a part of its own. *)
Definition service_123 : Entity :=
  {| entityId := Present {| id_value := Some "SERVICE-123" |};
     name := Present "payment-api" |}.

Definition resolved_root_problem : Problem :=
  {| problemId := Some "P-1";
     title := Present "Failure rate increase";
     displayName := Present "P-1";
     status := Present "RESOLVED";
     severityLevel := Present "AVAILABILITY";
     impactedEntities := Present [];
     affectedEntities := Present [];
     rootCauseEntity := Present service_123;
     relevance := None |}.

Definition open_root_problem : Problem :=
  {| problemId := Some "P-3";
     title := Present "Failure rate increase";
     displayName := Present "P-3";
     status := Present "OPEN";
     severityLevel := Present "AVAILABILITY";
     impactedEntities := Present [];
     affectedEntities := Present [];
     rootCauseEntity := Present service_123;
     relevance := None |}.

Definition gateway_problem : Problem :=
  {| problemId := Some "P-2";
     title := Present "Response time degradation";
     displayName := Present "P-2";
     status := Present "OPEN";
     severityLevel := Present "PERFORMANCE";
     impactedEntities :=
       Present [ {| entityId := Present {| id_value := Some "SERVICE-999" |};
                    name := Present "payment-api-gateway" |} ];
     affectedEntities := Present [];
     rootCauseEntity := Present service_123;
     relevance := None |}.


Definition statusless_problem : Problem :=
  {| problemId := Some "P-5";
     title := Present "Failure rate increase";
     displayName := Present "P-5";
     status := Null;
     severityLevel := Present "ERROR";
     impactedEntities := Present [];
     affectedEntities := Present [];
     rootCauseEntity := Present service_123;
     relevance := Some "root_cause" |}.

Definition nameless_problem : Problem :=
  {| problemId := Some "P-6";
     title := Present "Response time degradation";
     displayName := Present "P-6";
     status := Present "OPEN";
     severityLevel := Present "PERFORMANCE";
     impactedEntities :=
       Present [ {| entityId := Present {| id_value := Some "SERVICE-999" |};
                    name := Null |} ];
     affectedEntities := Present [];
     rootCauseEntity := Absent;
     relevance := None |}.

(** ** Timeframe grammar *)

(** [s] occurs in [t]. *)
Definition occurs (s t : string) : Prop :=
  exists pre post, t = pre +:+ s +:+ post.

Definition is_unit (c : ascii) : bool :=
  existsb (Ascii.eqb c) (list_ascii_of_string "mhdw").

(** The grammar of a timeframe: one digit or more, then one of the unit
    letters m, h, d, w. *)
Inductive canonical : string -> Prop :=
| canonical_intro ds u :
    ds <> EmptyString -> all_chars is_digit ds = true -> is_unit u = true ->
    canonical (ds +:+ String u EmptyString).

(** [t] matches the timeframe pattern the way [re.match] reads it: a
    canonical timeframe, or one followed by the newline that [$] lets
    pass. *)
Definition matches_timeframe (t : string) : Prop :=
  exists c,
    canonical c /\ (t = c \/ t = c +:+ String newline EmptyString).

(** An instant to run [parse_timeframe] at: 2026-11-03T00:00:00. *)
Definition an_instant : datetime := 63929260800000000%Z.

(** The unit word of a letter, singular for the count one. *)
Definition unit_base (u : ascii) : string :=
  if Ascii.eqb u "m" then "minute"
  else if Ascii.eqb u "h" then "hour"
  else if Ascii.eqb u "d" then "day"
  else "week".

Definition unit_word_for (u : ascii) (n : Z) : string :=
  unit_base u +:+ (if (n =? 1)%Z then EmptyString else "s").

Definition unit_seconds (u : ascii) : Z :=
  if Ascii.eqb u "m" then 60%Z
  else if Ascii.eqb u "h" then 3600%Z
  else if Ascii.eqb u "d" then 86400%Z
  else 604800%Z.

(** The span of [n] units, in microseconds. *)
Definition span_us (u : ascii) (n : Z) : Z := (n * unit_seconds u * 1000000)%Z.

(** The digits and the unit letter of a timeframe. *)
Fixpoint split_unit (tf : string) : option (string * ascii) :=
  match tf with
  | EmptyString => None
  | String c EmptyString => Some (EmptyString, c)
  | String c tf' =>
      match split_unit tf' with
      | Some (ds, u) => Some (String c ds, u)
      | None => None
      end
  end.

(** The span a timeframe denotes, in microseconds. *)
Definition span_of (tf : string) : Z :=
  match split_unit tf with
  | Some (ds, u) => span_us u (decimal ds)
  | None => 0%Z
  end.

(** ASCII text, which is what the strings of the model stand for: on it
    [\d], [\s], [\w], [lower], [upper] and [strip] are what Python's are. *)
Definition ascii_text (s : string) : Prop := all_chars is_ascii s = true.

(** The digits are few enough for [int] to convert them. *)
Definition convertible (ds : string) : Prop :=
  (Z.of_nat (String.length ds) <= int_max_str_digits)%Z.

(** The digits a string starts with. *)
Fixpoint leading_digits (s : string) : string :=
  match s with
  | String c s' =>
      if is_digit c then String c (leading_digits s') else EmptyString
  | EmptyString => EmptyString
  end.

(** One digit more than [int] converts. *)
Definition long_digits : string :=
  N.iter 4301 (String "1"%char) EmptyString.

(** ** Words of a pattern *)

Inductive lang : regex -> list ascii -> Prop :=
| lang_eps : lang Eps []
| lang_class p c : p c = true -> lang (Class p) [c]
| lang_seq r1 r2 w1 w2 : lang r1 w1 -> lang r2 w2 -> lang (Seq r1 r2) (w1 ++ w2)
| lang_alt_l r1 r2 w : lang r1 w -> lang (Alt r1 r2) w
| lang_alt_r r1 r2 w : lang r2 w -> lang (Alt r1 r2) w
| lang_star_nil r : lang (Star r) []
| lang_star_app r w1 w2 :
    lang r w1 -> lang (Star r) w2 -> lang (Star r) (w1 ++ w2)
| lang_group n r w : lang r w -> lang (Group n r) w
| lang_bol : lang Bol []
| lang_eol : lang Eol []
| lang_wordb : lang WordB [].

(** A class that cannot take the next character. *)
Definition stops (p : ascii -> bool) (l : list ascii) : Prop :=
  match l with
  | [] => True
  | c :: _ => p c = false
  end.

(** The end of a subject, where [$] holds: nothing, or one newline. *)
Definition ending (l : list ascii) : Prop := l = [] \/ l = [newline].

(** The groups of a pattern, each with its body. *)
Fixpoint group_bodies (r : regex) : list (nat * regex) :=
  match r with
  | Seq r1 r2 | Alt r1 r2 => group_bodies r1 ++ group_bodies r2
  | Star r1 => group_bodies r1
  | Group n r1 => (n, r1) :: group_bodies r1
  | _ => []
  end.

(** Group [n] is closed on every way through the pattern. *)
Fixpoint sets (n : nat) (r : regex) : bool :=
  match r with
  | Seq r1 r2 => (sets n r1 || sets n r2)%bool
  | Alt r1 r2 => (sets n r1 && sets n r2)%bool
  | Group k r1 => (Nat.eqb k n || sets n r1)%bool
  | _ => false
  end.

(** What one way through a pattern does to the matcher: it moves over a
    word [w] of the pattern and closes the groups [news]. *)
Definition moves (r : regex) (st st' : mstate) (w : list ascii)
    (news : list (nat * list ascii)) : Prop :=
  rest st = w ++ rest st'
  /\ seen st' = rev w ++ seen st
  /\ lang r w
  /\ groups st' = news ++ groups st
  /\ (forall n v, In (n, v) news ->
        exists body, In (n, body) (group_bodies r) /\ lang body v)
  /\ (forall n, sets n r = true -> lookup_group n news <> None).

(** ** Scores *)

(** [e] is the first entry of greatest score in [l]. *)
Definition first_max (l : list (string * nat)) (e : string * nat) : Prop :=
  exists l1 l2,
    l = l1 ++ e :: l2
    /\ Forall (fun x => snd x < snd e) l1
    /\ Forall (fun x => snd x <= snd e) l2.

(** Every intent with its score on [text]. *)
Definition score_table (text : string) : list (string * nat) :=
  map (fun entry => (fst entry, score text (snd entry))) intent_keywords.

(** ** Failures of the generative tier *)

Section Backend.
Variable json_loads : string -> option json.

(** The tier fails on [user_input]: the provider call raises (a timeout, an
    error status, an answer without its text, or a provider that is not
    supported), or its answer is no JSON, or is JSON but no object. *)
Definition backend_failed (client : AIClient) (user_input : string) : Prop :=
  let call := _call_ai client system_prompt ("User query: " +:+ user_input) in
  (exists e, call = Raise e)
  \/ (exists response,
        call = Return response
        /\ (json_loads (clean_response response) = None
            \/ json_loads (clean_response response) = Some JOther)).

End Backend.

(** A decoder that rejects every text, and a client whose provider call
    times out. *)
Definition no_json (text : string) : option json := None.

Definition timing_out : AIClient :=
  {| provider := "openai";
     chat := fun _ _ => Raise OtherException;
     generate_content := fun _ => Raise OtherException;
     post := fun _ => Raise OtherException |}.

(** A client whose provider answers with an empty JSON object, and a
    decoder that knows that answer. *)
Definition answering_empty : AIClient :=
  {| provider := "openai";
     chat := fun _ _ => Return "{}";
     generate_content := fun _ => Raise OtherException;
     post := fun _ => Raise OtherException |}.

Definition loads_empty (text : string) : option json :=
  if String.eqb text "{}" then Some (JObject ∅) else None.

(** ** Conversation contexts *)

(** A session that has seen a health check of payment-api over thirty
    minutes, and one that has seen a health check that named no service. *)
Definition payment_context : Context :=
  {| last_service := Some "payment-api";
     last_intent := Some "check_abnormality";
     last_timeframe := Some "30m" |}.

Definition unnamed_context : Context :=
  {| last_service := None;
     last_intent := Some "check_abnormality";
     last_timeframe := Some "30m" |}.

(** The intent of a health check that names no service. *)
Definition bare_check : Intent :=
  {| type := Some "check_abnormality";
     service_name := None;
     timeframe := Some "2h";
     additional_context := Some EmptyString;
     raw_query := "how is it now?";
     is_followup := None |}.

End Spec.

(** * The callers *)

(** ** [DynatraceProblemsAPI.get_problems_for_service] *)

Module Fetch.
Import PyStr Py Problems.

(** The query parameters of the request. *)
Record Params := {
  pageSize : Z;
  from : string;
  entitySelector : string;
  fields : string
}.

(** What the request gives: the list under the key [problems] of the
    decoded answer ([[]] when the key is missing), or
    [requests.RequestException]. *)
Inductive response :=
| Fetched (all_problems : list Problem)
| RequestException.

Definition dq : string := String (ascii_of_N 34) EmptyString.

Section Api.

Variable base_url : string.

(** [requests.get(url, headers=..., params=params, timeout=15)], followed
    by [raise_for_status] and [json]. *)
Variable requests_get : string -> Params -> response.

Definition get_problems_for_service (service_name : string)
    (entity_id : option string) (timeframe : string)
  : result (list Problem) :=
  let url := base_url +:+ "/api/v2/problems" in
  let params :=
    if truthy_opt entity_id then
      {| pageSize := 500;
         from := "now-" +:+ timeframe;
         entitySelector :=
           "type(" +:+ dq +:+ "SERVICE" +:+ dq +:+ "),entityId(" +:+ dq
           +:+ default EmptyString entity_id +:+ dq +:+ ")";
         fields := "+impactedEntities,+affectedEntities,+rootCauseEntity" |}
    else
      {| pageSize := 500;
         from := "now-" +:+ timeframe;
         entitySelector :=
           "type(" +:+ dq +:+ "SERVICE" +:+ dq +:+ "),entityName.contains("
           +:+ dq +:+ service_name +:+ dq +:+ ")";
         fields := "+impactedEntities,+affectedEntities,+rootCauseEntity" |}
  in
  match requests_get url params with
  | Fetched all_problems =>
      if truthy_opt entity_id
      then outcome
             (_filter_problems_by_entity all_problems
                (default EmptyString entity_id) service_name)
      else outcome (_filter_problems_by_name all_problems service_name)
  | RequestException => Return []
  end.

End Api.

End Fetch.

(** ** [main.py]: the chat history, similar services, one turn *)

Module Session.
Import PyStr Py IntentParser Main.

(** A chat message; [timestamp] is what [datetime.now()] read. *)
Record Message := {
  role : string;
  content : string;
  timestamp : Z
}.

(** [l[start:]] *)
Definition slice_from {A} (start : Z) (l : list A) : list A :=
  if (start <? 0)%Z
  then skipn (Z.to_nat (Z.max 0 (Z.of_nat (length l) + start))) l
  else skipn (Z.to_nat start) l.

(** [add_message], on the history [messages], with
    [config.MAX_CHAT_HISTORY] and the instant read. *)
Definition add_message (MAX_CHAT_HISTORY : Z) (now : Z)
    (messages : list Message) (role content : string) : list Message :=
  let messages :=
    messages ++ [{| role := role; content := content; timestamp := now |}] in
  if (Z.of_nat (length messages) >? MAX_CHAT_HISTORY)%Z then
    match messages with
    | welcome :: _ =>
        let recent := slice_from (- (MAX_CHAT_HISTORY - 1)) messages in
        [welcome] ++ recent
    | [] => messages
    end
  else messages.

(** A service entity, as [list_services] returns it; [None] is a key the
    entity does not have. *)
Record Service := {
  displayName : option string;
  entityId : option string
}.

(** [s.split(sep)] for a separator of one character. *)
Fixpoint split (sep : ascii) (s : string) : list string :=
  match s with
  | EmptyString => [EmptyString]
  | String c s' =>
      if Ascii.eqb c sep then EmptyString :: split sep s'
      else match split sep s' with
           | part :: parts => String c part :: parts
           | [] => [String c EmptyString]
           end
  end.

(** The loop of [find_similar_services]. *)
Fixpoint similar_loop (service_lower : string) (all_services : list Service)
  : list (option string) :=
  match all_services with
  | [] => []
  | service :: rest =>
      let name := lower (default EmptyString (displayName service)) in
      if (str_in service_lower name || str_in name service_lower)%bool
      then displayName service :: similar_loop service_lower rest
      else if existsb (fun part => str_in part name) (split "-" service_lower)
      then displayName service :: similar_loop service_lower rest
      else similar_loop service_lower rest
  end.

(** [find_similar_services]; [all_services] is what
    [services_api.list_services(limit=100)] returned. *)
Definition find_similar_services (all_services : list Service)
    (service_name : string) : list (option string) :=
  let service_lower := lower service_name in
  firstn 5 (similar_loop service_lower all_services).

(** [s.replace(old, new)] for single characters. *)
Definition replace_char (old new : ascii) (s : string) : string :=
  map_chars (fun c => if Ascii.eqb c old then new else c) s.

Definition trouble_message : string :=
  "I'm having trouble understanding that. Could you rephrase? Or type 'help' to see what I can do.".

Definition developing_message (intent_type : string) : string :=
  "I understand you want to " +:+ replace_char "_" " " intent_type +:+ ", "
  +:+ "but that feature is still being developed. 🚧

For now, I can:
• Check service health
• List all services
• Analyze metrics

What would you like to try?".

Definition oops_message : string :=
  "Oops! I encountered an error while processing your request. 😕

Please try rephrasing your question, or type 'help' to see what I can do.".

Section Turn.

Variable json_loads : string -> option json.
Variable ai_client : option AIClient.

(** The handlers: each answers or raises. *)
Variable handle_check_abnormality : Intent -> result string.
Variable handle_list_services : Intent -> result string.
Variable handle_general_question : Intent -> result string.

(** The body of the [try] block of [process_user_input]. *)
Definition route (intent : Intent) : result string :=
  let intent_type := type intent in
  if opt_eqb intent_type (Some "check_abnormality")
  then handle_check_abnormality intent
  else if opt_eqb intent_type (Some "list_services")
  then handle_list_services intent
  else if opt_eqb intent_type (Some "service_details")
  then handle_check_abnormality intent
  else if opt_eqb intent_type (Some "metrics_analysis")
  then handle_check_abnormality intent
  else if opt_eqb intent_type (Some "general_question")
  then handle_general_question intent
  else match intent_type with
       | Some t => Return (developing_message t)
       | None => Raise OtherException
       end.

(** [process_user_input]: the answer and the conversation context it
    leaves. *)
Definition process_user_input (context : Context) (user_input : string)
  : result (string * Context) :=
  parsed <- parse json_loads ai_client user_input ;;
  match parsed with
  | None => Return (trouble_message, context)
  | Some intent =>
      let intent := apply_context context intent in
      let context := update_context context intent in
      match route intent with
      | Return response => Return (response, context)
      | Raise _ => Return (oops_message, context)
      end
  end.

End Turn.

End Session.

(** * Vocabulary of the further properties *)

Module Terms.
Import PyStr Re Py Timeframe IntentParser Main Problems Spec Session.

(** ** Sessions *)

Section Turns.

Variable json_loads : string -> option json.
Variable ai_client : option AIClient.
Variable handle_check_abnormality : Intent -> result string.
Variable handle_list_services : Intent -> result string.
Variable handle_general_question : Intent -> result string.

(** The context after a run of inputs, each handled in its turn; an input
    on which the turn raises leaves the context as it was. *)
Fixpoint converse (context : Context) (inputs : list string) : Context :=
  match inputs with
  | [] => context
  | user_input :: rest =>
      match process_user_input json_loads ai_client handle_check_abnormality
              handle_list_services handle_general_question
              context user_input with
      | Return (_, context') => converse context' rest
      | Raise _ => converse context rest
      end
  end.

End Turns.

(** No supported provider is configured: the parser has no client, or
    one whose provider [_call_ai] does not know. *)
Definition no_backend (ai_client : option AIClient) : Prop :=
  forall client,
    ai_client = Some client ->
    ~ In (provider client) ["openai"; "anthropic"; "gemini"; "ollama"].

(** The client [AIResponseGenerator] is when it finds no key: its provider
    is [fallback], and none of its calls is made. *)
Definition fallback_client : AIClient :=
  {| provider := "fallback";
     chat := fun _ _ => Raise OtherException;
     generate_content := fun _ => Raise OtherException;
     post := fun _ => Raise OtherException |}.

(** The seven intent types. *)
Definition intent_types : list string :=
  ["check_abnormality"; "list_services"; "service_details";
   "metrics_analysis"; "compare_services"; "troubleshoot";
   "general_question"].

(** The types [process_user_input] has a handler for. *)
Definition handled_types : list string :=
  ["check_abnormality"; "list_services"; "service_details";
   "metrics_analysis"; "general_question"].

(** ** Names *)

(** The characters of a service name: letters, digits, hyphen, underscore
    and dot. *)
Definition is_name_char (c : ascii) : bool :=
  (is_lower c || is_upper c || is_digit c
   || existsb (Ascii.eqb c) (list_ascii_of_string "-_."))%bool.

(** A context the pattern tier can have left: a timeframe of the grammar,
    an intent type that is known, a service name that is a name. *)
Definition well_formed (context : Context) : Prop :=
  (exists tf, last_timeframe context = Some tf /\ canonical tf)
  /\ (forall t, last_intent context = Some t -> In t intent_types)
  /\ (forall service,
        last_service context = Some service ->
        service <> EmptyString /\ all_chars is_name_char service = true).

(** The words the bodies of the service patterns have. *)
Definition name_word (v : list ascii) : Prop :=
  v <> [] /\ forallb is_name_char v = true.

(** The whole subject a matcher state stands in. *)
Definition subject (st : mstate) : list ascii := rev (seen st) ++ rest st.

(** [v] is a run of consecutive characters of [l]. *)
Definition part_of (v l : list ascii) : Prop :=
  exists pre post, l = pre ++ v ++ post.

(** ** Problems *)

(** The tags of the two modes. *)
Definition entity_mode_tags : list string :=
  ["root_cause"; "directly_impacted"; "indirectly_affected"; "name_match"].

Definition name_mode_tags : list string := ["title_match"; "entity_match"].

(** The service name occurs, whatever the case, in the text. *)
Definition names (service_name : string) (text : value string) : Prop :=
  occurs (lower service_name) (lower (text_of text)).


(** The record with its relevance taken off. *)
Definition untagged (p : Problem) : Problem :=
  {| Problems.problemId := Problems.problemId p;
     Problems.title := Problems.title p;
     Problems.displayName := Problems.displayName p;
     Problems.status := Problems.status p;
     Problems.severityLevel := Problems.severityLevel p;
     Problems.impactedEntities := Problems.impactedEntities p;
     Problems.affectedEntities := Problems.affectedEntities p;
     Problems.rootCauseEntity := Problems.rootCauseEntity p;
     Problems.relevance := None |}.

(** ** Histories *)

(** A history of three messages, to try [add_message] on. *)
Definition three_messages : list Message :=
  [ {| role := "assistant"; content := "welcome"; timestamp := 0 |};
    {| role := "user"; content := "check ordercontroller"; timestamp := 1 |};
    {| role := "assistant"; content := "all fine"; timestamp := 2 |} ].

(** ** Similar services *)

(** The lower-cased display name [find_similar_services] compares. *)
Definition compared_name (service : Service) : string :=
  lower (default EmptyString (displayName service)).

(** One name is inside the other, or the name holds one of the parts the
    hyphens cut the asked name into. *)
Definition similar_to (service_name : string) (service : Service) : Prop :=
  occurs (lower service_name) (compared_name service)
  \/ occurs (compared_name service) (lower service_name)
  \/ exists part, In part (split "-" (lower service_name))
                  /\ occurs part (compared_name service).

(** The asked name is empty, starts or ends with a hyphen, or has two
    hyphens in a row. *)
Definition empty_part (service_name : string) : Prop :=
  service_name = EmptyString
  \/ (exists b, service_name = "-" +:+ b)
  \/ (exists a, service_name = a +:+ "-")
  \/ (exists a b, service_name = a +:+ "--" +:+ b).

(** The character code fences are made of. *)
Definition backquote : ascii := "`"%char.

End Terms.

(** * Properties *)

(** ** Sorting problems into buckets *)

Module CategorizeFacts.
Import PyStr Py Problems Spec.

Lemma rated_dec p : rated p \/ ~ rated p.
Proof.
  unfold rated. destruct (status p), (severityLevel p);
    try (left; split; discriminate); right; intros [H1 H2]; congruence.
Qed.

Lemma categorize_step_null c p :
  ~ rated p -> categorize_step c p = Raise AttributeError.
Proof.
  unfold rated, categorize_step. intros H.
  destruct (status p) eqn:Es; cbn [get on bind]; try reflexivity;
    destruct (severityLevel p) eqn:Ev; cbn [get on bind]; try reflexivity;
    exfalso; apply H; split; discriminate.
Qed.

Lemma categorize_step_bucket c p :
  rated p ->
  exists c',
    categorize_step c p = Return c'
    /\ forall b,
         bucket_list c' b
         = bucket_list c b ++ (if in_bucket b p then [p] else []).
Proof.
  intros [Hs Hv]. unfold categorize_step, in_bucket, bucket_of.
  assert (on (get (status p) EmptyString) (fun s => Return (upper s))
          = Return (upper (text_of (status p)))) as ->
    by (destruct (status p); [reflexivity|easy|reflexivity]).
  assert (on (get (severityLevel p) EmptyString) (fun s => Return (upper s))
          = Return (upper (text_of (severityLevel p)))) as ->
    by (destruct (severityLevel p); [reflexivity|easy|reflexivity]).
  cbn [bind existsb].
  destruct (String.eqb (upper (text_of (status p))) "RESOLVED").
  { eexists. split; [reflexivity|].
    intros b. destruct b; cbn; now rewrite ?app_nil_r. }
  destruct (String.eqb (default "unknown" (relevance p)) "root_cause");
    cbn [orb].
  { eexists. split; [reflexivity|].
    intros b. destruct b; cbn; now rewrite ?app_nil_r. }
  destruct (String.eqb (upper (text_of (severityLevel p))) "ERROR");
    cbn [orb].
  { eexists. split; [reflexivity|].
    intros b. destruct b; cbn; now rewrite ?app_nil_r. }
  destruct (String.eqb (upper (text_of (severityLevel p))) "CUSTOM_ALERT");
    cbn [orb].
  { eexists. split; [reflexivity|].
    intros b. destruct b; cbn; now rewrite ?app_nil_r. }
  destruct (String.eqb (default "unknown" (relevance p)) "directly_impacted");
    (eexists; split; [reflexivity|]);
    intros b; destruct b; cbn; now rewrite ?app_nil_r.
Qed.

Lemma categorize_loop_bucket ps : forall c,
  Forall rated ps ->
  exists c',
    categorize_loop c ps = Return c'
    /\ forall b, bucket_list c' b = bucket_list c b ++ List.filter (in_bucket b) ps.
Proof.
  induction ps as [|p ps IH]; intros c Hr; cbn [categorize_loop List.filter].
  - exists c. split; [reflexivity|]. intros b. now rewrite app_nil_r.
  - inversion Hr as [|? ? Hp Hps]; subst.
    destruct (categorize_step_bucket c p Hp) as (c1 & -> & H1). cbn [bind].
    destruct (IH c1 Hps) as (c' & -> & H'). exists c'.
    split; [reflexivity|]. intros b. rewrite H', H1, <- app_assoc.
    now destruct (in_bucket b p).
Qed.

Lemma categorize_loop_null ps : forall c,
  ~ Forall rated ps -> categorize_loop c ps = Raise AttributeError.
Proof.
  induction ps as [|p ps IH]; intros c Hn; [now destruct Hn|].
  cbn [categorize_loop]. destruct (rated_dec p) as [Hp|Hp].
  - destruct (categorize_step_bucket c p Hp) as (c1 & -> & _). cbn [bind].
    apply IH. intros H. apply Hn. now constructor.
  - now rewrite categorize_step_null.
Qed.

Lemma categorize_loop_returns ps : forall c c',
  categorize_loop c ps = Return c' -> Forall rated ps.
Proof.
  induction ps as [|p ps IH]; intros c c' E; [constructor|].
  cbn [categorize_loop] in E. destruct (rated_dec p) as [Hp|Hp].
  - constructor; [exact Hp|].
    destruct (categorize_step_bucket c p Hp) as (c1 & E1 & _).
    rewrite E1 in E. cbn [bind] in E. eauto.
  - now rewrite categorize_step_null in E.
Qed.

(** A run of [categorize_problems] that returns has read no [null]; its
    buckets hold what the priority order sends there. *)
Lemma categorized_bucket matched c :
  categorize_problems matched = Return c ->
  Forall rated matched
  /\ forall b, bucket_list c b = List.filter (in_bucket b) matched.
Proof.
  unfold categorize_problems. intros E.
  assert (Forall rated matched) as Hr by (eapply categorize_loop_returns; eauto).
  split; [exact Hr|].
  destruct (categorize_loop_bucket matched
              {| critical := []; important := []; related := [];
                 resolved := [] |} Hr) as (c' & E' & H).
  rewrite E in E'. injection E' as <-. intros b. rewrite H. now destruct b.
Qed.

Lemma partition_permutation (ps : list Problem) :
  Permutation ps
    (List.filter (in_bucket Critical) ps ++ List.filter (in_bucket Important) ps
       ++ List.filter (in_bucket Related) ps
       ++ List.filter (in_bucket Resolved) ps).
Proof.
  induction ps as [|p ps IH]; [apply perm_nil|].
  cbn [List.filter]. unfold in_bucket in *.
  destruct (bucket_of p); cbn [bucket_eqb app].
  - now apply perm_skip.
  - rewrite <- Permutation_middle. now apply perm_skip.
  - rewrite app_assoc, <- Permutation_middle, <- app_assoc.
    now apply perm_skip.
  - rewrite !app_assoc, <- Permutation_middle, <- !app_assoc.
    now apply perm_skip.
Qed.

(** C2, as the code has it.  On records whose status and severity are
    not [null], [categorize_problems] returns the four buckets critical,
    important, related, resolved; each holds, in input order, the records
    the priority order sends there, so that the buckets together are a
    rearrangement of the input and every record sits in one bucket only.
    A record whose status or severity is [null] makes it raise
    [AttributeError]. *)
Theorem categorize_problems_partition (ps : list Problem) :
  (Forall rated ps ->
   exists c,
     categorize_problems ps = Return c
     /\ critical c = List.filter (in_bucket Critical) ps
     /\ important c = List.filter (in_bucket Important) ps
     /\ related c = List.filter (in_bucket Related) ps
     /\ resolved c = List.filter (in_bucket Resolved) ps
     /\ Permutation ps (critical c ++ important c ++ related c ++ resolved c)
     /\ (forall p b b',
           In p (bucket_list c b) -> In p (bucket_list c b') -> b = b'))
  /\ (~ Forall rated ps -> categorize_problems ps = Raise AttributeError).
Proof.
  split; [|apply categorize_loop_null].
  intros Hr. unfold categorize_problems.
  destruct (categorize_loop_bucket ps
              {| critical := []; important := []; related := [];
                 resolved := [] |} Hr) as (c & E & H).
  exists c. split; [exact E|].
  pose proof (H Critical) as Hc. pose proof (H Important) as Hi.
  pose proof (H Related) as Hl. pose proof (H Resolved) as Hd.
  cbn [bucket_list app] in Hc, Hi, Hl, Hd.
  repeat split; try assumption.
  - rewrite Hc, Hi, Hl, Hd. apply partition_permutation.
  - intros p b b' Hb Hb'. rewrite H in Hb, Hb'.
    assert (forall x, In p (bucket_list
              {| critical := []; important := []; related := [];
                 resolved := [] |} x ++ List.filter (in_bucket x) ps)
            -> bucket_of p = x) as Hx.
    { intros x Hin. apply in_app_or in Hin as [Hin|Hin].
      - destruct x; destruct Hin.
      - apply filter_In in Hin as [_ Hin]. unfold in_bucket in Hin.
        destruct (bucket_of p), x; cbn in Hin; congruence. }
    rewrite <- (Hx _ Hb). now apply Hx.
Qed.

Lemma categorize_problems_partition_witness :
  exists c,
    categorize_problems [gateway_problem; resolved_root_problem] = Return c
    /\ resolved c = [resolved_root_problem].
Proof.
  destruct (proj1 (categorize_problems_partition
                     [gateway_problem; resolved_root_problem]))
    as (c & E & _ & _ & _ & Hr & _).
  - repeat constructor; discriminate.
  - exists c. split; [exact E|]. rewrite Hr. reflexivity.
Defined.

(** C2, as stated, fails: a list with a record that ends in no bucket. *)
Lemma categorize_null_status_raises :
  ~ rated statusless_problem
  /\ categorize_problems [open_root_problem; statusless_problem]
     = Raise AttributeError.
Proof.
  split; [|reflexivity]. intros [H _]. now apply H.
Qed.

End CategorizeFacts.

(** ** The matcher *)

Module ReFacts.
Import PyStr Re Spec.

Lemma lookup_group_app n news old :
  lookup_group n news <> None ->
  lookup_group n (news ++ old) = lookup_group n news.
Proof.
  induction news as [|[k w] news IH]; cbn; [congruence|].
  destruct (Nat.eqb k n); auto.
Qed.

Lemma lookup_group_app_none n news old :
  lookup_group n news = None ->
  lookup_group n (news ++ old) = lookup_group n old.
Proof.
  induction news as [|[k w] news IH]; cbn; [reflexivity|].
  destruct (Nat.eqb k n); [discriminate|auto].
Qed.

Lemma lookup_group_in n news w :
  lookup_group n news = Some w -> In (n, w) news.
Proof.
  induction news as [|[k v] news IH]; cbn; [discriminate|].
  destruct (Nat.eqb k n) eqn:E.
  - apply Nat.eqb_eq in E. intros [= ->]. subst. now left.
  - intros H. right. auto.
Qed.

Lemma iterate_sound r (step : mstate -> list mstate) :
  (forall st st', In st' (step st) -> exists w news, moves r st st' w news) ->
  forall fuel st st',
    In st' (iterate step fuel st) ->
    exists w news, moves (Star r) st st' w news.
Proof.
  intros Hstep fuel.
  assert (forall st, exists w news, moves (Star r) st st w news) as Hnil.
  { intros st. exists [], []. repeat split; cbn; try easy. constructor. }
  induction fuel as [|fuel IH]; intros st st' Hin; cbn [iterate] in Hin.
  - destruct Hin as [<-|[]]. apply Hnil.
  - apply in_app_or in Hin as [Hin|[<-|[]]]; [|apply Hnil].
    apply in_flat_map in Hin as (st1 & H1 & Hin).
    destruct (Nat.ltb _ _); [|destruct Hin].
    destruct (Hstep _ _ H1) as (w1 & n1 & Hr1 & Hs1 & Hl1 & Hg1 & Hb1 & _).
    destruct (IH _ _ Hin) as (w2 & n2 & Hr2 & Hs2 & Hl2 & Hg2 & Hb2 & _).
    exists (w1 ++ w2), (n2 ++ n1). repeat split.
    + now rewrite Hr1, Hr2, app_assoc.
    + now rewrite Hs2, Hs1, rev_app_distr, app_assoc.
    + now constructor.
    + now rewrite Hg2, Hg1, app_assoc.
    + intros n v Hv. apply in_app_or in Hv as [Hv|Hv]; cbn; auto.
    + cbn. discriminate.
Qed.

(** Soundness of the matcher. *)
Lemma run_sound r : forall st st',
  In st' (run r st) -> exists w news, moves r st st' w news.
Proof.
  induction r as [|p|r1 IH1 r2 IH2|r1 IH1 r2 IH2|r1 IH1|k r1 IH1| | |];
    intros st st' Hin; cbn [run] in Hin.
  - destruct Hin as [<-|[]]. exists [], [].
    repeat split; cbn; try easy. constructor.
  - destruct (rest st) as [|c rest'] eqn:Er; [destruct Hin|].
    destruct (p c) eqn:Ep; [|destruct Hin]. destruct Hin as [<-|[]].
    exists [c], []. repeat split; cbn; try easy. now constructor.
  - apply in_flat_map in Hin as (st1 & H1 & Hin).
    destruct (IH1 _ _ H1) as (w1 & n1 & Hr1 & Hs1 & Hl1 & Hg1 & Hb1 & Hd1).
    destruct (IH2 _ _ Hin) as (w2 & n2 & Hr2 & Hs2 & Hl2 & Hg2 & Hb2 & Hd2).
    exists (w1 ++ w2), (n2 ++ n1). repeat split.
    + now rewrite Hr1, Hr2, app_assoc.
    + now rewrite Hs2, Hs1, rev_app_distr, app_assoc.
    + now constructor.
    + now rewrite Hg2, Hg1, app_assoc.
    + intros n v Hv. cbn. apply in_app_or in Hv as [Hv|Hv].
      * destruct (Hb2 _ _ Hv) as (b & Hb & Hl). exists b. split; [|easy].
        apply in_or_app. now right.
      * destruct (Hb1 _ _ Hv) as (b & Hb & Hl). exists b. split; [|easy].
        apply in_or_app. now left.
    + intros n Hn. cbn in Hn. apply orb_true_iff in Hn.
      destruct (lookup_group n n2) eqn:E2.
      * rewrite lookup_group_app; congruence.
      * rewrite lookup_group_app_none by easy.
        destruct Hn as [Hn|Hn]; [now apply Hd1|]. now apply Hd2 in Hn.
  - apply in_app_or in Hin as [Hin|Hin].
    + destruct (IH1 _ _ Hin) as (w & n1 & Hr & Hs & Hl & Hg & Hb & Hd).
      exists w, n1. repeat split; try easy.
      * now apply lang_alt_l.
      * intros n v Hv. destruct (Hb _ _ Hv) as (b & Hb' & Hl').
        exists b. split; [|easy]. cbn. apply in_or_app. now left.
      * intros n Hn. cbn in Hn. apply andb_true_iff in Hn. now apply Hd.
    + destruct (IH2 _ _ Hin) as (w & n1 & Hr & Hs & Hl & Hg & Hb & Hd).
      exists w, n1. repeat split; try easy.
      * now apply lang_alt_r.
      * intros n v Hv. destruct (Hb _ _ Hv) as (b & Hb' & Hl').
        exists b. split; [|easy]. cbn. apply in_or_app. now right.
      * intros n Hn. cbn in Hn. apply andb_true_iff in Hn. now apply Hd.
  - eapply iterate_sound; eauto.
  - apply in_map_iff in Hin as (st1 & <- & Hin).
    destruct (IH1 _ _ Hin) as (w & n1 & Hr & Hs & Hl & Hg & Hb & Hd).
    exists w, ((k, w) :: n1). unfold capture; cbn [rest seen groups].
    repeat split; try easy.
    + now constructor.
    + rewrite Hg, Hr, length_app.
      replace (length w + length (rest st1) - length (rest st1))
        with (length w) by lia.
      now rewrite firstn_app, Nat.sub_diag, firstn_all, app_nil_r.
    + intros n v [[= <- <-]|Hv]; cbn.
      * exists r1. split; [now left|easy].
      * destruct (Hb _ _ Hv) as (b & Hb' & Hl'). exists b. split; [now right|easy].
    + intros n Hn. cbn in Hn |- *. destruct (Nat.eqb k n); [easy|].
      now apply Hd.
  - destruct (seen st); [|destruct Hin]. destruct Hin as [<-|[]].
    exists [], []. repeat split; cbn; try easy. constructor.
  - destruct (at_end st); [|destruct Hin]. destruct Hin as [<-|[]].
    exists [], []. repeat split; cbn; try easy. constructor.
  - destruct (at_boundary st); [|destruct Hin]. destruct Hin as [<-|[]].
    exists [], []. repeat split; cbn; try easy. constructor.
Qed.

(** A group that every way through the pattern closes holds, after a
    match, a word of one of its bodies. *)
Lemma run_group_lang r st st' n :
  In st' (run r st) -> groups st = [] -> sets n r = true ->
  exists v body,
    lookup_group n (groups st') = Some v
    /\ In (n, body) (group_bodies r) /\ lang body v.
Proof.
  intros Hin Hg0 Hn.
  destruct (run_sound _ _ _ Hin) as (w & news & _ & _ & _ & Hg & Hb & Hd).
  specialize (Hd _ Hn). rewrite Hg, Hg0, app_nil_r.
  destruct (lookup_group n news) as [v|] eqn:E; [|congruence].
  destruct (Hb _ _ (lookup_group_in _ _ _ E)) as (body & Hbody & Hl).
  now exists v, body.
Qed.

Lemma search_from_run r : forall ahead behind m,
  search_from r behind ahead = Some m ->
  exists behind' ahead', In m (run r (start behind' ahead')).
Proof.
  induction ahead as [|c ahead IH]; intros behind m H; cbn [search_from] in H.
  - destruct (run r (start behind [])) eqn:E; [discriminate|].
    injection H as <-. exists behind, []. rewrite E. now left.
  - destruct (run r (start behind (c :: ahead))) eqn:E.
    + eapply IH; eauto.
    + injection H as <-. exists behind, (c :: ahead). rewrite E. now left.
Qed.

Lemma re_search_group r text m n :
  re_search r text = Some m -> sets n r = true ->
  exists v body,
    group n m = string_of_list_ascii v
    /\ In (n, body) (group_bodies r) /\ lang body v.
Proof.
  intros H Hn. apply search_from_run in H as (b & a & Hin).
  destruct (run_group_lang _ _ _ n Hin eq_refl Hn) as (v & body & E & Hb & Hl).
  exists v, body. unfold group. now rewrite E.
Qed.

(** *** Words of the program's patterns *)

Lemma lang_class_inv p w :
  lang (Class p) w -> exists c, w = [c] /\ p c = true.
Proof. inversion 1; subst; eauto. Qed.

Lemma lang_star_class p w :
  lang (Star (Class p)) w -> forallb p w = true.
Proof.
  remember (Star (Class p)) as r eqn:Er. intros H.
  induction H; try discriminate; [reflexivity|].
  injection Er as ->. apply lang_class_inv in H as (c & -> & Hc).
  cbn. rewrite Hc. now apply IHlang2.
Qed.

Lemma lang_plus_class p w :
  lang (Plus (Class p)) w -> w <> [] /\ forallb p w = true.
Proof.
  unfold Plus. inversion 1; subst.
  match goal with H : lang (Class _) _ |- _ =>
    apply lang_class_inv in H as (c & -> & Hc) end.
  match goal with H : lang (Star _) _ |- _ => apply lang_star_class in H end.
  cbn. split; [discriminate|]. rewrite Hc. assumption.
Qed.

Lemma lang_lit s : forall w, lang (Lit s) w -> w = list_ascii_of_string s.
Proof.
  induction s as [|c s IH]; intros w H; cbn [Lit] in H.
  - now inversion H.
  - destruct s as [|c' s'].
    + apply lang_class_inv in H as (x & -> & Hx).
      apply Ascii.eqb_eq in Hx. now subst.
    + inversion H; subst.
      match goal with H : lang (Chr _) _ |- _ =>
        apply lang_class_inv in H as (x & -> & Hx) end.
      apply Ascii.eqb_eq in Hx. subst. cbn. f_equal. now apply IH.
Qed.

End ReFacts.

(** ** Timeframes *)

Module TimeframeFacts.
Import PyStr Re Py Timeframe Spec ReFacts.

Lemma firstn_consumed (w r : list ascii) :
  firstn (length (w ++ r) - length r) (w ++ r) = w.
Proof.
  rewrite length_app.
  replace (length w + length r - length r) with (length w) by lia.
  now rewrite firstn_app, Nat.sub_diag, firstn_all, app_nil_r.
Qed.

Lemma run_class_cons p c behind ahead g :
  p c = true ->
  run (Class p) {| seen := behind; rest := c :: ahead; groups := g |}
  = [{| seen := c :: behind; rest := ahead; groups := g |}].
Proof. intros H. cbn. now rewrite H. Qed.

Lemma run_class_stop p behind ahead g :
  stops p ahead ->
  run (Class p) {| seen := behind; rest := ahead; groups := g |} = [].
Proof. destruct ahead; cbn; [reflexivity|]. now intros ->. Qed.

Lemma run_seq r1 r2 st : run (Seq r1 r2) st = flat_map (run r2) (run r1 st).
Proof. reflexivity. Qed.

Lemma run_group n r st : run (Group n r) st = map (capture n st) (run r st).
Proof. reflexivity. Qed.

Lemma run_bol ahead g :
  run Bol {| seen := []; rest := ahead; groups := g |}
  = [{| seen := []; rest := ahead; groups := g |}].
Proof. reflexivity. Qed.

Lemma run_eol_at st : at_end st = true -> run Eol st = [st].
Proof. intros H. cbn. now rewrite H. Qed.

(** The first way through [p*] takes the whole run of [p]. *)
Lemma iterate_class_head p w : forall fuel behind ahead g,
  forallb p w = true -> stops p ahead -> length (w ++ ahead) <= fuel ->
  exists others,
    iterate (run (Class p)) fuel
      {| seen := behind; rest := w ++ ahead; groups := g |}
    = {| seen := rev w ++ behind; rest := ahead; groups := g |} :: others.
Proof.
  induction w as [|c w IH]; intros fuel behind ahead g Hw Hstop Hfuel.
  - cbn [app rev]. destruct fuel as [|fuel]; cbn [iterate]; [now exists []|].
    rewrite run_class_stop by assumption. now exists [].
  - cbn in Hw. apply andb_true_iff in Hw as [Hc Hw].
    destruct fuel as [|fuel]; [cbn in Hfuel; lia|].
    cbn [iterate app]. rewrite run_class_cons by assumption.
    cbn [flat_map rest length].
    replace (Nat.ltb (length (w ++ ahead)) (S (length (w ++ ahead)))) with true
      by (symmetry; apply Nat.ltb_lt; lia).
    destruct (IH fuel (c :: behind) ahead g Hw Hstop) as (others & ->).
    { cbn in Hfuel. lia. }
    cbn [rev]. rewrite <- (app_assoc (rev w)). cbn [app].
    now eexists.
Qed.

Lemma run_plus_class_head p c w behind ahead g :
  p c = true -> forallb p w = true -> stops p ahead ->
  exists others,
    run (Plus (Class p))
      {| seen := behind; rest := c :: w ++ ahead; groups := g |}
    = {| seen := rev (c :: w) ++ behind; rest := ahead; groups := g |}
        :: others.
Proof.
  intros Hc Hw Hstop. unfold Plus.
  change (run (Seq (Class p) (Star (Class p))) ?st)
    with (flat_map (run (Star (Class p))) (run (Class p) st)).
  rewrite run_class_cons by assumption. cbn [flat_map].
  change (run (Star (Class p)) ?st)
    with (iterate (run (Class p)) (length (rest st)) st).
  cbn [rest].
  destruct (iterate_class_head p w (length (w ++ ahead)) (c :: behind) ahead g
              Hw Hstop (le_n _)) as (others & ->).
  cbn [rev]. rewrite <- (app_assoc (rev w)). cbn [app]. now eexists.
Qed.

(** [all_chars] on a string is [forallb] on its characters. *)
Lemma all_chars_forallb p s :
  all_chars p s = forallb p (list_ascii_of_string s).
Proof. induction s as [|c s IH]; cbn; [reflexivity|]. now rewrite IH. Qed.

Lemma append_cons c (s t : string) : String c s +:+ t = String c (s +:+ t).
Proof. reflexivity. Qed.

Lemma append_empty_r (s : string) : s +:+ EmptyString = s.
Proof.
  induction s as [|c s IH]; [reflexivity|]. now rewrite append_cons, IH.
Qed.

Lemma list_ascii_of_append s t :
  list_ascii_of_string (s +:+ t)
  = list_ascii_of_string s ++ list_ascii_of_string t.
Proof.
  induction s as [|c s IH]; [reflexivity|].
  change (c :: list_ascii_of_string (s +:+ t)
          = c :: (list_ascii_of_string s ++ list_ascii_of_string t)).
  now rewrite IH.
Qed.

Lemma is_unit_not_digit u : is_unit u = true -> is_digit u = false.
Proof.
  unfold is_unit. cbn [existsb list_ascii_of_string].
  rewrite !orb_true_iff. rewrite !Ascii.eqb_eq.
  intros [->|[->|[->|[->|H]]]]; try reflexivity. discriminate.
Qed.

(** What [re.match] finds on digits, a unit letter and an ending. *)
Lemma re_match_timeframe ds u tail :
  ds <> EmptyString -> all_chars is_digit ds = true -> is_unit u = true ->
  ending (list_ascii_of_string tail) ->
  exists m,
    re_match timeframe_pattern (ds +:+ String u tail) = Some m
    /\ group 1 m = ds /\ group 2 m = String u EmptyString.
Proof.
  intros Hne Hds Hu Htail. unfold re_match.
  rewrite list_ascii_of_append. cbn [list_ascii_of_string].
  rewrite all_chars_forallb in Hds.
  destruct ds as [|c ds]; [easy|]. cbn [list_ascii_of_string] in *.
  cbn in Hds. apply andb_true_iff in Hds as [Hc Hds].
  set (w := list_ascii_of_string ds) in *.
  set (t := list_ascii_of_string tail) in *.
  unfold timeframe_pattern, start. cbn [SeqOf].
  rewrite run_seq, run_bol. cbn [flat_map]. rewrite app_nil_r.
  change ((c :: w) ++ u :: t) with (c :: w ++ u :: t).
  destruct (run_plus_class_head is_digit c w [] (u :: t) [] Hc Hds)
    as (others & E).
  { cbn. now apply is_unit_not_digit. }
  rewrite run_seq, run_group. unfold digit. rewrite E. cbn [map flat_map].
  rewrite run_seq, run_group. unfold capture at 2 3. cbn [seen rest groups].
  unfold one_of. rewrite run_class_cons by exact Hu.
  cbn [map flat_map]. unfold capture. cbn [seen rest groups].
  rewrite run_eol_at; cbn [rest].
  2:{ destruct Htail as [->| ->]; reflexivity. }
  cbn [app head].
  eexists. split; [reflexivity|].
  unfold group. cbn [groups lookup_group Nat.eqb default].
  unfold id. split.
  - change (c :: w ++ u :: t) with ((c :: w) ++ u :: t).
    rewrite firstn_consumed. cbn [string_of_list_ascii].
    unfold w. now rewrite string_of_list_ascii_of_string.
  - change (u :: t) with ([u] ++ t). now rewrite firstn_consumed.
Qed.

Lemma at_end_ending st : at_end st = true -> ending (rest st).
Proof.
  unfold at_end, ending. destruct (rest st) as [|c [|c' l]]; auto.
  - intros H. apply Ascii.eqb_eq in H. subst. now right.
  - discriminate.
Qed.

Lemma forallb_all_chars p w :
  forallb p w = true -> all_chars p (string_of_list_ascii w) = true.
Proof.
  intros H. now rewrite all_chars_forallb, list_ascii_of_string_of_list_ascii.
Qed.

Lemma string_of_list_app w1 w2 :
  string_of_list_ascii (w1 ++ w2)
  = string_of_list_ascii w1 +:+ string_of_list_ascii w2.
Proof.
  induction w1 as [|c w1 IH]; [reflexivity|].
  cbn [app string_of_list_ascii]. now rewrite append_cons, IH.
Qed.

Lemma lang_one_of s w :
  lang (one_of s) w ->
  exists c, w = [c] /\ existsb (Ascii.eqb c) (list_ascii_of_string s) = true.
Proof. apply lang_class_inv. Qed.

(** What a subject on which [re.match] succeeds looks like. *)
Lemma re_match_timeframe_inv t m :
  re_match timeframe_pattern t = Some m ->
  exists ds u tail,
    t = ds +:+ String u tail
    /\ ds <> EmptyString /\ all_chars is_digit ds = true /\ is_unit u = true
    /\ ending (list_ascii_of_string tail).
Proof.
  unfold re_match. intros H.
  assert (In m (run timeframe_pattern (start [] (list_ascii_of_string t))))
    as Hin.
  { destruct (run _ _); [discriminate|]. injection H as <-. now left. }
  clear H. unfold timeframe_pattern in Hin. cbn [SeqOf] in Hin.
  rewrite run_seq in Hin. apply in_flat_map in Hin as (st1 & H1 & Hin).
  unfold start in H1. rewrite run_bol in H1. destruct H1 as [<-|[]].
  rewrite run_seq in Hin. apply in_flat_map in Hin as (st2 & H2 & Hin).
  rewrite run_seq in Hin. apply in_flat_map in Hin as (st3 & H3 & Hin).
  apply run_sound in H2 as (w1 & n1 & Hr1 & _ & Hl1 & _).
  apply run_sound in H3 as (w2 & n2 & Hr2 & _ & Hl2 & _).
  cbn [run] in Hin. destruct (at_end st3) eqn:Hend; [|destruct Hin].
  destruct Hin as [<-|[]]. apply at_end_ending in Hend.
  inversion Hl1 as [| | | | | | |? ? ? Hd| | |]; subst.
  apply lang_plus_class in Hd as [Hne Hd].
  inversion Hl2 as [| | | | | | |? ? ? Hu| | |]; subst.
  apply lang_one_of in Hu as (u & -> & Hu).
  cbn [rest] in Hr1. rewrite Hr2 in Hr1.
  exists (string_of_list_ascii w1), u, (string_of_list_ascii (rest st3)).
  repeat split.
  - rewrite <- (string_of_list_ascii_of_string t), Hr1.
    now rewrite string_of_list_app.
  - destruct w1; [easy|discriminate].
  - now apply forallb_all_chars.
  - exact Hu.
  - now rewrite list_ascii_of_string_of_list_ascii.
Qed.

Lemma append_assoc (a b c : string) : (a +:+ b) +:+ c = a +:+ (b +:+ c).
Proof.
  induction a as [|x a IH]; [reflexivity|]. now rewrite !append_cons, IH.
Qed.

Lemma matches_timeframe_iff t :
  matches_timeframe t <->
  exists ds u tail,
    t = ds +:+ String u tail
    /\ ds <> EmptyString /\ all_chars is_digit ds = true /\ is_unit u = true
    /\ ending (list_ascii_of_string tail).
Proof.
  split.
  - intros (c & Hc & Ht). destruct Hc as [ds u Hne Hds Hu].
    destruct Ht as [->| ->].
    + exists ds, u, EmptyString. repeat split; auto. now left.
    + exists ds, u, (String newline EmptyString). rewrite append_assoc.
      repeat split; auto. now right.
  - intros (ds & u & tail & -> & Hne & Hds & Hu & Hend).
    exists (ds +:+ String u EmptyString). split; [now constructor|].
    rewrite append_assoc. cbn [String.append].
    rewrite <- (string_of_list_ascii_of_string tail).
    destruct Hend as [->| ->]; [now left|now right].
Qed.

Lemma lower_append s t : lower (s +:+ t) = lower s +:+ lower t.
Proof.
  induction s as [|c s IH]; [reflexivity|].
  rewrite append_cons. unfold lower in *. cbn [map_chars].
  now rewrite append_cons, IH.
Qed.

Lemma lower_digits ds : all_chars is_digit ds = true -> lower ds = ds.
Proof.
  induction ds as [|c ds IH]; [reflexivity|].
  cbn [all_chars]. intros H. apply andb_true_iff in H as [Hc Hds].
  unfold lower in *. cbn [map_chars]. rewrite (IH Hds). f_equal.
  unfold lower_char, is_upper. unfold is_digit in Hc.
  unfold in_range in *. apply andb_true_iff in Hc as [H1 H2].
  apply N.leb_le in H1, H2.
  destruct (N.leb 65 (N_of_ascii c)) eqn:E; [|reflexivity].
  apply N.leb_le in E. lia.
Qed.

Lemma digit_value_range c :
  is_digit c = true -> (0 <= digit_value c <= 9)%Z.
Proof.
  unfold is_digit, in_range, digit_value. intros H.
  apply andb_true_iff in H as [H1 H2]. apply N.leb_le in H1, H2. lia.
Qed.

Lemma int_acc_nonneg ds : forall acc,
  all_chars is_digit ds = true -> (0 <= acc)%Z -> (0 <= int_acc acc ds)%Z.
Proof.
  induction ds as [|c ds IH]; intros acc H Hacc; cbn; [assumption|].
  cbn in H. apply andb_true_iff in H as [Hc Hds].
  apply IH; [assumption|]. pose proof (digit_value_range c Hc). lia.
Qed.

Lemma decimal_nonneg ds : all_chars is_digit ds = true -> (0 <= decimal ds)%Z.
Proof. intros H. now apply int_acc_nonneg. Qed.

(** [int] converts exactly the strings within its limit. *)
Lemma int_convertible ds : convertible ds -> int ds = Return (decimal ds).
Proof.
  unfold convertible, int. intros H.
  destruct (Z.ltb_spec int_max_str_digits (Z.of_nat (String.length ds)));
    [lia|reflexivity].
Qed.

Lemma int_too_long ds : ~ convertible ds -> int ds = Raise ValueError.
Proof.
  unfold convertible, int. intros H.
  destruct (Z.ltb_spec int_max_str_digits (Z.of_nat (String.length ds)));
    [reflexivity|lia].
Qed.

Lemma convertible_dec ds : convertible ds \/ ~ convertible ds.
Proof. unfold convertible. lia. Qed.

Lemma length_iter_cons c n :
  String.length (N.iter n (String c) EmptyString) = N.to_nat n.
Proof.
  induction n as [|n IH] using N.peano_ind; [reflexivity|].
  rewrite N.iter_succ, N2Nat.inj_succ. cbn [String.length]. now rewrite IH.
Qed.

Lemma all_chars_iter_cons p c n :
  p c = true -> all_chars p (N.iter n (String c) EmptyString) = true.
Proof.
  intros Hc. induction n as [|n IH] using N.peano_ind; [reflexivity|].
  rewrite N.iter_succ. cbn [all_chars]. now rewrite Hc, IH.
Qed.

Lemma long_digits_facts :
  long_digits <> EmptyString /\ all_chars is_digit long_digits = true
  /\ ~ convertible long_digits.
Proof.
  unfold long_digits. split; [|split].
  - change 4301%N with (N.succ 4300). rewrite N.iter_succ. discriminate.
  - now apply all_chars_iter_cons.
  - unfold convertible. rewrite length_iter_cons. vm_compute. tauto.
Qed.

(** The unit letters, one by one. *)
Lemma is_unit_cases u :
  is_unit u = true -> u = "m"%char \/ u = "h"%char \/ u = "d"%char \/ u = "w"%char.
Proof.
  unfold is_unit. cbn [existsb list_ascii_of_string].
  rewrite !orb_true_iff, !Ascii.eqb_eq. intuition discriminate.
Qed.

Lemma unit_mapping_seconds u :
  is_unit u = true ->
  exists kw,
    unit_mapping (String u EmptyString) = Return kw
    /\ kw_seconds kw = unit_seconds u.
Proof.
  intros H. destruct (is_unit_cases u H) as [-> | [-> | [-> | ->]]];
    eexists; split; reflexivity.
Qed.

Lemma unit_names_word u n :
  is_unit u = true ->
  unit_names n (String u EmptyString) = Return (unit_word_for u n).
Proof.
  intros H. unfold unit_word_for.
  destruct (is_unit_cases u H) as [-> | [-> | [-> | ->]]];
    cbn; destruct (n =? 1)%Z; reflexivity.
Qed.

(** [human_readable_timeframe] on a string whose lower case is digits, a
    unit letter and an ending. *)
Lemma human_readable_matched s ds u tail :
  lower s = ds +:+ String u tail ->
  ds <> EmptyString -> all_chars is_digit ds = true -> is_unit u = true ->
  ending (list_ascii_of_string tail) ->
  human_readable_timeframe s
  = (value <- int ds ;;
     Return ("Last " +:+ str value +:+ " " +:+ unit_word_for u value)).
Proof.
  intros E Hne Hds Hu Hend. unfold human_readable_timeframe. rewrite E.
  destruct (re_match_timeframe ds u tail Hne Hds Hu Hend)
    as (m & -> & -> & ->).
  destruct (int ds) as [value|e]; cbn [bind]; [|reflexivity].
  now rewrite unit_names_word.
Qed.

Lemma lower_canonical ds u :
  all_chars is_digit ds = true ->
  lower (ds +:+ String u EmptyString)
  = ds +:+ String (lower_char u) EmptyString.
Proof.
  intros Hds. now rewrite lower_append, (lower_digits ds Hds).
Qed.

(** C7, as the code has it.  On digits followed by a unit letter of
    either case, [human_readable_timeframe] returns [Last N word], where
    [N] is the number the digits denote and [word] is the unit word,
    singular when [N] is one and plural otherwise, provided the digits are
    within the limit of [int], 4300 by default; on more digits it raises
    [ValueError].  So [1w] reads [Last 1 week] and [3h] reads
    [Last 3 hours]. *)
Theorem human_readable_timeframe_canonical ds u :
  ds <> EmptyString -> all_chars is_digit ds = true ->
  is_unit (lower_char u) = true ->
  (convertible ds ->
   human_readable_timeframe (ds +:+ String u EmptyString)
   = Return ("Last " +:+ str (decimal ds) +:+ " "
             +:+ unit_word_for (lower_char u) (decimal ds)))
  /\ (~ convertible ds ->
      human_readable_timeframe (ds +:+ String u EmptyString)
      = Raise ValueError)
  /\ unit_word_for (lower_char u) 1 = unit_base (lower_char u)
  /\ (forall n, n <> 1%Z ->
        unit_word_for (lower_char u) n = unit_base (lower_char u) +:+ "s")
  /\ human_readable_timeframe "1w" = Return "Last 1 week"
  /\ human_readable_timeframe "3h" = Return "Last 3 hours".
Proof.
  intros Hne Hds Hu.
  pose proof (human_readable_matched (ds +:+ String u EmptyString) ds
                (lower_char u) EmptyString (lower_canonical ds u Hds)
                Hne Hds Hu (or_introl eq_refl)) as H.
  split; [|split; [|split; [|split; [|split; reflexivity]]]].
  - intros Hc. now rewrite H, int_convertible.
  - intros Hc. now rewrite H, int_too_long.
  - unfold unit_word_for. cbn [Z.eqb Pos.eqb]. apply append_empty_r.
  - intros n Hn. unfold unit_word_for.
    destruct (n =? 1)%Z eqn:E; [|reflexivity]. apply Z.eqb_eq in E. easy.
Qed.

Lemma human_readable_timeframe_canonical_witness :
  human_readable_timeframe "45M" = Return "Last 45 minutes".
Proof.
  exact (proj1 (human_readable_timeframe_canonical "45" "M"%char
                  ltac:(discriminate) eq_refl eq_refl)
           ltac:(vm_compute; discriminate)).
Defined.

(** C7, as stated, fails: a string of the grammar that is not rendered. *)
Lemma human_readable_timeframe_too_long :
  canonical (long_digits +:+ "m")
  /\ human_readable_timeframe (long_digits +:+ "m") = Raise ValueError.
Proof.
  destruct long_digits_facts as (Hne & Hds & Hlong). split.
  - now constructor.
  - rewrite (human_readable_matched _ long_digits "m" EmptyString
               (lower_canonical long_digits "m" Hds) Hne Hds eq_refl
               (or_introl eq_refl)).
    now rewrite int_too_long.
Qed.

Lemma unit_seconds_pos u : (60 <= unit_seconds u)%Z.
Proof.
  unfold unit_seconds. repeat (destruct (Ascii.eqb u _)); lia.
Qed.

(** What the part of [parse_timeframe] after the conversion does with the
    number [n] of units [u], at a valid instant. *)
Lemma delta_outcome now u n :
  (0 <= now <= datetime_max)%Z -> is_unit u = true -> (0 <= n)%Z ->
  (kw <- unit_mapping (String u EmptyString) ;;
   delta <- timedelta kw n ;;
   from_time <- datetime_sub now delta ;;
   Return (from_time, now))
  = if (span_us u n <=? now)%Z then Return ((now - span_us u n)%Z, now)
    else Raise OverflowError.
Proof.
  intros Hnow Hu Hn.
  destruct (unit_mapping_seconds _ Hu) as (kw & -> & Hkw). cbn [bind].
  unfold timedelta. rewrite Hkw. fold (span_us u n).
  set (span := span_us u n).
  assert (0 <= span)%Z as Hspan.
  { unfold span, span_us. pose proof (unit_seconds_pos u). nia. }
  assert (0 < day_us)%Z as Hday by reflexivity.
  assert (0 <= span / day_us)%Z as Hq by (apply Z.div_pos; lia).
  rewrite Z.abs_eq by assumption.
  destruct (span <=? now)%Z eqn:Ele.
  - apply Z.leb_le in Ele.
    assert (span / day_us <= max_delta_days)%Z as Hd.
    { transitivity (datetime_max / day_us)%Z.
      - apply Z.div_le_mono; lia.
      - now vm_compute. }
    replace (span / day_us >? max_delta_days)%Z with false
      by (symmetry; rewrite Z.gtb_ltb; apply Z.ltb_ge; lia).
    cbn [bind]. unfold datetime_sub.
    replace ((0 <=? now - span) && (now - span <=? datetime_max))%Z
      with true; [reflexivity|].
    symmetry. apply andb_true_iff. split; apply Z.leb_le; lia.
  - apply Z.leb_gt in Ele.
    destruct (span / day_us >? max_delta_days)%Z; cbn [bind]; [reflexivity|].
    unfold datetime_sub.
    replace (0 <=? now - span)%Z with false
      by (symmetry; apply Z.leb_gt; lia).
    reflexivity.
Qed.

(** [parse_timeframe] on a string whose lower case is digits, a unit
    letter and an ending. *)
Lemma parse_timeframe_matched now s ds u tail :
  lower s = ds +:+ String u tail ->
  ds <> EmptyString -> all_chars is_digit ds = true -> is_unit u = true ->
  ending (list_ascii_of_string tail) ->
  parse_timeframe now s
  = (value <- int ds ;;
     kw <- unit_mapping (String u EmptyString) ;;
     delta <- timedelta kw value ;;
     from_time <- datetime_sub now delta ;;
     Return (from_time, now)).
Proof.
  intros E Hne Hds Hu Hend. unfold parse_timeframe. rewrite E.
  now destruct (re_match_timeframe ds u tail Hne Hds Hu Hend)
    as (m & -> & -> & ->).
Qed.

(** [parse_timeframe] on digits and a unit letter, at a valid instant. *)
Lemma parse_timeframe_canonical now ds u :
  (0 <= now <= datetime_max)%Z ->
  ds <> EmptyString -> all_chars is_digit ds = true ->
  is_unit (lower_char u) = true ->
  let span := span_us (lower_char u) (decimal ds) in
  parse_timeframe now (ds +:+ String u EmptyString)
  = if (int_max_str_digits <? Z.of_nat (String.length ds))%Z
    then Raise ValueError
    else if (span <=? now)%Z then Return ((now - span)%Z, now)
    else Raise OverflowError.
Proof.
  intros Hnow Hne Hds Hu span.
  rewrite (parse_timeframe_matched now _ ds (lower_char u) EmptyString
             (lower_canonical ds u Hds) Hne Hds Hu (or_introl eq_refl)).
  unfold int.
  destruct (int_max_str_digits <? Z.of_nat (String.length ds))%Z;
    [reflexivity|].
  cbn [bind]. apply delta_outcome; auto. now apply decimal_nonneg.
Qed.

Lemma leading_digits_app ds c tail :
  all_chars is_digit ds = true -> is_digit c = false ->
  leading_digits (ds +:+ String c tail) = ds.
Proof.
  intros Hds Hc. induction ds as [|d ds IH].
  - change (EmptyString +:+ String c tail) with (String c tail).
    cbn [leading_digits]. now rewrite Hc.
  - cbn in Hds. apply andb_true_iff in Hds as [Hd Hds].
    rewrite append_cons. cbn [leading_digits]. now rewrite Hd, IH.
Qed.

(** When [parse_timeframe] raises [ValueError]: on a string that does not
    match, and on one whose digits [int] does not convert. *)
Lemma parse_timeframe_value_error now s :
  parse_timeframe now s = Raise ValueError
  <-> ~ matches_timeframe (lower s)
      \/ ~ convertible (leading_digits (lower s)).
Proof.
  destruct (re_match timeframe_pattern (lower s)) as [m|] eqn:E.
  - destruct (re_match_timeframe_inv _ _ E)
      as (ds & u & tail & Hs & Hne & Hds & Hu & Hend).
    assert (matches_timeframe (lower s)) as Hm.
    { apply matches_timeframe_iff. now exists ds, u, tail. }
    rewrite (parse_timeframe_matched now s ds u tail Hs Hne Hds Hu Hend).
    rewrite Hs in Hm |- *.
    rewrite (leading_digits_app ds u tail Hds (is_unit_not_digit u Hu)).
    destruct (convertible_dec ds) as [Hc|Hc].
    + rewrite (int_convertible ds Hc). cbn [bind]. split; [|tauto].
      intros H. exfalso. revert H.
      destruct (unit_mapping_seconds _ Hu) as (kw & -> & _). cbn [bind].
      unfold timedelta. destruct (_ >? _)%Z; cbn [bind]; [discriminate|].
      unfold datetime_sub. destruct (_ && _)%bool; cbn [bind]; discriminate.
    + rewrite (int_too_long ds Hc). cbn [bind]. tauto.
  - unfold parse_timeframe. rewrite E. split; [|reflexivity].
    intros _. left. rewrite matches_timeframe_iff.
    intros (ds & u & tail & Hs & Hne & Hds & Hu & Hend).
    rewrite Hs in E.
    destruct (re_match_timeframe ds u tail Hne Hds Hu Hend) as (m & Hm & _).
    congruence.
Qed.

(** C9, as the code has it, on ASCII text.  [parse_timeframe] raises
    [ValueError] exactly when the lower-cased string does not match the
    timeframe pattern in [re.match]'s reading, which lets one final
    newline pass, or has more digits than [int] converts.  On digits [N]
    within that limit and a unit letter, at a valid instant [now], it
    returns the pair of [now] minus [N] units and [now] when that first
    instant is not before the least [datetime], and raises
    [OverflowError] otherwise. *)
Theorem parse_timeframe_result now s :
  ascii_text s ->
  (parse_timeframe now s = Raise ValueError
   <-> ~ matches_timeframe (lower s)
       \/ ~ convertible (leading_digits (lower s)))
  /\ (forall ds u,
        (0 <= now <= datetime_max)%Z ->
        s = ds +:+ String u EmptyString ->
        ds <> EmptyString -> all_chars is_digit ds = true ->
        is_unit (lower_char u) = true ->
        convertible ds ->
        let span := (decimal ds * unit_seconds (lower_char u) * 1000000)%Z in
        ((span <= now)%Z ->
         parse_timeframe now s = Return ((now - span)%Z, now))
        /\ ((now < span)%Z -> parse_timeframe now s = Raise OverflowError)).
Proof.
  intros _. split; [apply parse_timeframe_value_error|].
  intros ds u Hnow -> Hne Hds Hu Hc span.
  pose proof (parse_timeframe_canonical now ds u Hnow Hne Hds Hu) as H.
  cbv zeta in H. unfold span_us in H. fold span in H.
  replace (int_max_str_digits <? Z.of_nat (String.length ds))%Z with false
    in H by (symmetry; apply Z.ltb_ge; exact Hc).
  split; intros Hs.
  - rewrite H. apply Z.leb_le in Hs. now rewrite Hs.
  - rewrite H. apply Z.leb_gt in Hs. now rewrite Hs.
Qed.

Lemma parse_timeframe_result_witness :
  parse_timeframe an_instant "30M"
  = Return ((an_instant - 30 * 60 * 1000000)%Z, an_instant).
Proof.
  exact (proj1 (proj2 (parse_timeframe_result an_instant "30M" eq_refl)
                  "30" "M"%char
                  ltac:(vm_compute; split; discriminate) eq_refl
                  ltac:(discriminate) eq_refl eq_refl
                  ltac:(vm_compute; discriminate))
           ltac:(vm_compute; discriminate)).
Defined.

(** C9, as stated, fails: timeframes of the grammar on which no pair is
    returned. *)
Lemma parse_timeframe_overflow :
  canonical (lower "1000000000d")
  /\ parse_timeframe an_instant "1000000000d" = Raise OverflowError
  /\ canonical (lower "999999d")
  /\ parse_timeframe an_instant "999999d" = Raise OverflowError.
Proof.
  repeat split.
  - exact (canonical_intro "1000000000" "d" ltac:(discriminate) eq_refl eq_refl).
  - exact (canonical_intro "999999" "d" ltac:(discriminate) eq_refl eq_refl).
Qed.

End TimeframeFacts.

(** ** The fallback tier *)

Module FallbackFacts.
Import PyStr Re Py Timeframe IntentParser Spec ReFacts TimeframeFacts.

Lemma lang_unit_word v :
  lang unit_word v ->
  v = list_ascii_of_string "minute" \/ v = list_ascii_of_string "hour"
  \/ v = list_ascii_of_string "day" \/ v = list_ascii_of_string "week".
Proof.
  unfold unit_word. cbn [AltOf]. intros H.
  inversion H as [| | |? ? ? H1|? ? ? H1| | | | | |]; subst;
    [left; now apply lang_lit|right].
  inversion H1 as [| | |? ? ? H2|? ? ? H2| | | | | |]; subst;
    [left; now apply lang_lit|right].
  inversion H2 as [| | |? ? ? H3|? ? ? H3| | | | | |]; subst;
    [left|right]; now apply lang_lit.
Qed.

Lemma digits_group v :
  lang (Plus digit) v ->
  string_of_list_ascii v <> EmptyString
  /\ all_chars is_digit (string_of_list_ascii v) = true.
Proof.
  intros H. apply lang_plus_class in H as [Hne Hd]. split.
  - destruct v; [easy|discriminate].
  - now apply forallb_all_chars.
Qed.

(** The first pattern gives digits and a unit letter. *)
Lemma timeframe_pattern_1_groups text m :
  re_search timeframe_pattern_1 text = Some m ->
  exists ds u,
    group 1 m = ds /\ group 2 m = String u EmptyString
    /\ ds <> EmptyString /\ all_chars is_digit ds = true /\ is_unit u = true.
Proof.
  intros H.
  destruct (re_search_group _ _ _ 1 H eq_refl) as (v1 & b1 & E1 & Hb1 & Hl1).
  destruct (re_search_group _ _ _ 2 H eq_refl) as (v2 & b2 & E2 & Hb2 & Hl2).
  cbn in Hb1, Hb2.
  destruct Hb1 as [[= <-]|[[=]|[]]]. destruct Hb2 as [[=]|[[= <-]|[]]].
  apply digits_group in Hl1 as [Hne Hd].
  apply lang_one_of in Hl2 as (u & -> & Hu).
  exists (string_of_list_ascii v1), u. now rewrite E1, E2.
Qed.

(** The second and the third give digits and a unit word. *)
Lemma timeframe_words_groups r text m :
  r = timeframe_pattern_2 \/ r = timeframe_pattern_3 ->
  re_search r text = Some m ->
  exists ds u rest,
    group 1 m = ds /\ group 2 m = String u rest
    /\ ds <> EmptyString /\ all_chars is_digit ds = true /\ is_unit u = true.
Proof.
  intros Hr H.
  assert (exists v1 v2,
            group 1 m = string_of_list_ascii v1
            /\ group 2 m = string_of_list_ascii v2
            /\ lang (Plus digit) v1 /\ lang unit_word v2)
    as (v1 & v2 & E1 & E2 & Hl1 & Hl2).
  { destruct Hr as [-> | ->].
    - destruct (re_search_group _ _ _ 1 H eq_refl)
        as (v1 & b1 & E1 & Hb1 & Hl1).
      destruct (re_search_group _ _ _ 2 H eq_refl)
        as (v2 & b2 & E2 & Hb2 & Hl2).
      cbn in Hb1, Hb2.
      destruct Hb1 as [[= <-]|[[=]|[]]]. destruct Hb2 as [[=]|[[= <-]|[]]].
      now exists v1, v2.
    - destruct (re_search_group _ _ _ 1 H eq_refl)
        as (v1 & b1 & E1 & Hb1 & Hl1).
      destruct (re_search_group _ _ _ 2 H eq_refl)
        as (v2 & b2 & E2 & Hb2 & Hl2).
      cbn in Hb1, Hb2.
      destruct Hb1 as [[= <-]|[[=]|[]]]. destruct Hb2 as [[=]|[[= <-]|[]]].
      now exists v1, v2. }
  apply digits_group in Hl1 as [Hne Hd].
  rewrite E1, E2.
  destruct (lang_unit_word _ Hl2) as [-> | [-> | [-> | ->]]];
    eexists _, _, _; repeat split; eauto.
Qed.

Lemma first_search_in patterns text m :
  first_search patterns text = Some m ->
  exists r, In r patterns /\ re_search r text = Some m.
Proof.
  induction patterns as [|r patterns IH]; cbn; [discriminate|].
  destruct (re_search r text) as [m'|] eqn:E.
  - intros [= <-]. exists r. split; [now left|assumption].
  - intros H. destruct (IH H) as (r' & Hin & Hr'). exists r'. split;
      [now right|assumption].
Qed.

Lemma keyword_timeframe_values table text :
  In (keyword_timeframe table text) ("2h" :: map snd table).
Proof.
  induction table as [|[keyword timeframe] table IH]; cbn; [now left|].
  destruct (str_in keyword text); [right; now left|].
  destruct IH as [IH|IH]; [now left|right; now right].
Qed.

(** Every way out of [_extract_timeframe_flexible] returns digits followed
    by one unit letter. *)
Lemma extract_timeframe_shape text :
  exists ds u,
    _extract_timeframe_flexible text = Return (ds +:+ String u EmptyString)
    /\ ds <> EmptyString /\ all_chars is_digit ds = true /\ is_unit u = true.
Proof.
  unfold _extract_timeframe_flexible.
  destruct (re_search timeframe_pattern_1 text) as [m|] eqn:E1.
  { destruct (timeframe_pattern_1_groups _ _ E1)
      as (ds & u & -> & -> & Hne & Hd & Hu).
    now exists ds, u. }
  destruct (first_search _ text) as [m|] eqn:E2.
  { apply first_search_in in E2 as (r & Hr & E2).
    assert (r = timeframe_pattern_2 \/ r = timeframe_pattern_3) as Hr'.
    { destruct Hr as [<-|[<-|[]]]; auto. }
    destruct (timeframe_words_groups _ _ _ Hr' E2)
      as (ds & u & rest & -> & -> & Hne & Hd & Hu).
    cbn [first_letter bind]. now exists ds, u. }
  pose proof (keyword_timeframe_values time_keywords text) as H.
  cbn [map snd time_keywords] in H.
  destruct H as [<-|[<-|[<-|[<-|[<-|[<-|[<-|[]]]]]]]].
  - now exists "2", "h"%char.
  - now exists "24", "h"%char.
  - now exists "48", "h"%char.
  - now exists "7", "d"%char.
  - now exists "30", "d"%char.
  - now exists "2", "h"%char.
  - now exists "2", "h"%char.
Qed.

Lemma split_unit_append ds u :
  split_unit (ds +:+ String u EmptyString) = Some (ds, u).
Proof.
  induction ds as [|c ds IH]; [reflexivity|].
  rewrite append_cons. cbn [split_unit]. rewrite IH.
  destruct ds; reflexivity.
Qed.

Lemma keyword_timeframe_default table text :
  Forall (fun entry => str_in (fst entry) text = false) table ->
  keyword_timeframe table text = "2h".
Proof.
  induction 1 as [|[keyword timeframe] table Hk _ IH]; [reflexivity|].
  cbn [keyword_timeframe]. cbn [fst] in Hk. now rewrite Hk.
Qed.

(** C10, as the code has it, on ASCII text.  The extraction cascade
    returns a timeframe of the grammar: digits followed by one unit letter
    ([2 h] gives [2h]; the keyword map holds [24h], [48h], [7d], [30d],
    [2h]; where no pattern matches and no keyword occurs the result is
    [2h]).  When the digits are within the limit of [int],
    [parse_timeframe] does not raise its format error on it, and returns
    the pair whenever the span does not reach before the least
    [datetime]; on more digits it raises [ValueError]. *)
Theorem extract_timeframe_canonical text :
  ascii_text text ->
  (exists ds u,
     _extract_timeframe_flexible text = Return (ds +:+ String u EmptyString)
     /\ canonical (ds +:+ String u EmptyString)
     /\ (forall now,
           convertible ds ->
           parse_timeframe now (ds +:+ String u EmptyString)
           <> Raise ValueError
           /\ ((0 <= now <= datetime_max)%Z ->
               (span_of (ds +:+ String u EmptyString) <= now)%Z ->
               parse_timeframe now (ds +:+ String u EmptyString)
               = Return ((now - span_of (ds +:+ String u EmptyString))%Z,
                         now)))
     /\ (forall now,
           ~ convertible ds ->
           parse_timeframe now (ds +:+ String u EmptyString)
           = Raise ValueError))
  /\ _extract_timeframe_flexible "2 h" = Return "2h"
  /\ Forall (fun entry => canonical (snd entry)) time_keywords
  /\ (re_search timeframe_pattern_1 text = None ->
      first_search [timeframe_pattern_2; timeframe_pattern_3] text = None ->
      Forall (fun entry => str_in (fst entry) text = false) time_keywords ->
      _extract_timeframe_flexible text = Return "2h").
Proof.
  intros _.
  destruct (extract_timeframe_shape text) as (ds & u & E & Hne & Hd & Hu).
  assert (lower_char u = u) as Hlow.
  { destruct (is_unit_cases u Hu) as [-> | [-> | [-> | ->]]]; reflexivity. }
  assert (lower (ds +:+ String u EmptyString) = ds +:+ String u EmptyString)
    as Hl by (now rewrite lower_canonical, Hlow).
  assert (matches_timeframe (lower (ds +:+ String u EmptyString))) as Hm.
  { rewrite Hl. exists (ds +:+ String u EmptyString).
    split; [now constructor|now left]. }
  assert (leading_digits (lower (ds +:+ String u EmptyString)) = ds) as Hld.
  { rewrite Hl. apply leading_digits_app; [assumption|].
    now apply is_unit_not_digit. }
  split; [|split; [reflexivity|split]].
  - exists ds, u. split; [exact E|]. split; [now constructor|]. split.
    + intros now Hc. split.
      * intros H. apply parse_timeframe_value_error in H.
        rewrite Hld in H. tauto.
      * intros Hnow Hspan. unfold span_of in *.
        rewrite split_unit_append in *.
        pose proof (parse_timeframe_canonical now ds u Hnow Hne Hd) as H.
        rewrite Hlow in H. cbv zeta in H. rewrite (H Hu).
        replace (int_max_str_digits <? Z.of_nat (String.length ds))%Z
          with false by (symmetry; apply Z.ltb_ge; exact Hc).
        apply Z.leb_le in Hspan. now rewrite Hspan.
    + intros now Hc. apply parse_timeframe_value_error. right.
      now rewrite Hld.
  - repeat constructor.
    + exact (canonical_intro "24" "h" ltac:(discriminate) eq_refl eq_refl).
    + exact (canonical_intro "48" "h" ltac:(discriminate) eq_refl eq_refl).
    + exact (canonical_intro "7" "d" ltac:(discriminate) eq_refl eq_refl).
    + exact (canonical_intro "30" "d" ltac:(discriminate) eq_refl eq_refl).
    + exact (canonical_intro "2" "h" ltac:(discriminate) eq_refl eq_refl).
    + exact (canonical_intro "2" "h" ltac:(discriminate) eq_refl eq_refl).
  - intros H1 H2 Hk. unfold _extract_timeframe_flexible.
    now rewrite H1, H2, keyword_timeframe_default.
Qed.

Lemma extract_timeframe_canonical_witness :
  _extract_timeframe_flexible "check payment-api" = Return "2h".
Proof.
  apply (extract_timeframe_canonical "check payment-api" eq_refl);
    vm_compute; try reflexivity.
  repeat constructor.
Defined.

(** C10, as stated, fails: timeframes the fallback tier produces, on
    which [parse_timeframe] fails. *)
Lemma extracted_timeframe_overflow :
  _extract_timeframe_flexible "check payment-api for the last 1000000000 days"
  = Return "1000000000d"
  /\ parse_timeframe an_instant "1000000000d" = Raise OverflowError.
Proof. split; reflexivity. Qed.

(** *** Category scoring *)

Lemma prefix_occurs s : forall t,
  String.prefix s t = true <-> exists post, t = s +:+ post.
Proof.
  induction s as [|a s IH]; intros t.
  - destruct t; cbn; split; eauto.
  - destruct t as [|b t]; cbn [String.prefix].
    + split; [discriminate|]. intros (post & H). discriminate.
    + destruct (ascii_dec a b) as [->|Hne].
      * rewrite IH. split; intros (post & H); exists post.
        -- now rewrite append_cons, <- H.
        -- rewrite append_cons in H. now injection H.
      * split; [discriminate|]. intros (post & H).
        rewrite append_cons in H. injection H as H _. congruence.
Qed.

(** [str_in] decides whether the needle occurs. *)
Lemma str_in_occurs s : forall t, str_in s t = true <-> occurs s t.
Proof.
  unfold occurs. induction t as [|c t IH]; cbn [str_in].
  - destruct (String.prefix s EmptyString) eqn:E.
    + split; [|easy]. intros _. apply prefix_occurs in E as (post & E).
      now exists EmptyString, post.
    + split; [discriminate|]. intros (pre & post & H).
      destruct pre; [|discriminate].
      assert (String.prefix s EmptyString = true) by
        (apply prefix_occurs; now exists post).
      congruence.
  - destruct (String.prefix s (String c t)) eqn:E.
    + split; [|easy]. intros _. apply prefix_occurs in E as (post & E).
      now exists EmptyString, post.
    + rewrite IH. split.
      * intros (pre & post & ->). now exists (String c pre), post.
      * intros (pre & post & H). destruct pre as [|c' pre].
        -- assert (String.prefix s (String c t) = true) by
             (apply prefix_occurs; now exists post).
           congruence.
        -- rewrite append_cons in H. injection H as _ ->. now exists pre, post.
Qed.

Lemma max_from_first_max scores : forall best,
  exists e, first_max (best :: scores) e /\ max_from best scores = fst e.
Proof.
  induction scores as [|x scores IH]; intros best; cbn [max_from].
  - exists best. split; [|reflexivity]. now exists [], [].
  - destruct (Nat.ltb (snd best) (snd x)) eqn:E.
    + apply Nat.ltb_lt in E.
      destruct (IH x) as (e & (l1 & l2 & Hl & H1 & H2) & He).
      exists e. split; [|assumption].
      exists (best :: l1), l2. cbn. rewrite Hl. repeat split; [|assumption].
      constructor; [|assumption].
      destruct l1 as [|y l1]; cbn in Hl; injection Hl as -> Hl; [assumption|].
      inversion H1; subst. lia.
    + apply Nat.ltb_ge in E.
      destruct (IH best) as (e & (l1 & l2 & Hl & H1 & H2) & He).
      exists e. split; [|assumption].
      destruct l1 as [|y l1]; cbn in Hl; injection Hl as -> Hl.
      * exists [], (x :: l2). subst. repeat split; auto.
      * exists (y :: x :: l1), l2. subst. inversion H1; subst.
        repeat split; auto. constructor; [assumption|]. constructor; [lia|].
        assumption.
Qed.

Lemma filter_split {A} (f : A -> bool) (t : list A) : forall l1 e l2,
  List.filter f t = l1 ++ e :: l2 ->
  exists t1 t2,
    t = t1 ++ e :: t2 /\ List.filter f t1 = l1 /\ List.filter f t2 = l2.
Proof.
  induction t as [|x t IH]; intros l1 e l2 H; cbn [List.filter] in H.
  - destruct l1; discriminate.
  - destruct (f x) eqn:E.
    + destruct l1 as [|y l1]; cbn in H; injection H as -> H.
      * now exists [], t.
      * destruct (IH _ _ _ H) as (t1 & t2 & -> & <- & <-).
        exists (y :: t1), t2. cbn [List.filter]. rewrite E. now repeat split.
    + destruct (IH _ _ _ H) as (t1 & t2 & -> & <- & <-).
      exists (x :: t1), t2. cbn [List.filter]. rewrite E. now repeat split.
Qed.

Lemma Forall_unfilter {A} (f : A -> bool) (P : A -> Prop) (t : list A) :
  Forall P (List.filter f t) -> (forall x, f x = false -> P x) -> Forall P t.
Proof.
  intros H Hf. induction t as [|x t IH]; [constructor|].
  cbn [List.filter] in H. destruct (f x) eqn:E.
  - inversion H; subst. constructor; auto.
  - constructor; auto.
Qed.

(** Choosing among the positive scores chooses the first greatest score
    of the whole table. *)
Lemma positive_first_max (table : list (string * nat)) e :
  first_max (List.filter (fun entry => Nat.ltb 0 (snd entry)) table) e ->
  first_max table e.
Proof.
  intros (l1 & l2 & Hl & H1 & H2).
  assert (0 < snd e) as Hpos.
  { assert (In e (List.filter (fun entry => Nat.ltb 0 (snd entry)) table))
      as Hin by (rewrite Hl; apply in_or_app; right; now left).
    apply filter_In in Hin as [_ Hin]. now apply Nat.ltb_lt in Hin. }
  destruct (filter_split _ _ _ _ _ Hl) as (t1 & t2 & -> & <- & <-).
  exists t1, t2. repeat split.
  - eapply Forall_unfilter; [exact H1|].
    intros x Hx. apply Nat.ltb_ge in Hx. lia.
  - eapply Forall_unfilter; [exact H2|].
    intros x Hx. apply Nat.ltb_ge in Hx. lia.
Qed.

(** C5.  On the lower-cased input, each intent scores the number of its
    keywords that occur in the text; the intents come in the order
    check_abnormality, list_services, service_details, metrics_analysis,
    compare_services, troubleshoot; the detected intent is the first one of
    greatest score when some score is positive, and general_question when
    every score is zero. *)
Theorem detect_intent_first_max text :
  let t := lower text in
  let detected := _detect_intent_type_flexible t in
  map fst (score_table t)
  = ["check_abnormality"; "list_services"; "service_details";
     "metrics_analysis"; "compare_services"; "troubleshoot"]
  /\ Forall2
       (fun entry scored =>
          fst scored = fst entry
          /\ snd scored
             = length (List.filter (fun k => str_in k t) (snd entry))
          /\ NoDup (snd entry)
          /\ forall k, str_in k t = true <-> occurs k t)
       intent_keywords (score_table t)
  /\ (Forall (fun entry => snd entry = 0) (score_table t) ->
      detected = "general_question")
  /\ (Exists (fun entry => 0 < snd entry) (score_table t) ->
      exists e, first_max (score_table t) e /\ detected = fst e).
Proof.
  cbv zeta. set (t := lower text).
  split; [reflexivity|]. split; [|split].
  - unfold score_table.
    assert (Forall (fun entry => NoDup (snd entry)) intent_keywords) as Hnd.
    { repeat constructor; cbn [snd];
        apply (bool_decide_unpack _); vm_compute; exact I. }
    induction Hnd as [|entry l Hx Hnd IH]; cbn [map]; constructor; auto.
    cbn [fst snd]. repeat split; auto; apply str_in_occurs.
  - intros H0. unfold _detect_intent_type_flexible, scores_of.
    fold (score_table t).
    replace (List.filter _ (score_table t)) with (@nil (string * nat));
      [reflexivity|].
    symmetry. induction H0 as [|x l Hx H0 IH]; [reflexivity|].
    cbn [List.filter]. now rewrite Hx.
  - intros Hex. unfold _detect_intent_type_flexible, scores_of.
    fold (score_table t).
    destruct (List.filter _ (score_table t)) as [|e0 l] eqn:E.
    + exfalso. apply List.Exists_exists in Hex as (x & Hin & Hx).
      assert (In x (List.filter (fun entry => Nat.ltb 0 (snd entry))
                      (score_table t))) as Hf.
      { apply filter_In. split; [assumption|]. now apply Nat.ltb_lt. }
      rewrite E in Hf. destruct Hf.
    + destruct (max_from_first_max l e0) as (e & Hfm & He).
      exists e. split; [|assumption].
      apply positive_first_max. now rewrite E.
Qed.

Lemma detect_intent_first_max_witness :
  let t := lower "Show me metrics for checkout-service" in
  Exists (fun entry => 0 < snd entry) (score_table t)
  /\ exists e,
       first_max (score_table t) e
       /\ _detect_intent_type_flexible t = fst e.
Proof.
  cbv zeta.
  assert (Exists (fun entry => 0 < snd entry)
            (score_table (lower "Show me metrics for checkout-service")))
    as Hex.
  { apply Exists_cons_hd. apply Nat.ltb_lt. vm_compute. reflexivity. }
  split; [exact Hex|].
  exact (proj2 (proj2 (proj2 (detect_intent_first_max
           "Show me metrics for checkout-service"))) Hex).
Defined.

End FallbackFacts.

(** ** The entry point of the parser *)

Module ParseFacts.
Import PyStr Re Py Timeframe IntentParser Spec FallbackFacts.

Lemma lstrip_empty s :
  lstrip s = EmptyString <-> all_chars is_space s = true.
Proof.
  induction s as [|c s IH]; cbn; [easy|].
  destruct (is_space c); cbn; [exact IH|]. split; discriminate.
Qed.

Lemma rstrip_empty s :
  rstrip s = EmptyString <-> all_chars is_space s = true.
Proof.
  induction s as [|c s IH]; cbn; [easy|].
  destruct (rstrip s) eqn:E.
  - destruct (is_space c); cbn; [|split; discriminate].
    split; [intros _; now apply IH|reflexivity].
  - split; [discriminate|]. intros H. apply andb_true_iff in H as [_ H].
    apply IH in H. discriminate.
Qed.

Lemma lstrip_spaces s :
  all_chars is_space (lstrip s) = true -> all_chars is_space s = true.
Proof.
  induction s as [|c s IH]; cbn; [easy|].
  destruct (is_space c) eqn:E; cbn; [exact IH|]. now rewrite E.
Qed.

(** Stripping leaves nothing exactly of a blank string. *)
Lemma strip_empty s : strip s = EmptyString <-> all_chars is_space s = true.
Proof.
  unfold strip. rewrite rstrip_empty. split.
  - apply lstrip_spaces.
  - intros H. apply lstrip_empty in H. now rewrite H.
Qed.

Lemma blank_test s :
  (negb (truthy s) || negb (truthy (strip s)))%bool = all_chars is_space s.
Proof.
  destruct (all_chars is_space s) eqn:E.
  - apply strip_empty in E. rewrite E. cbn. apply orb_true_r.
  - destruct s as [|c s]; [discriminate|]. cbn [truthy negb orb].
    destruct (strip (String c s)) eqn:Es; [|reflexivity].
    apply strip_empty in Es. congruence.
Qed.

(** The fallback tier always returns an intent. *)
Lemma parse_with_patterns_returns text :
  exists intent, _parse_with_patterns text = Return intent.
Proof.
  unfold _parse_with_patterns.
  destruct (extract_timeframe_shape (lower text)) as (ds & u & -> & _).
  cbn [bind]. eauto.
Qed.

Lemma backend_failed_no_intent json_loads client user_input :
  backend_failed json_loads client user_input ->
  _parse_with_ai json_loads client user_input = None.
Proof.
  unfold backend_failed, _parse_with_ai, ai_attempt.
  intros [(e & ->)|(response & -> & H)]; [reflexivity|].
  cbn [bind]. now destruct H as [-> | ->].
Qed.

(** A provider that [_call_ai] does not know makes the tier fail. *)
Lemma unsupported_provider_fails json_loads client text :
  ~ In (provider client) ["openai"; "anthropic"; "gemini"; "ollama"] ->
  backend_failed json_loads client text.
Proof.
  intros Hp. left. unfold _call_ai.
  destruct (String.eqb_spec (provider client) "openai") as [E|_];
    [exfalso; apply Hp; rewrite E; cbn; auto|].
  destruct (String.eqb_spec (provider client) "anthropic") as [E|_];
    [exfalso; apply Hp; rewrite E; cbn; auto|].
  destruct (String.eqb_spec (provider client) "gemini") as [E|_];
    [exfalso; apply Hp; rewrite E; cbn; auto|].
  destruct (String.eqb_spec (provider client) "ollama") as [E|_];
    [exfalso; apply Hp; rewrite E; cbn; auto 6|].
  eauto.
Qed.

(** C3, as the code has it.  [parse] answers [None] exactly on an empty
    or whitespace-only input and never raises; on any other input it
    returns an intent.  When no backend is configured or the generative
    tier fails (the provider call raises, as on a timeout, on an
    unsupported provider, on an error status or on an answer without its
    text; or the answer is not a JSON object), the intent is the one of
    the pattern tier.  An answer that is a JSON object is no failure,
    whatever keys it lacks: the intent is built from it, with
    [general_question], [None], [2h] and the empty string for the keys
    that are missing. *)
Theorem parse_none_iff_blank json_loads ai_client user_input :
  (parse json_loads ai_client user_input = Return None
   <-> all_chars is_space user_input = true)
  /\ (all_chars is_space user_input = false ->
      exists intent,
        parse json_loads ai_client user_input = Return (Some intent))
  /\ (all_chars is_space user_input = false ->
      ai_client = None
      \/ (exists client,
            ai_client = Some client
            /\ backend_failed json_loads client (strip user_input)) ->
      exists intent,
        _parse_with_patterns (strip user_input) = Return intent
        /\ parse json_loads ai_client user_input = Return (Some intent))
  /\ (forall client text,
        ~ In (provider client) ["openai"; "anthropic"; "gemini"; "ollama"] ->
        backend_failed json_loads client text)
  /\ (forall client text e,
        In (provider client) ["openai"; "anthropic"] ->
        chat client system_prompt ("User query: " +:+ text) = Raise e ->
        backend_failed json_loads client text)
  /\ (forall client text e,
        provider client = "gemini" ->
        generate_content client
          (system_prompt +:+ paragraph_break +:+ "User query: " +:+ text)
        = Raise e ->
        backend_failed json_loads client text)
  /\ (forall client text outcome,
        provider client = "ollama" ->
        post client
          (system_prompt +:+ paragraph_break +:+ "User query: " +:+ text)
        = outcome ->
        (exists e, outcome = Raise e)
        \/ (exists r, outcome = Return r /\ status_code r <> 200%Z)
        \/ (exists r, outcome = Return r /\ response_text r = None) ->
        backend_failed json_loads client text)
  /\ (forall client response intent_data,
        all_chars is_space user_input = false ->
        ai_client = Some client ->
        _call_ai client system_prompt ("User query: " +:+ strip user_input)
        = Return response ->
        json_loads (clean_response response) = Some (JObject intent_data) ->
        parse json_loads ai_client user_input
        = Return
            (Some {| type := get_or intent_data "intent_type"
                               (Some "general_question");
                     service_name := get_or intent_data "service_name" None;
                     timeframe := get_or intent_data "timeframe" (Some "2h");
                     additional_context :=
                       get_or intent_data "additional_context"
                         (Some EmptyString);
                     raw_query := strip user_input;
                     is_followup := None |})).
Proof.
  destruct (parse_with_patterns_returns (strip user_input)) as (fb & Hfb).
  assert (forall text client,
            (exists e, _call_ai client system_prompt ("User query: " +:+ text)
                       = Raise e) ->
            backend_failed json_loads client text) as Hraise.
  { intros text client H. now left. }
  split; [|split; [|split; [|split; [|split; [|split; [|split]]]]]].
  8:{ intros client response intent_data Hb -> Hc Hj.
      unfold parse. rewrite blank_test, Hb, Hfb. cbn [bind].
      unfold _parse_with_ai, ai_attempt. rewrite Hc. cbn [bind].
      now rewrite Hj. }
  - unfold parse. rewrite blank_test.
    destruct (all_chars is_space user_input); [easy|].
    split; [|discriminate]. rewrite Hfb. cbn [bind].
    destruct ai_client as [client|]; [|discriminate].
    destruct (_parse_with_ai _ _ _); discriminate.
  - intros Hb. unfold parse. rewrite blank_test, Hb, Hfb. cbn [bind].
    destruct ai_client as [client|]; [|eauto].
    destruct (_parse_with_ai _ _ _); eauto.
  - intros Hb Hfail. exists fb. split; [assumption|].
    unfold parse. rewrite blank_test, Hb, Hfb. cbn [bind].
    destruct Hfail as [->|(client & -> & Hfail)]; [reflexivity|].
    now rewrite (backend_failed_no_intent _ _ _ Hfail).
  - intros client text Hp. apply Hraise. unfold _call_ai.
    destruct (String.eqb_spec (provider client) "openai") as [E|_];
      [exfalso; apply Hp; rewrite E; cbn; auto|].
    destruct (String.eqb_spec (provider client) "anthropic") as [E|_];
      [exfalso; apply Hp; rewrite E; cbn; auto|].
    destruct (String.eqb_spec (provider client) "gemini") as [E|_];
      [exfalso; apply Hp; rewrite E; cbn; auto|].
    destruct (String.eqb_spec (provider client) "ollama") as [E|_];
      [exfalso; apply Hp; rewrite E; cbn; auto 6|].
    eauto.
  - intros client text e Hp Hc. apply Hraise. unfold _call_ai.
    destruct Hp as [Hp|[Hp|[]]]; rewrite <- Hp; cbn [String.eqb Ascii.eqb Bool.eqb];
      rewrite Hc; cbn [bind]; eauto.
  - intros client text e Hp Hc. apply Hraise. unfold _call_ai.
    rewrite Hp. cbn [String.eqb Ascii.eqb Bool.eqb].
    rewrite Hc. cbn [bind]. eauto.
  - intros client text outcome Hp Hc Hout. apply Hraise. unfold _call_ai.
    rewrite Hp. cbn [String.eqb Ascii.eqb Bool.eqb]. rewrite Hc.
    destruct Hout as [(e & ->)|[(r & -> & Hs)|(r & -> & Hr)]]; cbn [bind].
    + eauto.
    + destruct (Z.eqb_spec (status_code r) 200); [easy|eauto].
    + rewrite Hr. destruct (status_code r =? 200)%Z; eauto.
Qed.

Lemma parse_none_iff_blank_witness :
  exists intent,
    _parse_with_patterns (strip "  check ordercontroller ") = Return intent
    /\ parse no_json (Some timing_out) "  check ordercontroller "
       = Return (Some intent).
Proof.
  apply (proj1 (proj2 (proj2 (parse_none_iff_blank no_json (Some timing_out)
                                "  check ordercontroller ")))).
  - reflexivity.
  - right. exists timing_out. split; [reflexivity|].
    left. exists OtherException. reflexivity.
Defined.

(** A JSON object that lacks members is no failure: [_parse_with_ai] fills
    in its defaults. *)
Lemma parse_with_ai_defaults json_loads client text response :
  _call_ai client system_prompt ("User query: " +:+ text) = Return response ->
  json_loads (clean_response response) = Some (JObject ∅) ->
  _parse_with_ai json_loads client text
  = Some {| type := Some "general_question";
            service_name := None;
            timeframe := Some "2h";
            additional_context := Some EmptyString;
            raw_query := text;
            is_followup := None |}.
Proof.
  intros Hc Hj. unfold _parse_with_ai, ai_attempt. rewrite Hc. cbn [bind].
  rewrite Hj. reflexivity.
Qed.

(** C3, as stated, fails: an answer that lacks every key of the contract
    is no failure of the generative tier; the intent returned is the one
    of defaults, not the one of the pattern tier. *)
Lemma missing_keys_not_absorbed :
  parse loads_empty (Some answering_empty) "list all services"
  = Return (Some {| type := Some "general_question";
                    service_name := None;
                    timeframe := Some "2h";
                    additional_context := Some EmptyString;
                    raw_query := "list all services";
                    is_followup := None |})
  /\ _parse_with_patterns "list all services"
     = Return {| type := Some "list_services";
                 service_name := None;
                 timeframe := Some "2h";
                 additional_context := Some EmptyString;
                 raw_query := "list all services";
                 is_followup := None |}.
Proof. split; vm_compute; reflexivity. Qed.

End ParseFacts.

(** ** Conversation context *)

Module ContextFacts.
Import PyStr Py IntentParser Main Spec.

Lemma opt_eqb_eq a b : opt_eqb a b = true <-> a = b.
Proof.
  destruct a as [x|], b as [y|]; cbn; try (split; congruence).
  rewrite String.eqb_eq. split; congruence.
Qed.

(** C4, as the code has it.  The service is carried over, and the intent
    marked a follow-up, when the intent names no service, the context has
    one, and the category is the last one; the timeframe is replaced by the
    last one when it is missing or [2h] and the context has one.  Nothing
    else changes.  With the context of payment-api a bare health check
    comes back for payment-api, as a follow-up. *)
Theorem apply_context_carry_over context intent :
  let intent' := apply_context context intent in
  (truthy_opt (service_name intent) = false ->
   truthy_opt (last_service context) = true ->
   type intent = last_intent context ->
   service_name intent' = last_service context
   /\ is_followup intent' = Some true)
  /\ (truthy_opt (service_name intent) = true
      \/ truthy_opt (last_service context) = false
      \/ type intent <> last_intent context ->
      service_name intent' = service_name intent
      /\ is_followup intent' = is_followup intent)
  /\ (truthy_opt (timeframe intent) = false
      \/ timeframe intent = Some "2h" ->
      truthy_opt (last_timeframe context) = true ->
      timeframe intent' = last_timeframe context)
  /\ (truthy_opt (timeframe intent) = true /\ timeframe intent <> Some "2h"
      \/ truthy_opt (last_timeframe context) = false ->
      timeframe intent' = timeframe intent)
  /\ type intent' = type intent
  /\ additional_context intent' = additional_context intent
  /\ raw_query intent' = raw_query intent
  /\ service_name (apply_context payment_context bare_check)
     = Some "payment-api"
  /\ is_followup (apply_context payment_context bare_check) = Some true.
Proof.
  cbv zeta. unfold apply_context.
  destruct (opt_eqb (type intent) (last_intent context)) eqn:Et;
    [apply opt_eqb_eq in Et|
     assert (type intent <> last_intent context) as Hne
       by (intros H; apply opt_eqb_eq in H; congruence)];
    destruct (truthy_opt (service_name intent)) eqn:Es;
    destruct (truthy_opt (last_service context)) eqn:El;
    cbn [negb andb type service_name timeframe additional_context
         raw_query is_followup];
    (destruct (opt_eqb (timeframe intent) (Some "2h")) eqn:E2;
     [apply opt_eqb_eq in E2|
      assert (timeframe intent <> Some "2h") as Hn2
        by (intros H; apply opt_eqb_eq in H; congruence)]);
    destruct (truthy_opt (timeframe intent)) eqn:Ef;
    destruct (truthy_opt (last_timeframe context)) eqn:Ec;
    cbn [negb orb type service_name timeframe additional_context
         raw_query is_followup];
    repeat split; try reflexivity; try congruence;
    try (intros [?|[?|?]]; congruence);
    try (intros [[? ?]|?]; congruence);
    try (intros [?|?]; congruence);
    intuition congruence.
Qed.

Lemma apply_context_carry_over_witness :
  service_name (apply_context payment_context bare_check)
  = last_service payment_context
  /\ is_followup (apply_context payment_context bare_check) = Some true.
Proof.
  exact (proj1 (apply_context_carry_over payment_context bare_check)
           eq_refl eq_refl eq_refl).
Defined.

(** C4, as stated, fails: the category is the last one and the intent names
    no service, yet nothing marks it a follow-up, for the context has no
    service to give; and a context without a timeframe leaves [2h] in
    place. *)
Lemma apply_context_nothing_to_carry :
  service_name bare_check = None
  /\ type bare_check = last_intent unnamed_context
  /\ is_followup (apply_context unnamed_context bare_check) <> Some true
  /\ timeframe bare_check = Some "2h"
  /\ timeframe
       (apply_context
          {| last_service := None; last_intent := None;
             last_timeframe := Some EmptyString |} bare_check)
     <> Some EmptyString.
Proof. repeat split; discriminate. Qed.

End ContextFacts.

(** ** Filtering problems *)

Module ProblemFacts.
Import PyStr Py Problems Spec CategorizeFacts.

(** *** Reading entities *)

Lemma id_is_readable entity_id entity :
  entityId entity <> Null ->
  id_is entity_id entity = Return (has_id entity_id entity).
Proof.
  unfold id_is, get_id, has_id, id_of.
  destruct (entityId entity); [reflexivity|easy|reflexivity].
Qed.

Lemma id_is_null entity_id entity :
  entityId entity = Null -> id_is entity_id entity = Raise AttributeError.
Proof. unfold id_is, get_id. now intros ->. Qed.

Lemma id_is_return entity_id entity b :
  id_is entity_id entity = Return b ->
  entityId entity <> Null /\ b = has_id entity_id entity.
Proof.
  destruct (entityId entity) eqn:E.
  - rewrite id_is_readable by congruence. intros [= <-]. split; congruence.
  - rewrite id_is_null by assumption. discriminate.
  - rewrite id_is_readable by congruence. intros [= <-]. split; congruence.
Qed.

Lemma has_id_true entity_id entity :
  has_id entity_id entity = true <-> id_of entity = Some entity_id.
Proof.
  unfold has_id. destruct (id_of entity) as [s|]; [|split; discriminate].
  rewrite String.eqb_eq. split; congruence.
Qed.

Lemma name_has_readable service_name entity :
  name entity <> Null ->
  name_has service_name entity = Return (has_name service_name entity).
Proof.
  unfold name_has, has_name.
  destruct (name entity); [reflexivity|easy|reflexivity].
Qed.

Lemma name_has_null service_name entity :
  name entity = Null -> name_has service_name entity = Raise AttributeError.
Proof. unfold name_has. now intros ->. Qed.

Lemma name_has_return service_name entity b :
  name_has service_name entity = Return b ->
  name entity <> Null /\ b = has_name service_name entity.
Proof.
  destruct (name entity) eqn:E.
  - rewrite name_has_readable by congruence. intros [= <-]. split; congruence.
  - rewrite name_has_null by assumption. discriminate.
  - rewrite name_has_readable by congruence. intros [= <-]. split; congruence.
Qed.

Lemma all_entities_readable p :
  impactedEntities p <> Null -> affectedEntities p <> Null ->
  all_entities p = Return (entities_of p).
Proof.
  unfold all_entities, entities_of. intros Hi Ha.
  destruct (impactedEntities p), (affectedEntities p); try easy; cbn;
    destruct (rootCauseEntity p); cbn;
    now rewrite ?app_nil_r, <- ?app_assoc.
Qed.

(** *** The walk over the entities *)

Lemma scan_total entity_id service_name entities :
  Forall readable entities ->
  exists found, scan_entities entity_id service_name entities = Return found.
Proof.
  induction 1 as [|e entities [He Hn] _ IH]; cbn [scan_entities]; [eauto|].
  rewrite id_is_readable by assumption. cbn [bind].
  destruct (has_id entity_id e); [eauto|].
  rewrite name_has_readable by assumption. cbn [bind].
  destruct (has_name service_name e); eauto.
Qed.


(** What the walk found, when it returns. *)
Lemma scan_return entity_id service_name entities found :
  scan_entities entity_id service_name entities = Return found ->
  (found <> None
   <-> exists entity,
         In entity entities
         /\ (has_id entity_id entity = true
             \/ has_name service_name entity = true)).
Proof.
  revert found. induction entities as [|e entities IH]; intros found;
    cbn [scan_entities].
  - intros [= <-]. split; [congruence|]. now intros (x & [] & _).
  - destruct (id_is entity_id e) as [b|err] eqn:Ei; cbn [bind];
      [|discriminate].
    apply id_is_return in Ei as [_ ->].
    destruct (has_id entity_id e) eqn:Hi.
    { intros [= <-]. split; [|discriminate]. intros _. exists e.
      split; [now left|now left]. }
    destruct (name_has service_name e) as [b|err] eqn:En; cbn [bind];
      [|discriminate].
    apply name_has_return in En as [_ ->].
    destruct (has_name service_name e) eqn:Hn.
    { intros [= <-]. split; [|discriminate]. intros _. exists e.
      split; [now left|now right]. }
    intros E. rewrite (IH _ E). split.
    + intros (x & Hin & Hx). exists x. split; [now right|assumption].
    + intros (x & [<-|Hin] & Hx); [|now exists x].
      destruct Hx; congruence.
Qed.

(** *** The relevance of an id match *)

Lemma any_id_readable entity_id entities :
  Forall readable entities ->
  any_id entity_id entities = Return (existsb (has_id entity_id) entities).
Proof.
  induction 1 as [|e entities [He _] _ IH]; cbn [any_id existsb];
    [reflexivity|].
  rewrite id_is_readable by assumption. cbn [bind].
  now destruct (has_id entity_id e).
Qed.

(** On a record without [null], the code computes the stated rule. *)
Lemma calculate_relevance_stated entity_id p :
  null_free p ->
  _calculate_relevance p entity_id = Return (stated_relevance entity_id p).
Proof.
  intros (_ & _ & Hi & _ & Hr & He).
  unfold _calculate_relevance, stated_relevance.
  assert (Forall readable (list_of (impactedEntities p))) as Himp.
  { unfold entities_of in He. now apply Forall_app in He as [He _]. }
  assert (on (get (rootCauseEntity p) empty_entity) (id_is entity_id)
          = Return match rootCauseEntity p with
                   | Present root_cause => has_id entity_id root_cause
                   | Absent | Null => false
                   end) as ->.
  { unfold entities_of in He.
    destruct (rootCauseEntity p) as [| |root_cause]; [reflexivity|easy|].
    cbn [get on]. apply id_is_readable.
    apply Forall_app in He as [_ He]. apply Forall_app in He as [_ He].
    inversion He as [|? ? [H _]]; subst. exact H. }
  cbn [bind]. destruct (match rootCauseEntity p with Present _ => _ | _ => _ end);
    [reflexivity|].
  assert (iter (get (impactedEntities p) [])
          = Return (list_of (impactedEntities p))) as ->
    by (destruct (impactedEntities p); [reflexivity|easy|reflexivity]).
  cbn [bind]. rewrite any_id_readable by assumption. cbn [bind].
  now destruct (existsb _ _).
Qed.


Lemma calculate_relevance_values p entity_id t :
  _calculate_relevance p entity_id = Return t ->
  In t ["root_cause"; "directly_impacted"; "indirectly_affected"].
Proof.
  unfold _calculate_relevance.
  destruct (on _ _) as [[|]|e]; cbn [bind]; [intros [= <-]; now left| |easy].
  destruct (iter _) as [entities|e]; cbn [bind]; [|easy].
  destruct (any_id _ _) as [[|]|e]; cbn [bind]; intros [= <-]; cbn; auto.
Qed.


(** *** The loop bodies *)

Lemma entity_tag_ignores_relevance entity_id service_name p t :
  entity_tag entity_id service_name (set_relevance p t)
  = entity_tag entity_id service_name p.
Proof. reflexivity. Qed.

Lemma name_tag_ignores_relevance service_name p t :
  name_tag service_name (set_relevance p t) = name_tag service_name p.
Proof. reflexivity. Qed.

Lemma null_free_entities p :
  null_free p ->
  all_entities p = Return (entities_of p) /\ Forall readable (entities_of p).
Proof.
  intros (_ & _ & Hi & Ha & _ & He). split; [|exact He].
  now apply all_entities_readable.
Qed.

(** On a record without [null] the body of the entity-id mode returns. *)
Lemma entity_tag_null_free entity_id service_name p :
  null_free p ->
  exists found,
    scan_entities entity_id service_name (entities_of p) = Return found
    /\ entity_tag entity_id service_name p
       = Return match found with
                | Some ById => Some (stated_relevance entity_id p)
                | Some ByName => Some "name_match"
                | None => None
                end.
Proof.
  intros Hp. destruct (null_free_entities p Hp) as [Ea He].
  destruct (scan_total entity_id service_name _ He) as (found & Es).
  exists found. split; [exact Es|].
  unfold entity_tag. rewrite Ea. cbn [bind]. rewrite Es. cbn [bind].
  destruct found as [[|]|]; try reflexivity.
  now rewrite calculate_relevance_stated.
Qed.


Lemma entity_tag_values entity_id service_name p t :
  entity_tag entity_id service_name p = Return (Some t) ->
  In t ["root_cause"; "directly_impacted"; "indirectly_affected";
        "name_match"].
Proof.
  unfold entity_tag.
  destruct (all_entities p) as [entities|e]; cbn [bind]; [|easy].
  destruct (scan_entities _ _ _) as [[[|]|]|e]; cbn [bind]; try easy.
  - destruct (_calculate_relevance p entity_id) as [r|e] eqn:E;
      cbn [bind]; [|easy].
    intros [= <-]. apply calculate_relevance_values in E.
    cbn in E |- *. intuition.
  - intros [= <-]. cbn. auto.
Qed.

(** *** Runs of a filter *)

Lemma run_filter_returns tag problems :
  (forall p, In p problems -> exists decision, tag p = Return decision) ->
  exists matched, outcome (run_filter tag problems) = Return matched.
Proof.
  induction problems as [|p problems IH]; intros H; cbn [run_filter];
    [eauto|].
  destruct (H p (or_introl eq_refl)) as (d & ->).
  destruct IH as (matched & E); [intros q Hq; apply H; now right|].
  destruct d; cbn [outcome]; rewrite E; cbn [bind]; eauto.
Qed.


Lemma run_filter_accepts tag problems : forall matched p t,
  outcome (run_filter tag problems) = Return matched ->
  In p problems -> tag p = Return (Some t) ->
  In (set_relevance p t) matched.
Proof.
  induction problems as [|q problems IH]; [easy|].
  intros matched p t E Hin Ht. cbn [run_filter] in E.
  destruct (tag q) as [[tq|]|e] eqn:Eq; cbn [outcome] in E; [| |easy].
  - destruct (outcome (run_filter tag problems)) as [m|e] eqn:Em;
      cbn [bind] in E; [|easy].
    injection E as <-. destruct Hin as [->|Hin].
    + left. congruence.
    + right. eapply IH; eauto.
  - destruct Hin as [->|Hin]; [congruence|]. eapply IH; eauto.
Qed.

Lemma run_filter_origin tag problems : forall matched q,
  outcome (run_filter tag problems) = Return matched -> In q matched ->
  exists p t,
    In p problems /\ tag p = Return (Some t) /\ q = set_relevance p t.
Proof.
  induction problems as [|x problems IH]; intros matched q E Hq;
    cbn [run_filter] in E.
  - injection E as <-. destruct Hq.
  - destruct (tag x) as [[t|]|e] eqn:Ex; cbn [outcome] in E; [| |easy].
    + destruct (outcome (run_filter tag problems)) as [m|e] eqn:Em;
        cbn [bind] in E; [|easy].
      injection E as <-. destruct Hq as [<-|Hq].
      * exists x, t. repeat split; [now left|assumption].
      * destruct (IH _ _ eq_refl Hq) as (p & t' & Hp & Ht & ->).
        exists p, t'. repeat split; [now right|assumption].
    + destruct (IH _ _ E Hq) as (p & t' & Hp & Ht & ->).
      exists p, t'. repeat split; [now right|assumption].
Qed.

Lemma run_filter_length tag problems :
  length (problems_after (run_filter tag problems)) = length problems.
Proof.
  induction problems as [|x problems IH]; [reflexivity|]. cbn [run_filter].
  destruct (tag x) as [[t|]|e]; cbn [problems_after length];
    now rewrite ?IH.
Qed.

Lemma same_but_relevance_tagged p decision :
  same_but_relevance p (tagged p decision).
Proof. destruct decision; now repeat split. Qed.

(** Where a run leaves each record. *)
Lemma run_filter_positions tag problems :
  match outcome (run_filter tag problems) with
  | Return matched =>
      forall i p,
        problems !! i = Some p ->
        exists decision,
          tag p = Return decision
          /\ problems_after (run_filter tag problems) !! i
             = Some (tagged p decision)
  | Raise e =>
      exists k p,
        problems !! k = Some p /\ tag p = Raise e
        /\ (forall i q,
              i < k -> problems !! i = Some q ->
              exists decision,
                tag q = Return decision
                /\ problems_after (run_filter tag problems) !! i
                   = Some (tagged q decision))
        /\ (forall i,
              k <= i ->
              problems_after (run_filter tag problems) !! i = problems !! i)
  end.
Proof.
  induction problems as [|x problems IH]; cbn [run_filter outcome].
  - intros i p H. destruct i; discriminate.
  - destruct (tag x) as [d|e] eqn:Ex.
    + assert (problems_after
                (match d with
                 | Some t =>
                     {| problems_after :=
                          set_relevance x t
                            :: problems_after (run_filter tag problems);
                        outcome :=
                          (filtered_problems <-
                             outcome (run_filter tag problems) ;;
                           Return (set_relevance x t :: filtered_problems)) |}
                 | None =>
                     {| problems_after :=
                          x :: problems_after (run_filter tag problems);
                        outcome := outcome (run_filter tag problems) |}
                 end)
              = tagged x d :: problems_after (run_filter tag problems))
        as Ha by now destruct d.
      assert (forall A (k : list Problem -> A) (k' : exn -> A),
                match outcome
                        (match d with
                         | Some t =>
                             {| problems_after :=
                                  set_relevance x t
                                    :: problems_after
                                         (run_filter tag problems);
                                outcome :=
                                  (filtered_problems <-
                                     outcome (run_filter tag problems) ;;
                                   Return (set_relevance x t
                                             :: filtered_problems)) |}
                         | None =>
                             {| problems_after :=
                                  x :: problems_after
                                         (run_filter tag problems);
                                outcome :=
                                  outcome (run_filter tag problems) |}
                         end) with
                | Return m => k m
                | Raise e => k' e
                end
                = match outcome (run_filter tag problems) with
                  | Return m =>
                      k match d with
                        | Some t => set_relevance x t :: m
                        | None => m
                        end
                  | Raise e => k' e
                  end) as Ho.
      { intros A k k'.
        destruct d; cbn [outcome];
          now destruct (outcome (run_filter tag problems)). }
      rewrite Ho, Ha. clear Ho Ha.
      destruct (outcome (run_filter tag problems)) as [m|e].
      * intros [|i] p Hp; cbn in Hp |- *.
        -- injection Hp as <-. eauto.
        -- now apply IH.
      * destruct IH as (k & p & Hk & Hp & Hbefore & Hafter).
        exists (S k), p. split; [exact Hk|]. split; [exact Hp|]. split.
        -- intros [|i] q Hi Hq; cbn in Hq |- *.
           ++ injection Hq as <-. eauto.
           ++ apply Hbefore; [lia|assumption].
        -- intros [|i] Hi; [lia|]. cbn. apply Hafter. lia.
    + cbn [outcome problems_after]. exists 0, x.
      split; [reflexivity|]. split; [exact Ex|]. split; [lia|reflexivity].
Qed.

(** The frame of a run whose body does not read the relevance. *)
Lemma run_filter_frame tag problems :
  (forall p t, tag (set_relevance p t) = tag p) ->
  frame tag problems (run_filter tag problems).
Proof.
  intros Hinv. pose proof (run_filter_positions tag problems) as Hpos.
  split; [apply run_filter_length|]. split; [|split].
  - intros i p p' Hp Hp'.
    destruct (outcome (run_filter tag problems)) as [m|e].
    + destruct (Hpos i p Hp) as (d & _ & E). rewrite E in Hp'.
      injection Hp' as <-. apply same_but_relevance_tagged.
    + destruct Hpos as (k & x & _ & _ & Hbefore & Hafter).
      destruct (Nat.lt_ge_cases i k) as [Hi|Hi].
      * destruct (Hbefore i p Hi Hp) as (d & _ & E). rewrite E in Hp'.
        injection Hp' as <-. apply same_but_relevance_tagged.
      * rewrite (Hafter i Hi), Hp in Hp'. injection Hp' as <-.
        now repeat split.
  - intros matched E i p Hp. rewrite E in Hpos.
    destruct (Hpos i p Hp) as (d & Hd & Ha).
    exists d. split; [exact Hd|]. exists (tagged p d).
    split; [exact Ha|]. split; [apply same_but_relevance_tagged|].
    assert (In p problems) as Hin.
    { apply list_elem_of_In. eapply list_elem_of_lookup_2; eauto. }
    destruct d as [t|]; cbn [tagged].
    + split; [reflexivity|]. eapply run_filter_accepts; eauto.
    + split; [reflexivity|]. split; [auto|].
      intros Hq. apply (run_filter_origin tag problems _ _ E) in Hq
        as (q & t & _ & Ht & ->).
      rewrite Hinv in Hd. congruence.
  - intros e E. rewrite E in Hpos. exact Hpos.
Qed.

(** C8, as the code has it.  In both modes a filter run leaves the input
    list with its length and leaves each record every field but its
    relevance, whether it returns or raises.  When it returns, a record
    that is not accepted is left as it was, untagged if it came untagged,
    and is not returned; an accepted record carries the tag of its
    acceptance and is returned.  When it raises, on a [null] it calls a
    method on, the records it accepted before stay tagged although no
    list is returned. *)
Theorem filters_touch_relevance_only problems entity_id service_name :
  frame (entity_tag entity_id service_name) problems
    (_filter_problems_by_entity problems entity_id service_name)
  /\ frame (name_tag service_name) problems
       (_filter_problems_by_name problems service_name).
Proof.
  split; apply run_filter_frame.
  - intros; apply entity_tag_ignores_relevance.
  - intros; apply name_tag_ignores_relevance.
Qed.

Lemma filters_touch_relevance_only_witness :
  left_at
    (problems_after
       (_filter_problems_by_entity [gateway_problem; resolved_root_problem]
          "SERVICE-123" "checkout"))
    [set_relevance gateway_problem "root_cause";
     set_relevance resolved_root_problem "root_cause"]
    1 resolved_root_problem (Some "root_cause").
Proof.
  destruct (filters_touch_relevance_only
              [gateway_problem; resolved_root_problem]
              "SERVICE-123" "checkout") as ((_ & _ & H & _) & _).
  destruct (H [set_relevance gateway_problem "root_cause";
               set_relevance resolved_root_problem "root_cause"] eq_refl
              1 resolved_root_problem eq_refl) as (decision & Ed & Hl).
  vm_compute in Ed. injection Ed as <-. exact Hl.
Defined.

(** C8, as stated, fails: a run that returns no list and yet has tagged a
    record. *)
Lemma raised_run_leaves_tag :
  outcome
    (_filter_problems_by_entity [open_root_problem; nameless_problem]
       "SERVICE-123" "checkout")
  = Raise AttributeError
  /\ problems_after
       (_filter_problems_by_entity [open_root_problem; nameless_problem]
          "SERVICE-123" "checkout")
     = [set_relevance open_root_problem "root_cause"; nameless_problem]
  /\ relevance open_root_problem = None.
Proof. repeat split. Qed.

(** *** Relevance of an id match *)

Lemma null_free_returns_entity problems entity_id service_name :
  Forall null_free problems ->
  exists matched,
    outcome (_filter_problems_by_entity problems entity_id service_name)
    = Return matched.
Proof.
  intros H. apply run_filter_returns. intros p Hin.
  rewrite List.Forall_forall in H.
  destruct (entity_tag_null_free entity_id service_name p (H p Hin))
    as (found & _ & ->).
  eauto.
Qed.


Ltac no_null :=
  repeat match goal with
         | |- null_free _ => unfold null_free, entities_of; cbn
         | |- rated _ => unfold rated; cbn
         | |- readable _ => unfold readable; cbn
         | |- _ /\ _ => split
         | |- Forall _ _ => constructor
         | |- _ <> _ => discriminate
         end.



(** C1, on the code: the root cause of the problem is the target service,
    by id; an impacted entity that comes before it in the walk has the
    service name within its own and another id; the record is returned
    with the tag name_match. *)
Theorem name_match_hides_id_match :
  (exists entities entity,
     all_entities gateway_problem = Return entities
     /\ In entity entities
     /\ get_id entity = Return (Some "SERVICE-123"))
  /\ (exists entities entity,
        all_entities gateway_problem = Return entities
        /\ In entity entities
        /\ name_has "payment-api" entity = Return true)
  /\ _calculate_relevance gateway_problem "SERVICE-123" = Return "root_cause"
  /\ outcome
       (_filter_problems_by_entity [gateway_problem]
          "SERVICE-123" "payment-api")
     = Return [set_relevance gateway_problem "name_match"].
Proof.
  split; [|split; [|split; reflexivity]].
  - eexists _, service_123. split; [reflexivity|].
    split; [right; now left|reflexivity].
  - eexists _, service_123. split; [reflexivity|].
    split; [right; now left|reflexivity].
Qed.

End ProblemFacts.

(** * Further properties *)

(** ** Timeframes, beyond the grammar *)

Module TimeframeMore.
Import PyStr Re Py Timeframe Spec ReFacts TimeframeFacts.

Lemma re_match_timeframe_none t :
  re_match timeframe_pattern t = None <-> ~ matches_timeframe t.
Proof.
  rewrite matches_timeframe_iff. split.
  - intros Hnone (ds & u & tail & -> & Hne & Hds & Hu & Hend).
    destruct (re_match_timeframe ds u tail Hne Hds Hu Hend) as (m & Hm & _).
    congruence.
  - intros Hno. destruct (re_match _ _) as [m|] eqn:E; [|reflexivity].
    exfalso. apply Hno. eapply re_match_timeframe_inv; eauto.
Qed.

(** X1.  On ASCII text [human_readable_timeframe] raises nothing but the
    [ValueError] of [int], and that only on a matching string of more
    digits than [int] converts.  A string that does not match the
    timeframe pattern comes back as it is; a matching one, a final newline
    included, is rendered from its digits and its unit. *)
Theorem human_readable_timeframe_outcomes s :
  ascii_text s ->
  (~ matches_timeframe (lower s) -> human_readable_timeframe s = Return s)
  /\ (matches_timeframe (lower s) ->
      exists ds u,
        all_chars is_digit ds = true /\ is_unit u = true
        /\ (lower s = ds +:+ String u EmptyString
            \/ lower s = ds +:+ String u (String newline EmptyString))
        /\ (convertible ds ->
            human_readable_timeframe s
            = Return ("Last " +:+ str (decimal ds) +:+ " "
                      +:+ unit_word_for u (decimal ds)))
        /\ (~ convertible ds ->
            human_readable_timeframe s = Raise ValueError))
  /\ (forall e,
        human_readable_timeframe s = Raise e ->
        e = ValueError
        /\ matches_timeframe (lower s)
        /\ ~ convertible (leading_digits (lower s))).
Proof.
  intros _. split; [|split].
  - intros H. apply re_match_timeframe_none in H.
    unfold human_readable_timeframe. now rewrite H.
  - intros H. apply matches_timeframe_iff in H
      as (ds & u & tail & E & Hne & Hds & Hu & Hend).
    exists ds, u. split; [assumption|]. split; [assumption|]. split.
    + rewrite E. rewrite <- (string_of_list_ascii_of_string tail).
      destruct Hend as [-> | ->]; [now left|now right].
    + rewrite (human_readable_matched s ds u tail E Hne Hds Hu Hend).
      split; intros Hc.
      * now rewrite int_convertible.
      * now rewrite int_too_long.
  - intros e He.
    destruct (re_match timeframe_pattern (lower s)) as [m|] eqn:Em.
    + destruct (re_match_timeframe_inv _ _ Em)
        as (ds & u & tail & E & Hne & Hds & Hu & Hend).
      assert (matches_timeframe (lower s)) as Hm.
      { apply matches_timeframe_iff. now exists ds, u, tail. }
      rewrite (human_readable_matched s ds u tail E Hne Hds Hu Hend) in He.
      rewrite E, (leading_digits_app ds u tail Hds (is_unit_not_digit u Hu)).
      rewrite E in Hm.
      destruct (convertible_dec ds) as [Hc|Hc].
      * now rewrite int_convertible in He.
      * rewrite int_too_long in He by assumption. cbn [bind] in He.
        injection He as <-. auto.
    + unfold human_readable_timeframe in He. now rewrite Em in He.
Qed.

Lemma human_readable_timeframe_outcomes_witness :
  human_readable_timeframe "two hours" = Return "two hours".
Proof.
  apply (proj1 (human_readable_timeframe_outcomes "two hours" eq_refl)).
  intros H. apply re_match_timeframe_none in H; [exact H|]. reflexivity.
Defined.

(** X2.  At a valid instant [parse_timeframe] either raises [ValueError]
    or [OverflowError], or returns a pair whose second instant is [now]
    and whose first is a valid instant not after it. *)
Theorem parse_timeframe_outcomes now s :
  (0 <= now <= datetime_max)%Z ->
  parse_timeframe now s = Raise ValueError
  \/ parse_timeframe now s = Raise OverflowError
  \/ exists from_time,
       parse_timeframe now s = Return (from_time, now)
       /\ (0 <= from_time <= now)%Z.
Proof.
  intros Hnow.
  destruct (re_match timeframe_pattern (lower s)) as [m|] eqn:E.
  - destruct (re_match_timeframe_inv _ _ E)
      as (ds & u & tail & El & Hne & Hds & Hu & Hend).
    rewrite (parse_timeframe_matched now s ds u tail) by assumption.
    destruct (convertible_dec ds) as [Hc|Hc];
      [|left; now rewrite int_too_long].
    rewrite int_convertible by assumption. cbn [bind].
    pose proof (decimal_nonneg ds Hds) as Hn.
    rewrite delta_outcome by assumption.
    assert (0 <= span_us u (decimal ds))%Z as Hspan.
    { unfold span_us. pose proof (unit_seconds_pos u). nia. }
    destruct (span_us u (decimal ds) <=? now)%Z eqn:Ele; [|now right; left].
    apply Z.leb_le in Ele. right. right. eexists. split; [reflexivity|]. lia.
  - left. unfold parse_timeframe. now rewrite E.
Qed.

Lemma parse_timeframe_outcomes_witness :
  parse_timeframe an_instant "7D" = Raise ValueError
  \/ parse_timeframe an_instant "7D" = Raise OverflowError
  \/ exists from_time,
       parse_timeframe an_instant "7D" = Return (from_time, an_instant)
       /\ (0 <= from_time <= an_instant)%Z.
Proof.
  apply (parse_timeframe_outcomes an_instant "7D").
  vm_compute. split; discriminate.
Defined.

(** X3.  Two timeframes that denote the same span, such as [1w], [7d],
    [168h] and [10080m], each of digits that [int] converts, parse alike
    at a valid instant: to the same pair, or both to [OverflowError]. *)
Theorem parse_timeframe_same_span now ds1 u1 ds2 u2 :
  (0 <= now <= datetime_max)%Z ->
  ds1 <> EmptyString -> all_chars is_digit ds1 = true -> is_unit u1 = true ->
  ds2 <> EmptyString -> all_chars is_digit ds2 = true -> is_unit u2 = true ->
  convertible ds1 -> convertible ds2 ->
  (decimal ds1 * unit_seconds u1 = decimal ds2 * unit_seconds u2)%Z ->
  parse_timeframe now (ds1 +:+ String u1 EmptyString)
  = parse_timeframe now (ds2 +:+ String u2 EmptyString)
  /\ (parse_timeframe now (ds1 +:+ String u1 EmptyString)
      = Raise OverflowError
      \/ exists from_time,
           parse_timeframe now (ds1 +:+ String u1 EmptyString)
           = Return (from_time, now)).
Proof.
  intros Hnow Hn1 Hd1 Hu1 Hn2 Hd2 Hu2 Hc1 Hc2 Hspan.
  assert (forall ds u,
            all_chars is_digit ds = true -> is_unit u = true ->
            lower (ds +:+ String u EmptyString) = ds +:+ String u EmptyString)
    as Hlow.
  { intros ds u Hd Hu. rewrite lower_canonical by assumption.
    f_equal. f_equal.
    destruct (is_unit_cases u Hu) as [-> | [-> | [-> | ->]]]; reflexivity. }
  rewrite (parse_timeframe_matched now _ ds1 u1 EmptyString); auto;
    [|now left].
  rewrite (parse_timeframe_matched now _ ds2 u2 EmptyString); auto;
    [|now left].
  rewrite !int_convertible by assumption. cbn [bind].
  rewrite !delta_outcome by (auto using decimal_nonneg).
  unfold span_us. rewrite Hspan. split; [reflexivity|].
  destruct (_ <=? now)%Z; [right; eauto|now left].
Qed.

Lemma parse_timeframe_same_span_witness :
  parse_timeframe an_instant "2w" = parse_timeframe an_instant "336h".
Proof.
  apply (parse_timeframe_same_span an_instant "2" "w" "336" "h");
    try reflexivity; try discriminate;
    vm_compute; try split; discriminate.
Defined.

End TimeframeMore.

(** ** The filters, beyond the tags of one record *)

Module FilterMore.
Import PyStr Py Problems Spec Terms CategorizeFacts FallbackFacts ProblemFacts.

Lemma has_name_names service_name entity :
  has_name service_name entity = true <-> names service_name (name entity).
Proof. apply str_in_occurs. Qed.

Lemma entities_of_tagged p t : entities_of (set_relevance p t) = entities_of p.
Proof. reflexivity. Qed.

(** What the walk decides on a record without [null]. *)
Lemma entity_tag_some entity_id service_name p :
  null_free p ->
  exists decision,
    entity_tag entity_id service_name p = Return decision
    /\ (decision <> None
        <-> exists entity,
              In entity (entities_of p)
              /\ (id_of entity = Some entity_id
                  \/ names service_name (name entity))).
Proof.
  intros Hp.
  destruct (entity_tag_null_free entity_id service_name p Hp)
    as (found & Es & Et).
  eexists. split; [exact Et|].
  pose proof (scan_return _ _ _ _ Es) as H.
  assert (match found with
          | Some ById => Some (stated_relevance entity_id p)
          | Some ByName => Some "name_match"
          | None => None
          end <> None <-> found <> None) as ->
    by (destruct found as [[|]|]; split; congruence).
  rewrite H. split; intros (e & Hin & He); exists e; (split; [assumption|]).
  - destruct He as [He|He]; [left; now apply has_id_true|
                             right; now apply has_name_names].
  - destruct He as [He|He]; [left; now apply has_id_true|
                             right; now apply has_name_names].
Qed.

(** X4.  On records without [null], in entity-id mode the filter
    returns, and a record is returned exactly when some entity among its
    impacted, affected and root-cause entities has the target id or has
    the service name in its name, wherever it stands; a record without
    entities is never returned; the tag of a returned record is one of
    root_cause, directly_impacted, indirectly_affected, name_match. *)
Theorem entity_mode_acceptance problems entity_id service_name :
  Forall null_free problems ->
  exists matched,
    outcome (_filter_problems_by_entity problems entity_id service_name)
    = Return matched
    /\ (forall p,
          In p problems ->
          (exists entity,
             In entity (entities_of p)
             /\ (id_of entity = Some entity_id
                 \/ names service_name (name entity))) ->
          exists t, In t entity_mode_tags /\ In (set_relevance p t) matched)
    /\ (forall q,
          In q matched ->
          exists p t,
            In p problems /\ q = set_relevance p t /\ In t entity_mode_tags
            /\ exists entity,
                 In entity (entities_of p)
                 /\ (id_of entity = Some entity_id
                     \/ names service_name (name entity)))
    /\ (forall p,
          In p problems -> entities_of p = [] ->
          forall t, ~ In (set_relevance p t) matched).
Proof.
  intros Hfree.
  destruct (null_free_returns_entity problems entity_id service_name Hfree)
    as (matched & Em).
  exists matched. split; [exact Em|].
  rewrite List.Forall_forall in Hfree. split; [|split].
  - intros p Hin He.
    destruct (entity_tag_some entity_id service_name p (Hfree p Hin))
      as (d & Ed & Hd).
    apply Hd in He. destruct d as [t|]; [|easy].
    exists t. split; [eapply entity_tag_values; eauto|].
    eapply run_filter_accepts; eauto.
  - intros q Hq.
    destruct (run_filter_origin _ _ _ _ Em Hq) as (p & t & Hin & Ht & ->).
    exists p, t. repeat split; auto.
    + eapply entity_tag_values; eauto.
    + destruct (entity_tag_some entity_id service_name p (Hfree p Hin))
        as (d & Ed & Hd).
      apply Hd. congruence.
  - intros p Hin Hnil t Hq.
    destruct (run_filter_origin _ _ _ _ Em Hq) as (p' & t' & Hin' & Ht & E).
    assert (entities_of p' = []) as Hnil'.
    { rewrite <- (entities_of_tagged p' t'), <- E, entities_of_tagged.
      exact Hnil. }
    destruct (entity_tag_some entity_id service_name p' (Hfree p' Hin'))
      as (d & Ed & Hd).
    assert (d <> None) as Hne by congruence.
    apply Hd in Hne as (e & He & _). rewrite Hnil' in He. destruct He.
Qed.

Lemma entity_mode_acceptance_witness :
  exists matched,
    outcome
      (_filter_problems_by_entity [open_root_problem; gateway_problem]
         "SERVICE-7" "Payment-API")
    = Return matched
    /\ exists t,
         In t entity_mode_tags /\ In (set_relevance gateway_problem t) matched.
Proof.
  destruct (entity_mode_acceptance [open_root_problem; gateway_problem]
              "SERVICE-7" "Payment-API") as (matched & Em & H & _);
    [no_null|].
  exists matched. split; [exact Em|]. apply H.
  - right. now left.
  - exists service_123. split; [right; now left|].
    right. exists EmptyString, EmptyString. reflexivity.
Defined.

Lemma any_name_readable service_name entities :
  Forall readable entities ->
  any_name service_name entities
  = Return (existsb (has_name service_name) entities).
Proof.
  induction 1 as [|e entities [_ Hn] _ IH]; cbn [any_name existsb];
    [reflexivity|].
  rewrite name_has_readable by assumption. cbn [bind].
  now destruct (has_name service_name e).
Qed.


(** What the body of the name-only mode decides on a record without
    [null]. *)
Lemma name_tag_null_free service_name p :
  null_free p ->
  name_tag service_name p
  = Return
      (if (str_in (lower service_name) (lower (text_of (title p)))
           || str_in (lower service_name)
                (lower (text_of (displayName p))))%bool
       then Some "title_match"
       else if existsb (has_name service_name)
                 (list_of (impactedEntities p) ++ list_of (affectedEntities p))
       then Some "entity_match"
       else None).
Proof.
  intros (Ht & Hd & Hi & Ha & _ & He). unfold name_tag.
  assert (on (get (title p) EmptyString) (fun s => Return (lower s))
          = Return (lower (text_of (title p)))) as ->
    by (destruct (title p); [reflexivity|easy|reflexivity]).
  assert (on (get (displayName p) EmptyString) (fun s => Return (lower s))
          = Return (lower (text_of (displayName p)))) as ->
    by (destruct (displayName p); [reflexivity|easy|reflexivity]).
  cbn [bind]. destruct (_ || _)%bool; [reflexivity|].
  assert (concat (get (impactedEntities p) []) (get (affectedEntities p) [])
          = Return (list_of (impactedEntities p)
                      ++ list_of (affectedEntities p))) as ->.
  { destruct (impactedEntities p), (affectedEntities p); try easy;
      reflexivity. }
  cbn [bind]. rewrite any_name_readable.
  - cbn [bind]. now destruct (existsb _ _).
  - unfold entities_of in He. rewrite app_assoc in He.
    now apply Forall_app in He as [He _].
Qed.





Lemma run_filter_sublist tag problems : forall matched,
  outcome (run_filter tag problems) = Return matched ->
  sublist matched (problems_after (run_filter tag problems)).
Proof.
  induction problems as [|p problems IH]; intros matched E;
    cbn [run_filter] in E |- *.
  - injection E as <-. constructor.
  - destruct (tag p) as [[t|]|e]; cbn [outcome problems_after] in E |- *;
      [| |easy].
    + destruct (outcome (run_filter tag problems)) as [m|e];
        cbn [bind] in E; [|easy].
      injection E as <-. constructor. now apply IH.
    + constructor. now apply IH.
Qed.

Lemma sublist_map {A B} (f : A -> B) (l1 l2 : list A) :
  sublist l1 l2 -> sublist (map f l1) (map f l2).
Proof. induction 1; cbn; now constructor. Qed.

(** Whatever its outcome, a run leaves the records as they were,
    relevance apart. *)
Lemma run_filter_untagged tag problems :
  map untagged (problems_after (run_filter tag problems))
  = map untagged problems.
Proof.
  induction problems as [|p problems IH]; cbn [run_filter]; [reflexivity|].
  destruct (tag p) as [[t|]|e]; cbn [problems_after map];
    now rewrite ?IH.
Qed.

Lemma run_filter_sublist_untagged tag problems matched :
  outcome (run_filter tag problems) = Return matched ->
  sublist (map untagged matched) (map untagged problems).
Proof.
  intros E. rewrite <- (run_filter_untagged tag problems).
  now apply sublist_map, run_filter_sublist.
Qed.

(** X6.  Both filters return the accepted records in the order of the
    input, each once per place it has there: the returned list is a
    sublist of the input list as the run leaves it, and, relevance apart,
    of the input list as it came; so it is never longer. *)
Theorem filters_keep_order problems entity_id service_name :
  let by_entity :=
    _filter_problems_by_entity problems entity_id service_name in
  let by_name := _filter_problems_by_name problems service_name in
  (forall matched,
     outcome by_entity = Return matched ->
     sublist matched (problems_after by_entity)
     /\ sublist (map untagged matched) (map untagged problems)
     /\ length matched <= length problems)
  /\ (forall matched,
        outcome by_name = Return matched ->
        sublist matched (problems_after by_name)
        /\ sublist (map untagged matched) (map untagged problems)
        /\ length matched <= length problems).
Proof.
  cbv zeta. unfold _filter_problems_by_entity, _filter_problems_by_name.
  assert (forall tag matched,
            outcome (run_filter tag problems) = Return matched ->
            sublist matched (problems_after (run_filter tag problems))
            /\ sublist (map untagged matched) (map untagged problems)
            /\ length matched <= length problems) as H.
  { intros tag matched E.
    pose proof (run_filter_sublist_untagged tag problems matched E) as Hu.
    split; [now apply run_filter_sublist|]. split; [exact Hu|].
    rewrite <- (length_map untagged problems),
      <- (length_map untagged matched).
    now apply sublist_length. }
  split; intros matched E; now apply H.
Qed.

Lemma filters_keep_order_witness :
  sublist
    (map untagged [set_relevance gateway_problem "name_match"])
    (map untagged [open_root_problem; gateway_problem]).
Proof.
  apply (proj1 (filters_keep_order [open_root_problem; gateway_problem]
                  "SERVICE-7" "gateway")
           [set_relevance gateway_problem "name_match"]).
  reflexivity.
Defined.

Lemma run_filter_again tag :
  (forall p t, tag (set_relevance p t) = tag p) ->
  forall problems matched,
    outcome (run_filter tag problems) = Return matched ->
    run_filter tag matched
    = {| problems_after := matched; outcome := Return matched |}.
Proof.
  intros Hinv. induction problems as [|p problems IH]; intros matched E;
    cbn [run_filter] in E.
  - now injection E as <-.
  - destruct (tag p) as [[t|]|e] eqn:Et; cbn [outcome] in E; [| |easy].
    + destruct (outcome (run_filter tag problems)) as [m|e];
        cbn [bind] in E; [|easy].
      injection E as <-. cbn [run_filter].
      rewrite Hinv, Et, (IH m eq_refl). reflexivity.
    + now apply IH.
Qed.

(** X7.  Filtering what a filter returned, with the same target, changes
    nothing: the second run returns too, every record is accepted again
    and keeps its tag. *)
Theorem filters_stable problems entity_id service_name matched :
  (outcome (_filter_problems_by_entity problems entity_id service_name)
   = Return matched ->
   outcome (_filter_problems_by_entity matched entity_id service_name)
   = Return matched
   /\ problems_after
        (_filter_problems_by_entity matched entity_id service_name)
      = matched)
  /\ (outcome (_filter_problems_by_name problems service_name)
      = Return matched ->
      outcome (_filter_problems_by_name matched service_name)
      = Return matched
      /\ problems_after (_filter_problems_by_name matched service_name)
         = matched).
Proof.
  unfold _filter_problems_by_entity, _filter_problems_by_name.
  split; intros E.
  - rewrite (run_filter_again _
               (entity_tag_ignores_relevance entity_id service_name)
               problems matched E).
    now split.
  - rewrite (run_filter_again _ (name_tag_ignores_relevance service_name)
               problems matched E).
    now split.
Qed.

Lemma filters_stable_witness :
  outcome
    (_filter_problems_by_entity [set_relevance gateway_problem "name_match"]
       "SERVICE-7" "gateway")
  = Return [set_relevance gateway_problem "name_match"].
Proof.
  apply (proj1 (filters_stable [open_root_problem; gateway_problem]
                  "SERVICE-7" "gateway"
                  [set_relevance gateway_problem "name_match"])).
  reflexivity.
Defined.

Lemma name_tag_values service_name p t :
  name_tag service_name p = Return (Some t) -> In t name_mode_tags.
Proof.
  unfold name_tag, name_mode_tags.
  destruct (on _ _) as [a|e]; cbn [bind]; [|easy].
  destruct (on _ _) as [b|e]; cbn [bind]; [|easy].
  destruct (_ || _)%bool.
  - intros [= <-]. now left.
  - destruct (concat _ _) as [entities|e]; cbn [bind]; [|easy].
    destruct (any_name _ _) as [[|]|e]; cbn [bind]; [|easy|easy].
    intros [= <-]. right. now left.
Qed.

Lemma bucket_of_important q :
  bucket_of q = Important -> relevance q = Some "directly_impacted".
Proof.
  unfold bucket_of. destruct (String.eqb _ "RESOLVED"); [discriminate|].
  destruct (_ || _)%bool; [discriminate|].
  destruct (String.eqb (default "unknown" (relevance q)) "directly_impacted")
    eqn:E; [|discriminate].
  intros _. apply String.eqb_eq in E.
  destruct (relevance q); cbn in E; [congruence|discriminate].
Qed.

Lemma bucket_of_critical q :
  bucket_of q = Critical ->
  relevance q = Some "root_cause"
  \/ In (upper (text_of (severityLevel q))) ["ERROR"; "CUSTOM_ALERT"].
Proof.
  unfold bucket_of. destruct (String.eqb _ "RESOLVED"); [discriminate|].
  destruct (String.eqb (default "unknown" (relevance q)) "root_cause") eqn:Er.
  { intros _. left. apply String.eqb_eq in Er.
    destruct (relevance q); cbn in Er; [congruence|discriminate]. }
  destruct (String.eqb _ "ERROR") eqn:E1.
  { intros _. right. left. apply String.eqb_eq in E1. congruence. }
  destruct (String.eqb _ "CUSTOM_ALERT") eqn:E2.
  { intros _. right. right. left. apply String.eqb_eq in E2. congruence. }
  cbn [orb]. destruct (String.eqb _ "directly_impacted"); discriminate.
Qed.

Lemma in_bucket_of matched c q b :
  categorize_problems matched = Return c ->
  In q (bucket_list c b) ->
  In q matched /\ bucket_of q = b.
Proof.
  intros E. destruct (categorized_bucket matched c E) as [_ ->].
  intros H. apply filter_In in H as [Hin Hb].
  split; [assumption|]. unfold in_bucket in Hb.
  destruct (bucket_of q), b; cbn in Hb; congruence.
Qed.

(** X8.  A record that was accepted by name only, with the tag name_match,
    title_match or entity_match, is never sorted into important, and into
    critical only for its severity; of the records the name-only mode
    returns, none is important. *)
Theorem name_matches_never_important (matched : list Problem) c q :
  categorize_problems matched = Return c ->
  In q matched ->
  In (relevance q) [Some "name_match"; Some "title_match"; Some "entity_match"] ->
  (~ In q (important c))
  /\ (In q (critical c) ->
      In (upper (text_of (severityLevel q))) ["ERROR"; "CUSTOM_ALERT"])
  /\ (forall problems service_name by_name c',
        outcome (_filter_problems_by_name problems service_name)
        = Return by_name ->
        categorize_problems by_name = Return c' ->
        important c' = []).
Proof.
  intros Ec Hin Hrel.
  assert (relevance q <> Some "directly_impacted"
          /\ relevance q <> Some "root_cause") as [Hd Hr].
  { cbn in Hrel. destruct Hrel as [<-|[<-|[<-|[]]]]; split; discriminate. }
  split; [|split].
  - intros H.
    apply (in_bucket_of matched c q Important Ec) in H as [_ H].
    now apply bucket_of_important in H.
  - intros H. apply (in_bucket_of matched c q Critical Ec) in H as [_ H].
    apply bucket_of_critical in H as [H|H]; [congruence|assumption].
  - intros problems service_name by_name c' Em Ec'.
    destruct (important c') as [|x l] eqn:E; [reflexivity|exfalso].
    assert (In x (bucket_list c' Important)) as Hx
      by (cbn [bucket_list]; rewrite E; now left).
    apply (in_bucket_of by_name c' x Important Ec') in Hx as [Hx Hb].
    apply bucket_of_important in Hb.
    destruct (run_filter_origin _ _ _ _ Em Hx) as (p & t & _ & Ht & ->).
    apply name_tag_values in Ht. cbn in Hb, Ht. injection Hb as ->.
    destruct Ht as [Ht|[Ht|[]]]; discriminate.
Qed.

Lemma name_matches_never_important_witness :
  ~ In (set_relevance gateway_problem "name_match")
      (important
         {| critical := []; important := [];
            related := [set_relevance gateway_problem "name_match"];
            resolved := [] |}).
Proof.
  apply (name_matches_never_important
           [set_relevance gateway_problem "name_match"]
           {| critical := []; important := [];
              related := [set_relevance gateway_problem "name_match"];
              resolved := [] |}
           (set_relevance gateway_problem "name_match")).
  - reflexivity.
  - now left.
  - now left.
Defined.

Lemma str_in_empty t : str_in EmptyString t = true.
Proof. destruct t; reflexivity. Qed.

(** X9.  The empty service name is in every text.  On records without
    [null], the name-only mode returns every record with it, as
    title_match, and the entity-id mode returns every record that has an
    entity at all. *)
Theorem empty_name_matches_all problems :
  Forall null_free problems ->
  outcome (_filter_problems_by_name problems EmptyString)
  = Return (map (fun p => set_relevance p "title_match") problems)
  /\ (forall entity_id,
        exists matched,
          outcome (_filter_problems_by_entity problems entity_id EmptyString)
          = Return matched
          /\ forall p,
               In p problems -> entities_of p <> [] ->
               exists t, In (set_relevance p t) matched).
Proof.
  intros Hfree. split.
  - unfold _filter_problems_by_name.
    induction Hfree as [|p problems Hp _ IH]; [reflexivity|].
    cbn [run_filter map]. rewrite (name_tag_null_free EmptyString p Hp).
    cbn [lower map_chars]. rewrite str_in_empty. cbn [orb outcome].
    rewrite IH. reflexivity.
  - intros entity_id.
    destruct (null_free_returns_entity problems entity_id EmptyString Hfree)
      as (matched & Em).
    exists matched. split; [exact Em|]. intros p Hin Hne.
    rewrite List.Forall_forall in Hfree.
    destruct (entity_tag_some entity_id EmptyString p (Hfree p Hin))
      as (d & Ed & Hd).
    destruct d as [t|].
    + exists t. eapply run_filter_accepts; eauto.
    + exfalso. apply (proj2 Hd); [|reflexivity].
      destruct (entities_of p) as [|e l]; [easy|].
      exists e. split; [now left|]. right.
      apply str_in_occurs. apply str_in_empty.
Qed.

Lemma empty_name_matches_all_witness :
  outcome (_filter_problems_by_name [open_root_problem] EmptyString)
  = Return [set_relevance open_root_problem "title_match"].
Proof.
  apply (proj1 (empty_name_matches_all [open_root_problem]
                  ltac:(no_null))).
Defined.

End FilterMore.

(** ** Fetching the problems of a service *)

Module FetchFacts.
Import PyStr Py Problems Spec Terms Fetch ProblemFacts FilterMore.

(** X10.  [get_problems_for_service] returns nothing when the request
    fails.  Otherwise what it returns is, in their order, records of the
    answer, each with a tag: of the entity-id mode when an entity id is
    given, of the name-only mode when it is missing or empty. *)
Theorem get_problems_tagged base_url requests_get service_name entity_id
    timeframe :
  (forall returned,
     get_problems_for_service base_url requests_get service_name entity_id
       timeframe
     = Return returned ->
     (forall q,
        In q returned ->
        exists t,
          relevance q = Some t
          /\ In t (if truthy_opt entity_id then entity_mode_tags
                   else name_mode_tags))
     /\ (forall all_problems,
           (forall url params,
              requests_get url params = Fetched all_problems) ->
           sublist (map untagged returned) (map untagged all_problems)))
  /\ ((forall url params, requests_get url params = RequestException) ->
      get_problems_for_service base_url requests_get service_name entity_id
        timeframe
      = Return []).
Proof.
  unfold get_problems_for_service. split.
  - intros returned E. split.
    + intros q Hq. destruct (requests_get _ _) as [all_problems|].
      * destruct (truthy_opt entity_id);
          destruct (run_filter_origin _ _ _ _ E Hq) as (p & t & _ & Ht & ->);
          exists t; (split; [reflexivity|]).
        -- eapply entity_tag_values; eauto.
        -- eapply name_tag_values; eauto.
      * injection E as <-. destruct Hq.
    + intros all_problems H. rewrite H in E.
      destruct (truthy_opt entity_id);
        eapply run_filter_sublist_untagged; exact E.
  - intros H. now rewrite H.
Qed.

Lemma get_problems_tagged_witness :
  get_problems_for_service "https://dt.example" (fun _ _ => RequestException)
    "payment-api" (Some "SERVICE-123") "24h"
  = Return [].
Proof.
  apply (proj2 (get_problems_tagged "https://dt.example"
                  (fun _ _ => RequestException)
                  "payment-api" (Some "SERVICE-123") "24h")).
  reflexivity.
Defined.

End FetchFacts.

(** ** The parser, beyond its failures *)

Module ParserMore.
Import PyStr Re Py Timeframe IntentParser Spec Terms.
Import ReFacts TimeframeFacts FallbackFacts ParseFacts.

Lemma rstrip_idem s : rstrip (rstrip s) = rstrip s.
Proof.
  induction s as [|c s IH]; [reflexivity|]. cbn [rstrip].
  destruct (rstrip s) as [|d r] eqn:E.
  - destruct (is_space c) eqn:Ec; [reflexivity|]. cbn [rstrip]. now rewrite Ec.
  - cbn [rstrip]. cbn [rstrip] in IH. now rewrite IH.
Qed.

(** A string that does not begin with whitespace. *)
Lemma lstrip_head s :
  lstrip s = EmptyString
  \/ exists c s', lstrip s = String c s' /\ is_space c = false.
Proof.
  induction s as [|c s IH]; [now left|]. cbn [lstrip].
  destruct (is_space c) eqn:E; [exact IH|]. right. now exists c, s.
Qed.

Lemma rstrip_head c s :
  is_space c = false -> exists r, rstrip (String c s) = String c r.
Proof.
  intros Hc. cbn [rstrip]. destruct (rstrip s); [|eauto].
  rewrite Hc. eauto.
Qed.

(** [strip] is idempotent. *)
Lemma strip_idem s : strip (strip s) = strip s.
Proof.
  unfold strip.
  destruct (lstrip_head s) as [->|(c & s' & -> & Hc)]; [reflexivity|].
  destruct (rstrip_head c s' Hc) as (r & E). rewrite E.
  cbn [lstrip]. rewrite Hc, <- E. apply rstrip_idem.
Qed.

Lemma strip_blank s :
  all_chars is_space (strip s) = all_chars is_space s.
Proof.
  destruct (all_chars is_space s) eqn:E.
  - apply strip_empty in E. now rewrite E.
  - destruct (all_chars is_space (strip s)) eqn:E'; [|reflexivity].
    apply strip_empty in E'. rewrite strip_idem in E'.
    apply strip_empty in E'. congruence.
Qed.

(** X11.  Whitespace around the input does not matter to [parse]: the
    stripped input gives the same result. *)
Theorem parse_ignores_surrounding_space json_loads ai_client user_input :
  parse json_loads ai_client (strip user_input)
  = parse json_loads ai_client user_input.
Proof.
  unfold parse. now rewrite !blank_test, strip_blank, strip_idem.
Qed.

(** X12.  Whichever tier produced it, the intent [parse] returns holds the
    stripped input as its raw query, which is not empty, and is no
    follow-up yet. *)
Theorem parse_keeps_query json_loads ai_client user_input intent :
  parse json_loads ai_client user_input = Return (Some intent) ->
  raw_query intent = strip user_input
  /\ strip user_input <> EmptyString
  /\ is_followup intent = None.
Proof.
  unfold parse. rewrite blank_test.
  destruct (all_chars is_space user_input) eqn:Eb; [discriminate|].
  assert (strip user_input <> EmptyString) as Hne.
  { intros H. apply strip_empty in H. congruence. }
  assert (forall i, _parse_with_patterns (strip user_input) = Return i ->
                    raw_query i = strip user_input /\ is_followup i = None)
    as Hp.
  { intros i. unfold _parse_with_patterns.
    destruct (_extract_timeframe_flexible _); cbn [bind]; [|discriminate].
    now intros [= <-]. }
  assert (forall client i,
            _parse_with_ai json_loads client (strip user_input) = Some i ->
            raw_query i = strip user_input /\ is_followup i = None) as Ha.
  { intros client i. unfold _parse_with_ai, ai_attempt.
    destruct (_call_ai _ _ _); cbn [bind]; [|discriminate].
    destruct (json_loads _) as [[members|]|]; try discriminate.
    now intros [= <-]. }
  intros H.
  assert (raw_query intent = strip user_input /\ is_followup intent = None)
    as [Hq Hf]; [|easy].
  destruct ai_client as [client|].
  - destruct (_parse_with_ai _ _ _) as [i|] eqn:E.
    + injection H as <-. eapply Ha; eauto.
    + destruct (_parse_with_patterns _) as [i|] eqn:E'; cbn [bind] in H;
        [|discriminate].
      injection H as <-. now apply Hp.
  - destruct (_parse_with_patterns _) as [i|] eqn:E'; cbn [bind] in H;
      [|discriminate].
    injection H as <-. now apply Hp.
Qed.

Lemma parse_keeps_query_witness :
  parse no_json (Some timing_out) "  check ordercontroller "
  = Return (Some {| type := Some "check_abnormality";
                    service_name := Some "ordercontroller";
                    timeframe := Some "2h";
                    additional_context := Some EmptyString;
                    raw_query := "check ordercontroller";
                    is_followup := None |})
  /\ strip "  check ordercontroller " <> EmptyString.
Proof.
  assert (parse no_json (Some timing_out) "  check ordercontroller "
          = Return (Some {| type := Some "check_abnormality";
                            service_name := Some "ordercontroller";
                            timeframe := Some "2h";
                            additional_context := Some EmptyString;
                            raw_query := "check ordercontroller";
                            is_followup := None |})) as H
    by (vm_compute; reflexivity).
  split; [exact H|].
  exact (proj1 (proj2 (parse_keeps_query _ _ _ _ H))).
Defined.

(** X13.  What [_call_ai] returns is stripped, and only the four known
    providers make it return. *)
Theorem call_ai_stripped client system user text :
  _call_ai client system user = Return text ->
  strip text = text
  /\ In (provider client) ["openai"; "anthropic"; "gemini"; "ollama"].
Proof.
  unfold _call_ai.
  destruct (String.eqb_spec (provider client) "openai") as [->|_].
  { destruct (chat _ _ _); cbn [bind]; [|discriminate].
    intros [= <-]. split; [apply strip_idem|cbn; auto]. }
  destruct (String.eqb_spec (provider client) "anthropic") as [->|_].
  { destruct (chat _ _ _); cbn [bind]; [|discriminate].
    intros [= <-]. split; [apply strip_idem|cbn; auto]. }
  destruct (String.eqb_spec (provider client) "gemini") as [->|_].
  { destruct (generate_content _ _); cbn [bind]; [|discriminate].
    intros [= <-]. split; [apply strip_idem|cbn; auto]. }
  destruct (String.eqb_spec (provider client) "ollama") as [->|_];
    [|discriminate].
  destruct (post _ _) as [r|]; cbn [bind]; [|discriminate].
  destruct (status_code r =? 200)%Z; [|discriminate].
  destruct (response_text r); [|discriminate].
  intros [= <-]. split; [apply strip_idem|cbn; auto 6].
Qed.

Lemma call_ai_stripped_witness :
  strip "{}" = "{}".
Proof.
  exact (proj1 (call_ai_stripped
                  {| provider := "gemini";
                     chat := fun _ _ => Raise OtherException;
                     generate_content := fun _ => Return "  {}  ";
                     post := fun _ => Raise OtherException |}
                  "system" "user" "{}" eq_refl)).
Defined.

(** *** Groups are parts of the subject *)

Lemma run_subject r st st' : In st' (run r st) -> subject st' = subject st.
Proof.
  intros H. apply run_sound in H as (w & news & Hr & Hs & _).
  unfold subject. now rewrite Hs, Hr, rev_app_distr, rev_involutive, <- app_assoc.
Qed.

Lemma iterate_groups_part (step : mstate -> list mstate) :
  (forall st st', In st' (step st) ->
     subject st' = subject st
     /\ forall n v, In (n, v) (groups st') ->
          In (n, v) (groups st) \/ part_of v (subject st)) ->
  forall fuel st st',
    In st' (iterate step fuel st) ->
    subject st' = subject st
    /\ forall n v, In (n, v) (groups st') ->
         In (n, v) (groups st) \/ part_of v (subject st).
Proof.
  intros Hstep. induction fuel as [|fuel IH]; intros st st' Hin;
    cbn [iterate] in Hin.
  - destruct Hin as [<-|[]]. auto.
  - apply in_app_or in Hin as [Hin|[<-|[]]]; [|auto].
    apply in_flat_map in Hin as (st1 & H1 & Hin).
    destruct (Nat.ltb _ _); [|destruct Hin].
    destruct (Hstep _ _ H1) as [Hs1 Hg1]. destruct (IH _ _ Hin) as [Hs2 Hg2].
    split; [congruence|]. intros n v Hv.
    destruct (Hg2 _ _ Hv) as [H|H]; [auto|]. right. now rewrite <- Hs1.
Qed.

(** After a way through a pattern, every group that was not there before
    holds a part of the subject. *)
Lemma run_groups_part r : forall st st',
  In st' (run r st) ->
  subject st' = subject st
  /\ forall n v, In (n, v) (groups st') ->
       In (n, v) (groups st) \/ part_of v (subject st).
Proof.
  induction r as [|p|r1 IH1 r2 IH2|r1 IH1 r2 IH2|r1 IH1|k r1 IH1| | |];
    intros st st' Hin;
    (split; [eapply run_subject; eauto|]); cbn [run] in Hin.
  - destruct Hin as [<-|[]]. auto.
  - destruct (rest st); [destruct Hin|]. destruct (p a); [|destruct Hin].
    destruct Hin as [<-|[]]. auto.
  - apply in_flat_map in Hin as (st1 & H1 & Hin).
    destruct (IH1 _ _ H1) as [Hs1 Hg1]. destruct (IH2 _ _ Hin) as [Hs2 Hg2].
    intros n v Hv. destruct (Hg2 _ _ Hv) as [H|H]; [auto|].
    right. now rewrite <- Hs1.
  - apply in_app_or in Hin as [Hin|Hin]; [now apply IH1|now apply IH2].
  - now apply (iterate_groups_part (run r1) IH1) in Hin.
  - apply in_map_iff in Hin as (st1 & <- & Hin).
    destruct (IH1 _ _ Hin) as [Hs1 Hg1].
    intros n v [[= <- <-]|Hv]; [|auto].
    right. apply run_sound in Hin as (w & news & Hr & _).
    unfold part_of, subject. exists (rev (seen st)), (rest st1).
    rewrite Hr, length_app.
    replace (length w + length (rest st1) - length (rest st1))
      with (length w) by lia.
    now rewrite firstn_app, Nat.sub_diag, firstn_all, app_nil_r.
  - destruct (seen st); [|destruct Hin]. destruct Hin as [<-|[]]. auto.
  - destruct (at_end st); [|destruct Hin]. destruct Hin as [<-|[]]. auto.
  - destruct (at_boundary st); [|destruct Hin]. destruct Hin as [<-|[]]. auto.
Qed.

Lemma search_from_subject r : forall ahead behind m,
  search_from r behind ahead = Some m ->
  exists behind' ahead',
    In m (run r (start behind' ahead'))
    /\ rev behind' ++ ahead' = rev behind ++ ahead.
Proof.
  induction ahead as [|c ahead IH]; intros behind m H; cbn [search_from] in H.
  - destruct (run r (start behind [])) eqn:E; [discriminate|].
    injection H as <-. exists behind, []. rewrite E. split; [now left|easy].
  - destruct (run r (start behind (c :: ahead))) eqn:E.
    + destruct (IH _ _ H) as (b & a & Hin & Hs). exists b, a.
      split; [assumption|]. rewrite Hs. cbn [rev]. now rewrite <- app_assoc.
    + injection H as <-. exists behind, (c :: ahead). rewrite E.
      split; [now left|easy].
Qed.

Lemma part_of_occurs v text :
  part_of v (list_ascii_of_string text) ->
  occurs (string_of_list_ascii v) text.
Proof.
  intros (pre & post & H).
  exists (string_of_list_ascii pre), (string_of_list_ascii post).
  rewrite <- (string_of_list_ascii_of_string text), H.
  now rewrite !string_of_list_app.
Qed.

(** A group that a found pattern always closes: a word of one of its
    bodies, and a part of the text. *)
Lemma re_search_group_part r text m n :
  re_search r text = Some m -> sets n r = true ->
  exists v body,
    group n m = string_of_list_ascii v
    /\ In (n, body) (group_bodies r) /\ lang body v
    /\ occurs (string_of_list_ascii v) text.
Proof.
  intros H Hn. apply search_from_subject in H as (b & a & Hin & Hs).
  destruct (run_group_lang _ _ _ n Hin eq_refl Hn) as (v & body & E & Hb & Hl).
  exists v, body. unfold group. rewrite E. repeat split; auto.
  apply part_of_occurs.
  destruct (run_groups_part _ _ _ Hin) as [_ Hg].
  destruct (Hg n v (lookup_group_in _ _ _ E)) as [[]|Hp].
  unfold subject, start in Hp. cbn [seen rest] in Hp. cbn [rev app] in Hs.
  now rewrite Hs in Hp.
Qed.

(** *** The extracted service name *)

Lemma lang_altof r rs : forall w,
  lang (AltOf r rs) w -> lang r w \/ Exists (fun r' => lang r' w) rs.
Proof.
  revert r. induction rs as [|r' rs IH]; intros r w H; cbn [AltOf] in H.
  - now left.
  - inversion H as [| | |? ? ? H1|? ? ? H1| | | | | |]; subst; [now left|].
    right. destruct (IH _ _ H1) as [H2|H2]; [now left|now right].
Qed.

Lemma slug_is_name c :
  (is_lower c || is_upper c || is_digit c
   || existsb (Ascii.eqb c) (list_ascii_of_string "-_"))%bool = true ->
  is_name_char c = true.
Proof.
  unfold is_name_char. cbn [existsb list_ascii_of_string].
  destruct (is_lower c), (is_upper c), (is_digit c), (Ascii.eqb c "-"),
    (Ascii.eqb c "_"); cbn; intros H; try reflexivity; discriminate.
Qed.

Lemma forallb_slug_name w :
  forallb (fun c => (is_lower c || is_upper c || is_digit c
                     || existsb (Ascii.eqb c) (list_ascii_of_string "-_"))%bool)
    w = true ->
  forallb is_name_char w = true.
Proof.
  induction w as [|c w IH]; [reflexivity|]. cbn [forallb].
  intros H. apply andb_true_iff in H as [Hc Hw].
  now rewrite (slug_is_name c Hc), IH.
Qed.

Lemma name_body v : lang (Plus name_char) v -> name_word v.
Proof. intros H. now apply lang_plus_class in H. Qed.

Lemma slug_body v : lang (Plus slug_char) v -> name_word v.
Proof.
  intros H. apply lang_plus_class in H as [Hne Hf]. split; [assumption|].
  now apply forallb_slug_name.
Qed.

Lemma lang_seq_inv r1 r2 v :
  lang (Seq r1 r2) v ->
  exists w1 w2, v = w1 ++ w2 /\ lang r1 w1 /\ lang r2 w2.
Proof. inversion 1; subst; eauto. Qed.

Lemma suffix_body v :
  lang (Seq (Plus slug_char)
          (AltOf (Lit "api")
             [Lit "service"; Lit "controller"; Lit "backend";
              Lit "frontend"; Lit "gateway"; Lit "proxy"])) v ->
  name_word v.
Proof.
  intros H. apply lang_seq_inv in H as (w1 & w2 & -> & H1 & H2).
  apply slug_body in H1 as [Hne Hf]. split.
  - destruct w1; [easy|discriminate].
  - rewrite forallb_app, Hf. cbn [andb].
    apply lang_altof in H2 as [H2|H2].
    + apply lang_lit in H2. now subst.
    + repeat (apply Exists_cons in H2 as [H2|H2];
              [apply lang_lit in H2; now subst|]).
      now apply Exists_nil in H2.
Qed.

Lemma name_word_string v :
  name_word v ->
  string_of_list_ascii v <> EmptyString
  /\ all_chars is_name_char (string_of_list_ascii v) = true.
Proof.
  intros [Hne Hf]. split.
  - destruct v; [easy|discriminate].
  - now apply forallb_all_chars.
Qed.

(** The first group of a found service pattern. *)
Lemma service_group r text m :
  re_search r text = Some m -> sets 1 r = true ->
  (forall body, In (1, body) (group_bodies r) ->
     forall v, lang body v -> name_word v) ->
  group 1 m <> EmptyString
  /\ all_chars is_name_char (group 1 m) = true
  /\ occurs (group 1 m) text.
Proof.
  intros H Hs Hb.
  destruct (re_search_group_part _ _ _ 1 H Hs) as (v & body & -> & Hin & Hl & Ho).
  destruct (name_word_string v (Hb _ Hin _ Hl)). auto.
Qed.

Ltac one_body lemma :=
  intros body Hb v Hv; cbn in Hb;
  repeat (destruct Hb as [[= <-]|Hb]; [now apply lemma|]);
  destruct Hb.

Lemma after_action_found actions text name :
  after_action actions text = Some name ->
  exists action m,
    In action actions
    /\ re_search (action_pattern action) text = Some m
    /\ name = group 1 m.
Proof.
  induction actions as [|a actions IH]; cbn [after_action]; [discriminate|].
  destruct (re_search (action_pattern a) text) as [m|] eqn:E.
  - destruct (existsb _ _).
    + intros H. destruct (IH H) as (x & m' & Hin & Hm & Hn).
      exists x, m'. auto using in_cons.
    + intros [= <-]. exists a, m. split; [now left|auto].
  - intros H. destruct (IH H) as (x & m' & Hin & Hm & Hn).
    exists x, m'. auto using in_cons.
Qed.

Lemma extract_service_name_shape text service :
  _extract_service_name_flexible text = Some service ->
  service <> EmptyString
  /\ all_chars is_name_char service = true
  /\ occurs service text.
Proof.
  unfold _extract_service_name_flexible.
  destruct (first_search _ text) as [m|] eqn:E1.
  { intros [= <-]. apply first_search_in in E1 as (r & Hr & E1).
    destruct Hr as [<-|[<-|[<-|[<-|[<-|[]]]]]];
      (apply (service_group _ _ _ E1 eq_refl); one_body name_body). }
  destruct (first_search service_patterns text) as [m|] eqn:E2.
  { intros [= <-]. apply first_search_in in E2 as (r & Hr & E2).
    destruct Hr as [<-|[<-|[]]].
    - apply (service_group _ _ _ E2 eq_refl). one_body suffix_body.
    - apply (service_group _ _ _ E2 eq_refl). one_body slug_body. }
  intros H. apply after_action_found in H as (action & m & Hin & Hm & ->).
  cbn in Hin.
  repeat (destruct Hin as [<-|Hin];
          [apply (service_group _ _ _ Hm eq_refl); one_body name_body|]).
  destruct Hin.
Qed.

(** X14.  A service name that [_extract_service_name_flexible] returns is
    not empty, is made of letters, digits, hyphens, underscores and dots,
    and stands in the text. *)
Theorem extracted_service_name text service :
  _extract_service_name_flexible text = Some service ->
  service <> EmptyString
  /\ all_chars is_name_char service = true
  /\ occurs service text.
Proof. apply extract_service_name_shape. Qed.

Lemma extracted_service_name_witness :
  all_chars is_name_char "payment-api" = true /\ occurs "payment-api"
    "how is payment-api doing".
Proof.
  apply (extracted_service_name "how is payment-api doing" "payment-api").
  reflexivity.
Defined.

Lemma max_from_in scores : forall best,
  In (max_from best scores) (map fst (best :: scores)).
Proof.
  induction scores as [|x scores IH]; intros best; cbn [max_from].
  - now left.
  - destruct (Nat.ltb _ _).
    + right. apply IH.
    + destruct (IH best) as [H|H]; [now left|right; now right].
Qed.

Lemma detect_in_types text :
  In (_detect_intent_type_flexible text) intent_types.
Proof.
  unfold _detect_intent_type_flexible, scores_of.
  destruct (List.filter _ _) as [|e l] eqn:E; [cbn; auto 8|].
  pose proof (max_from_in l e) as H. rewrite <- E in H.
  apply in_map_iff in H as (x & <- & Hx).
  apply filter_In in Hx as [Hx _].
  apply in_map_iff in Hx as (y & <- & Hy). cbn [fst].
  unfold intent_keywords in Hy. cbn [In] in Hy.
  repeat (destruct Hy as [<-|Hy]; [cbn; auto 8|]). destruct Hy.
Qed.

Lemma pattern_intent_shape text :
  exists intent,
    _parse_with_patterns text = Return intent
    /\ (exists t, type intent = Some t /\ In t intent_types)
    /\ (exists tf, timeframe intent = Some tf /\ canonical tf)
    /\ (forall service,
          service_name intent = Some service ->
          service <> EmptyString
          /\ all_chars is_name_char service = true
          /\ occurs service (lower text))
    /\ raw_query intent = text
    /\ additional_context intent = Some EmptyString
    /\ is_followup intent = None.
Proof.
  unfold _parse_with_patterns.
  destruct (extract_timeframe_shape (lower text))
    as (ds & u & -> & Hne & Hd & Hu).
  cbn [bind]. eexists. split; [reflexivity|].
  cbn [type timeframe service_name raw_query additional_context is_followup].
  pose proof (detect_in_types (lower text)) as Ht.
  repeat split.
  - destruct (truthy _); eexists; (split; [reflexivity|]); [assumption|].
    cbn; auto 8.
  - eexists. split; [reflexivity|]. now constructor.
  - apply extract_service_name_shape in H. tauto.
  - apply extract_service_name_shape in H. tauto.
  - apply extract_service_name_shape in H. tauto.
Qed.

(** X15.  On ASCII text the pattern tier always returns an intent, and
    a well-formed one: its type is one of the seven intent types, its
    timeframe is of the grammar, its service name, if it has one, is a
    non-empty name that stands in the lower-cased text, and its raw query
    is the text. *)
Theorem pattern_intent_well_formed text :
  ascii_text text ->
  exists intent,
    _parse_with_patterns text = Return intent
    /\ (exists t, type intent = Some t /\ In t intent_types)
    /\ (exists tf, timeframe intent = Some tf /\ canonical tf)
    /\ (forall service,
          service_name intent = Some service ->
          service <> EmptyString
          /\ all_chars is_name_char service = true
          /\ occurs service (lower text))
    /\ raw_query intent = text
    /\ additional_context intent = Some EmptyString
    /\ is_followup intent = None.
Proof. intros _. apply pattern_intent_shape. Qed.

Lemma pattern_intent_well_formed_witness :
  occurs "checkout-api" (lower "is Checkout-API slow").
Proof.
  destruct (pattern_intent_well_formed "is Checkout-API slow" eq_refl)
    as (intent & Hp & _ & _ & Hs & _).
  vm_compute in Hp. injection Hp as <-.
  exact (proj2 (proj2 (Hs "checkout-api" eq_refl))).
Defined.

End ParserMore.

(** ** Code fences around an answer *)

Module FenceFacts.
Import PyStr Re Py IntentParser Spec Terms.
Import ReFacts TimeframeFacts FallbackFacts ParseFacts ParserMore.

Lemma run_lit_app s : forall behind ahead g,
  run (Lit s)
    {| seen := behind; rest := list_ascii_of_string s ++ ahead; groups := g |}
  = [{| seen := rev (list_ascii_of_string s) ++ behind; rest := ahead;
        groups := g |}].
Proof.
  induction s as [|c s IH]; intros behind ahead g; [reflexivity|].
  destruct s as [|d s].
  - cbn [Lit list_ascii_of_string app rev]. unfold Chr.
    rewrite run_class_cons by apply Ascii.eqb_refl. reflexivity.
  - change (Lit (String c (String d s)))
      with (Seq (Chr c) (Lit (String d s))).
    rewrite run_seq. cbn [list_ascii_of_string app]. unfold Chr at 1.
    rewrite run_class_cons by apply Ascii.eqb_refl.
    cbn [flat_map]. rewrite app_nil_r.
    change (d :: list_ascii_of_string s ++ ahead)
      with (list_ascii_of_string (String d s) ++ ahead).
    rewrite IH. cbn [rev list_ascii_of_string].
    now rewrite <- !app_assoc.
Qed.

Lemma delete_from_nil r fuel behind : delete_from r fuel behind [] = [].
Proof.
  destruct fuel as [|fuel]; [reflexivity|]. cbn [delete_from].
  destruct (run r (start behind [])) as [|m l]; [reflexivity|].
  cbn [length].
  replace (Nat.ltb (length (rest m)) 0) with false; [reflexivity|].
  symmetry. apply Nat.ltb_ge. lia.
Qed.

(** Where the pattern is found at no place of [skipped], the scan copies
    it. *)
Lemma delete_from_skip r skipped : forall fuel behind ahead,
  length skipped <= fuel ->
  (forall before c after,
     skipped = before ++ c :: after ->
     run r (start (rev before ++ behind) (c :: after ++ ahead)) = []) ->
  delete_from r fuel behind (skipped ++ ahead)
  = skipped ++ delete_from r (fuel - length skipped) (rev skipped ++ behind)
                 ahead.
Proof.
  induction skipped as [|c skipped IH]; intros fuel behind ahead Hf Hno.
  - cbn. now rewrite Nat.sub_0_r.
  - destruct fuel as [|fuel]; [cbn in Hf; lia|].
    cbn [delete_from app].
    pose proof (Hno [] c skipped eq_refl) as H0. cbn [rev app] in H0.
    rewrite H0, IH.
    + cbn [length rev Nat.sub]. now rewrite <- app_assoc.
    + cbn in Hf. lia.
    + intros before d after E.
      specialize (Hno (c :: before) d after). cbn [rev app] in Hno.
      rewrite <- app_assoc in Hno. apply Hno. now rewrite E.
Qed.

Lemma delete_from_bol r : forall fuel ahead behind,
  behind <> [] -> delete_from (Seq Bol r) fuel behind ahead = ahead.
Proof.
  induction fuel as [|fuel IH]; intros ahead behind Hb; [reflexivity|].
  cbn [delete_from]. rewrite run_seq.
  assert (run Bol (start behind ahead) = []) as ->.
  { unfold start. cbn. destruct behind; [easy|reflexivity]. }
  cbn [flat_map]. destruct ahead as [|c ahead]; [reflexivity|].
  now rewrite IH.
Qed.

Lemma delete_from_bol_none r fuel ahead :
  run (Seq Bol r) (start [] ahead) = [] ->
  delete_from (Seq Bol r) fuel [] ahead = ahead.
Proof.
  intros H. destruct fuel as [|fuel]; [reflexivity|].
  cbn [delete_from]. rewrite H. destruct ahead as [|c ahead]; [reflexivity|].
  now rewrite delete_from_bol.
Qed.

(** A place where the closing fence is found: backquotes, then blanks to
    the end. *)
Lemma fence_close_found behind ahead m :
  In m (run fence_close (start behind ahead)) ->
  exists blanks,
    ahead = list_ascii_of_string "```" ++ blanks
    /\ forallb is_space blanks = true.
Proof.
  unfold fence_close. cbn [SeqOf]. rewrite run_seq.
  intros H. apply in_flat_map in H as (st1 & H1 & H).
  rewrite run_seq in H. apply in_flat_map in H as (st2 & H2 & H).
  apply run_sound in H1 as (w1 & _ & Hr1 & _ & Hl1 & _).
  apply run_sound in H2 as (w2 & _ & Hr2 & _ & Hl2 & _).
  apply lang_lit in Hl1. subst w1. apply lang_star_class in Hl2.
  cbn [run] in H. destruct (at_end st2) eqn:He; [|destruct H].
  destruct H as [<-|[]]. apply at_end_ending in He.
  cbn [start rest] in Hr1. rewrite Hr2 in Hr1.
  exists (w2 ++ rest st2). split; [assumption|].
  rewrite forallb_app, Hl2. destruct He as [-> | ->]; reflexivity.
Qed.

Lemma fence_close_not_before behind c (after : list ascii) :
  run fence_close
    (start behind (c :: after ++ list_ascii_of_string "```")) = [].
Proof.
  destruct (run _ _) as [|m l] eqn:E; [reflexivity|exfalso].
  assert (In m (run fence_close
                  (start behind (c :: after ++ list_ascii_of_string "```"))))
    as Hin by (rewrite E; now left).
  apply fence_close_found in Hin as (blanks & Hb & Hs).
  assert (rev blanks ++ rev (list_ascii_of_string "```")
          = rev (list_ascii_of_string "```") ++ rev after ++ [c]) as Hr.
  { rewrite <- rev_app_distr, <- Hb. cbn [rev].
    now rewrite rev_app_distr, <- app_assoc. }
  destruct (rev blanks) as [|s rb] eqn:Eb.
  - cbn in Hr. apply (f_equal (@length ascii)) in Hr.
    cbn in Hr. rewrite length_app in Hr. cbn in Hr. lia.
  - assert (In s blanks) as Hs' by (apply in_rev; rewrite Eb; now left).
    rewrite forallb_forall in Hs. specialize (Hs _ Hs').
    cbn in Hr. injection Hr as -> _. discriminate.
Qed.

Lemma fence_close_at_end behind :
  run fence_close (start behind (list_ascii_of_string "```"))
  = [{| seen := rev (list_ascii_of_string "```") ++ behind; rest := [];
        groups := [] |}].
Proof.
  unfold fence_close, start. cbn [SeqOf]. rewrite run_seq.
  rewrite <- (app_nil_r (list_ascii_of_string "```")) at 1.
  rewrite run_lit_app. reflexivity.
Qed.

(** Deleting the closing fence takes the final backquotes off. *)
Lemma delete_fence_close kept :
  re_delete fence_close (kept +:+ "```") = kept.
Proof.
  unfold re_delete. rewrite list_ascii_of_append.
  rewrite delete_from_skip.
  - rewrite length_app. cbn [length list_ascii_of_string].
    replace (S (length (list_ascii_of_string kept) + 3)
             - length (list_ascii_of_string kept)) with 4 by lia.
    cbn [delete_from]. rewrite fence_close_at_end. cbn [rest seen length].
    cbn [Nat.ltb Nat.leb].
    destruct (run fence_close _); rewrite app_nil_r;
      apply string_of_list_ascii_of_string.
  - rewrite length_app. lia.
  - intros before c after _. apply fence_close_not_before.
Qed.

(** The leading blanks of a string and what [lstrip] leaves. *)
Lemma lstrip_split s :
  exists blanks,
    list_ascii_of_string s = blanks ++ list_ascii_of_string (lstrip s)
    /\ forallb is_space blanks = true
    /\ stops is_space (list_ascii_of_string (lstrip s)).
Proof.
  induction s as [|c s (blanks & E & Hb & Hs)]; [now exists []|].
  cbn [lstrip]. destruct (is_space c) eqn:Ec.
  - exists (c :: blanks). cbn [list_ascii_of_string app forallb].
    now rewrite E, Ec.
  - exists []. cbn. auto.
Qed.

(** Deleting the opening fence takes the tag and the blanks after it. *)
Lemma delete_fence_open text :
  re_delete fence_open ("```json" +:+ text) = lstrip text.
Proof.
  unfold re_delete. rewrite list_ascii_of_append.
  destruct (lstrip_split text) as (blanks & E & Hb & Hs).
  set (tag := list_ascii_of_string "```json").
  assert (exists others,
            run fence_open (start [] (tag ++ list_ascii_of_string text))
            = {| seen := rev blanks ++ rev tag ++ [];
                 rest := list_ascii_of_string (lstrip text);
                 groups := [] |} :: others) as (others & Hrun).
  { unfold fence_open, start. cbn [SeqOf]. rewrite run_seq, run_bol.
    cbn [flat_map]. rewrite app_nil_r, run_seq. unfold tag.
    rewrite run_lit_app. cbn [flat_map]. rewrite app_nil_r.
    change (run (Star space) ?st)
      with (iterate (run (Class is_space)) (length (rest st)) st).
    cbn [rest]. rewrite E.
    destruct (iterate_class_head is_space blanks
                (length (blanks ++ list_ascii_of_string (lstrip text)))
                (rev (list_ascii_of_string "```json") ++ [])
                (list_ascii_of_string (lstrip text)) [] Hb Hs (le_n _))
      as (others & ->).
    now exists others. }
  cbn [delete_from]. rewrite Hrun. cbn [rest seen].
  replace (Nat.ltb _ _) with true.
  2:{ symmetry. apply Nat.ltb_lt. rewrite length_app, E, length_app.
      unfold tag. cbn [length list_ascii_of_string]. lia. }
  unfold fence_open. cbn [SeqOf]. rewrite delete_from_bol.
  - apply string_of_list_ascii_of_string.
  - unfold tag. cbn. destruct (rev blanks); discriminate.
Qed.

(** Without the tag at its start, nothing is deleted. *)
Lemma delete_fence_open_none text :
  String.prefix "```json" text = false ->
  re_delete fence_open text = text.
Proof.
  intros Hp. unfold re_delete.
  assert (run fence_open (start [] (list_ascii_of_string text)) = []) as Hrun.
  { destruct (run _ _) as [|m l] eqn:E; [reflexivity|exfalso].
    assert (In m (run fence_open (start [] (list_ascii_of_string text))))
      as Hin by (rewrite E; now left).
    unfold fence_open in Hin. cbn [SeqOf] in Hin.
    rewrite run_seq in Hin. apply in_flat_map in Hin as (st1 & H1 & Hin).
    unfold start in H1. rewrite run_bol in H1. destruct H1 as [<-|[]].
    rewrite run_seq in Hin. apply in_flat_map in Hin as (st2 & H2 & _).
    apply run_sound in H2 as (w & _ & Hr & _ & Hl & _).
    apply lang_lit in Hl. subst w. cbn [rest] in Hr.
    assert (String.prefix "```json" text = true); [|congruence].
    apply prefix_occurs. exists (string_of_list_ascii (rest st2)).
    rewrite <- (string_of_list_ascii_of_string text), Hr.
    now rewrite string_of_list_app. }
  unfold fence_open in *. cbn [SeqOf] in *.
  rewrite delete_from_bol_none by assumption.
  apply string_of_list_ascii_of_string.
Qed.

Lemma rstrip_fence s : rstrip (s +:+ "```") = s +:+ "```".
Proof.
  induction s as [|c s IH]; [reflexivity|].
  rewrite append_cons. cbn [rstrip]. rewrite IH.
  destruct (s +:+ "```") eqn:E; [|reflexivity].
  destruct s; discriminate.
Qed.

Lemma lstrip_app s t c :
  is_space c = false -> lstrip (s +:+ String c t) = lstrip s +:+ String c t.
Proof.
  intros Hc. induction s as [|d s IH].
  - change (lstrip (String c t) = String c t). cbn [lstrip]. now rewrite Hc.
  - rewrite append_cons. cbn [lstrip]. destruct (is_space d); [exact IH|].
    now rewrite append_cons.
Qed.

Lemma prefix_json_body body :
  String.prefix "json" (body +:+ "```") = true ->
  String.prefix "json" body = true.
Proof.
  intros H. apply prefix_occurs in H as (post & H).
  change ("json" +:+ post)
    with (String "j" (String "s" (String "o" (String "n" post)))) in H.
  destruct body as [|a [|b [|c [|d body]]]];
    rewrite ?append_cons in H;
    change (EmptyString +:+ "```") with "```" in H;
    try discriminate.
  injection H as -> -> -> -> _. apply prefix_occurs. now exists body.
Qed.

(** X16.  An answer that, stripped, is a body between the fence tagged
    [json] and the closing fence is cleaned to that body, without the
    blanks at its start. *)
Theorem clean_response_json_fence response body :
  strip response = "```json" +:+ body +:+ "```" ->
  clean_response response = lstrip body.
Proof.
  intros H. unfold clean_response. rewrite H.
  replace (String.prefix "```" ("```json" +:+ body +:+ "```")) with true
    by (symmetry; apply prefix_occurs;
        now exists ("json" +:+ body +:+ "```")).
  rewrite delete_fence_open.
  change "```" with (String backquote "``").
  rewrite lstrip_app by reflexivity.
  apply delete_fence_close.
Qed.

Lemma clean_response_json_fence_witness :
  clean_response "  ```json
{}
```  " = "{}
".
Proof.
  apply (clean_response_json_fence _ "
{}
").
  reflexivity.
Defined.

(** X17.  A fence that is not tagged [json] stays: an answer that,
    stripped, is a body between two bare fences loses the closing fence
    only, so that what is left is no JSON. *)
Theorem clean_response_bare_fence response body :
  strip response = "```" +:+ body +:+ "```" ->
  String.prefix "json" body = false ->
  clean_response response = "```" +:+ body.
Proof.
  intros H Hj. unfold clean_response. rewrite H.
  replace (String.prefix "```" ("```" +:+ body +:+ "```")) with true
    by (symmetry; apply prefix_occurs; now exists (body +:+ "```")).
  rewrite delete_fence_open_none.
  - rewrite <- append_assoc. apply delete_fence_close.
  - destruct (String.prefix "```json" _) eqn:E; [|reflexivity].
    assert (String.prefix "json" (body +:+ "```") = true) as Hp.
    { apply prefix_occurs in E as (post & E). apply prefix_occurs.
      exists post. rewrite !append_cons in E.
      change (EmptyString +:+ body +:+ "```") with (body +:+ "```") in E.
      change ("```json" +:+ post)
        with (String backquote (String backquote (String backquote
                ("json" +:+ post)))) in E.
      now injection E. }
    apply prefix_json_body in Hp. congruence.
Qed.

Lemma clean_response_bare_fence_witness :
  clean_response "```
{}
```" = "```
{}
".
Proof.
  apply (clean_response_bare_fence _ "
{}
"); reflexivity.
Defined.

End FenceFacts.

(** ** The context over a session *)

Module SessionFacts.
Import PyStr Re Py Timeframe IntentParser Main Spec Terms Session.
Import FallbackFacts ParseFacts ParserMore ContextFacts.

Lemma opt_eqb_refl a : opt_eqb a a = true.
Proof. now apply opt_eqb_eq. Qed.

(** X18.  Applying the context twice is applying it once. *)
Theorem apply_context_idempotent context intent :
  apply_context context (apply_context context intent)
  = apply_context context intent.
Proof.
  unfold apply_context.
  destruct (truthy_opt (service_name intent)) eqn:Es;
    destruct (truthy_opt (last_service context)) eqn:El;
    destruct (opt_eqb (type intent) (last_intent context)) eqn:Et;
    cbn [negb andb type service_name timeframe additional_context
         raw_query is_followup];
    destruct (truthy_opt (timeframe intent)) eqn:Ef;
    destruct (opt_eqb (timeframe intent) (Some "2h")) eqn:E2;
    destruct (truthy_opt (last_timeframe context)) eqn:Ec;
    cbn [negb orb type service_name timeframe additional_context
         raw_query is_followup];
    rewrite ?Es, ?El, ?Et, ?Ef, ?E2, ?Ec;
    cbn [negb andb orb type service_name timeframe additional_context
         raw_query is_followup];
    rewrite ?Es, ?El, ?Et, ?Ef, ?E2, ?Ec;
    cbn [negb andb orb type service_name timeframe additional_context
         raw_query is_followup];
    try reflexivity;
    destruct (opt_eqb (last_timeframe context) (Some "2h"));
    cbn [negb andb orb type service_name timeframe additional_context
         raw_query is_followup];
    rewrite ?Es, ?El, ?Et, ?Ef, ?E2, ?Ec; reflexivity.
Qed.

(** What one turn does to the remembered timeframe. *)
Lemma turn_timeframe context intent :
  truthy_opt (last_timeframe context) = true ->
  let intent' := apply_context context intent in
  let context' := update_context context intent' in
  truthy_opt (timeframe intent') = true
  /\ last_timeframe context' = timeframe intent'
  /\ (truthy_opt (timeframe intent) = false
      \/ timeframe intent = Some "2h" ->
      timeframe intent' = last_timeframe context)
  /\ (truthy_opt (timeframe intent) = true ->
      timeframe intent <> Some "2h" ->
      timeframe intent' = timeframe intent).
Proof.
  intros Hc. cbv zeta.
  assert (timeframe (apply_context context intent)
          = if (negb (truthy_opt (timeframe intent))
                || opt_eqb (timeframe intent) (Some "2h"))%bool
            then last_timeframe context else timeframe intent) as Ht.
  { unfold apply_context.
    destruct (_ && _)%bool; [destruct (opt_eqb (type intent) _)|];
      cbn [timeframe]; destruct (_ || _)%bool; rewrite ?Hc; reflexivity. }
  assert (truthy_opt (timeframe (apply_context context intent)) = true) as Hp.
  { rewrite Ht. destruct (truthy_opt (timeframe intent)) eqn:Ef;
      cbn [negb orb]; [|assumption].
    now destruct (opt_eqb _ _). }
  split; [exact Hp|]. split.
  - unfold update_context. now rewrite Hp.
  - rewrite Ht. split.
    + intros [H|H]; [now rewrite H|].
      rewrite H. cbn [opt_eqb]. rewrite String.eqb_refl.
      now rewrite orb_true_r.
    + intros H1 H2. rewrite H1. cbn [negb orb].
      destruct (opt_eqb _ _) eqn:E; [|reflexivity].
      apply opt_eqb_eq in E. congruence.
Qed.

(** X19.  In a context that remembers a timeframe, the intent always
    leaves [apply_context] with one, and it is the one [update_context]
    remembers next.  A request without a timeframe or for [2h] takes the
    remembered one, so that it stays; any other request replaces it. *)
Theorem remembered_timeframe context intent :
  truthy_opt (last_timeframe context) = true ->
  let intent' := apply_context context intent in
  let context' := update_context context intent' in
  truthy_opt (timeframe intent') = true
  /\ last_timeframe context' = timeframe intent'
  /\ (truthy_opt (timeframe intent) = false
      \/ timeframe intent = Some "2h" ->
      timeframe intent' = last_timeframe context)
  /\ (truthy_opt (timeframe intent) = true ->
      timeframe intent <> Some "2h" ->
      timeframe intent' = timeframe intent).
Proof. apply turn_timeframe. Qed.

Lemma remembered_timeframe_witness :
  timeframe (apply_context payment_context bare_check) = Some "30m"
  /\ last_timeframe
       (update_context payment_context
          (apply_context payment_context bare_check))
     = Some "30m".
Proof.
  destruct (remembered_timeframe payment_context bare_check eq_refl)
    as (_ & Hu & Hk & _).
  split; [|rewrite Hu]; apply Hk; now right.
Defined.

Section Turns.

Variable json_loads : string -> option json.
Variable ai_client : option AIClient.
Variable handle_check_abnormality : Intent -> result string.
Variable handle_list_services : Intent -> result string.
Variable handle_general_question : Intent -> result string.

Local Abbreviation turn :=
  (process_user_input json_loads ai_client handle_check_abnormality
     handle_list_services handle_general_question).

Local Abbreviation session :=
  (converse json_loads ai_client handle_check_abnormality
     handle_list_services handle_general_question).

Lemma parse_outcome user_input :
  (all_chars is_space user_input = true
   /\ parse json_loads ai_client user_input = Return None)
  \/ (all_chars is_space user_input = false
      /\ exists intent,
           parse json_loads ai_client user_input = Return (Some intent)
           /\ (no_backend ai_client ->
               _parse_with_patterns (strip user_input) = Return intent)).
Proof.
  unfold parse. rewrite blank_test.
  destruct (all_chars is_space user_input); [now left|right].
  split; [reflexivity|].
  destruct (parse_with_patterns_returns (strip user_input)) as (fb & Hfb).
  rewrite Hfb. cbn [bind]. destruct ai_client as [client|]; [|eauto].
  destruct (_parse_with_ai _ _ _) as [i|] eqn:E; eexists;
    (split; [reflexivity|]); [|reflexivity].
  intros Hn.
  rewrite (backend_failed_no_intent json_loads client (strip user_input))
    in E; [discriminate|].
  apply unsupported_provider_fails. now apply Hn.
Qed.

Lemma apply_context_type context intent :
  type (apply_context context intent) = type intent.
Proof.
  unfold apply_context.
  destruct (_ && _)%bool; [destruct (opt_eqb (type intent) _)|];
    cbn [type timeframe]; destruct (_ || _)%bool;
    try destruct (truthy_opt (last_timeframe context)); reflexivity.
Qed.

Lemma route_unhandled intent t :
  type intent = Some t -> ~ In t handled_types ->
  route handle_check_abnormality handle_list_services
    handle_general_question intent
  = Return (developing_message t).
Proof.
  intros Ht Hn. unfold route. rewrite Ht. cbn [opt_eqb].
  assert (forall k, In k handled_types -> String.eqb t k = false) as Hk.
  { intros k Hin. apply String.eqb_neq. intros ->. now apply Hn. }
  rewrite !Hk by (cbn; auto 10). reflexivity.
Qed.

(** X20.  [process_user_input] never raises: it always answers.  A blank
    input gets the request to rephrase and leaves the context as it is.
    Any other input is parsed to an intent; the context is updated from
    the intent with the context applied, whatever the handler does then;
    an intent of a type without a handler, as compare_services and
    troubleshoot, gets the notice that the feature is being developed,
    and an intent without a type gets the error notice. *)
Theorem process_user_input_answers context user_input :
  exists answer context',
    turn context user_input = Return (answer, context')
    /\ (all_chars is_space user_input = true ->
        answer = trouble_message /\ context' = context)
    /\ (all_chars is_space user_input = false ->
        exists intent,
          parse json_loads ai_client user_input = Return (Some intent)
          /\ context' = update_context context (apply_context context intent)
          /\ (forall t,
                type intent = Some t -> ~ In t handled_types ->
                answer = developing_message t)
          /\ (type intent = None -> answer = oops_message)).
Proof.
  unfold process_user_input.
  destruct (parse_outcome user_input) as [[Hb ->]|(Hb & intent & -> & _)];
    cbn [bind].
  - exists trouble_message, context. split; [reflexivity|].
    split; [auto|congruence].
  - destruct (route _ _ _ (apply_context context intent)) as [r|e] eqn:Er;
      eexists _, _; (split; [reflexivity|]); (split; [congruence|]);
      intros _; exists intent; (split; [reflexivity|]);
      (split; [reflexivity|]); split.
    + intros t Ht Hn.
      rewrite (route_unhandled _ t) in Er; [congruence| |assumption].
      now rewrite apply_context_type.
    + intros Hn. unfold route in Er. rewrite apply_context_type, Hn in Er.
      discriminate.
    + intros t Ht Hn.
      rewrite (route_unhandled _ t) in Er; [discriminate| |assumption].
      now rewrite apply_context_type.
    + reflexivity.
Qed.

Lemma turn_context context user_input :
  exists answer context',
    turn context user_input = Return (answer, context')
    /\ (context' = context
        \/ exists intent,
             parse json_loads ai_client user_input = Return (Some intent)
             /\ (no_backend ai_client ->
                 _parse_with_patterns (strip user_input) = Return intent)
             /\ context'
                = update_context context (apply_context context intent)).
Proof.
  unfold process_user_input.
  destruct (parse_outcome user_input) as [[Hb ->]|(Hb & intent & -> & Hp)];
    cbn [bind].
  - eexists _, _. split; [reflexivity|now left].
  - destruct (route _ _ _ _); eexists _, _; (split; [reflexivity|]);
      right; exists intent; auto.
Qed.

Lemma session_invariant (P : Context -> Prop) :
  (forall context user_input intent,
     P context ->
     parse json_loads ai_client user_input = Return (Some intent) ->
     (no_backend ai_client ->
      _parse_with_patterns (strip user_input) = Return intent) ->
     P (update_context context (apply_context context intent))) ->
  forall inputs context, P context -> P (session context inputs).
Proof.
  intros Hstep. induction inputs as [|user_input inputs IH];
    intros context Hc; [exact Hc|].
  cbn [converse].
  destruct (turn_context context user_input)
    as (answer & context' & E & Hc').
  rewrite E. apply IH.
  destruct Hc' as [->|(intent & Hp & Hf & ->)]; [assumption|].
  eapply Hstep; eauto.
Qed.

(** X21.  Over a session that starts from the initial context, whatever the
    inputs and the backend, the context always remembers a timeframe. *)
Theorem session_remembers_timeframe inputs :
  truthy_opt (last_timeframe (session initial_context inputs)) = true.
Proof.
  apply (session_invariant
           (fun c => truthy_opt (last_timeframe c) = true)); [|reflexivity].
  intros context user_input intent Hc _ _.
  destruct (turn_timeframe context intent Hc) as (Ht & -> & _).
  exact Ht.
Qed.

End Turns.

Lemma process_user_input_answers_witness :
  exists answer context',
    process_user_input no_json (Some timing_out)
      (fun _ => Raise OtherException) (fun _ => Raise OtherException)
      (fun _ => Raise OtherException) payment_context "   "
    = Return (answer, context')
    /\ answer = trouble_message /\ context' = payment_context.
Proof.
  destruct (process_user_input_answers no_json (Some timing_out)
              (fun _ => Raise OtherException) (fun _ => Raise OtherException)
              (fun _ => Raise OtherException) payment_context "   ")
    as (answer & context' & E & Hb & _).
  exists answer, context'. split; [exact E|]. apply Hb. reflexivity.
Defined.

Lemma canonical_truthy tf : canonical tf -> truthy tf = true.
Proof.
  intros [ds u _ _ _]. destruct ds; reflexivity.
Qed.

Lemma well_formed_turn context intent t tf :
  well_formed context ->
  type intent = Some t -> In t intent_types ->
  timeframe intent = Some tf -> canonical tf ->
  (forall service,
     service_name intent = Some service ->
     service <> EmptyString /\ all_chars is_name_char service = true) ->
  well_formed (update_context context (apply_context context intent)).
Proof.
  intros ((ctf & Hctf & Hcc) & Hci & Hcs) Ht Hin Htf Hc Hs.
  assert (truthy_opt (last_timeframe context) = true) as Hlt
    by (rewrite Hctf; now apply canonical_truthy).
  destruct (turn_timeframe context intent Hlt) as (Hp & Hu & Hk & Hr).
  assert (truthy t = true) as Htt.
  { unfold intent_types in Hin. cbn [In] in Hin.
    repeat (destruct Hin as [<-|Hin]; [reflexivity|]). destruct Hin. }
  assert (forall service,
            service_name (apply_context context intent) = Some service ->
            service <> EmptyString /\ all_chars is_name_char service = true)
    as Hs'.
  { intros service. unfold apply_context.
    destruct (_ && _)%bool; [destruct (opt_eqb (type intent) _)|];
      cbn [service_name timeframe]; destruct (_ || _)%bool;
      try destruct (truthy_opt (last_timeframe context));
      cbn [service_name]; auto. }
  assert (exists tf', timeframe (apply_context context intent) = Some tf'
                       /\ canonical tf') as (tf' & Etf & Hctf').
  { destruct (truthy_opt (timeframe intent)) eqn:Ef.
    - destruct (opt_eqb (timeframe intent) (Some "2h")) eqn:E2.
      + apply opt_eqb_eq in E2. rewrite Hk by auto. eauto.
      + rewrite Hr; [eauto|reflexivity|].
        intros H. apply opt_eqb_eq in H. congruence.
    - rewrite Hk by auto. eauto. }
  pose proof (apply_context_type context intent) as Ety.
  set (i' := apply_context context intent) in *.
  unfold well_formed, update_context.
  rewrite Ety, Ht, Etf. cbn [truthy_opt].
  rewrite Htt, (canonical_truthy _ Hctf').
  cbn [last_timeframe last_intent last_service].
  split; [eauto|]. split.
  - destruct (truthy_opt (service_name i'));
      cbn [last_intent]; intros t' [= <-]; assumption.
  - destruct (service_name i') as [sv|] eqn:E; cbn [truthy_opt].
    + destruct (truthy sv); cbn [last_service]; auto.
    + cbn [last_service]. auto.
Qed.

(** X22.  When no supported provider is configured (no client, or a
    client whose provider is none of the four [_call_ai] knows, as the
    generator's [fallback]), over a session of ASCII inputs that starts
    from the initial context, the context stays well formed: it remembers
    a timeframe of the grammar, an intent type that is one of the seven,
    if any, and a service name that is a non-empty name, if any. *)
Theorem pattern_session_well_formed json_loads ai_client
    handle_check_abnormality handle_list_services handle_general_question
    inputs :
  no_backend ai_client ->
  Forall ascii_text inputs ->
  well_formed
    (converse json_loads ai_client handle_check_abnormality
       handle_list_services handle_general_question initial_context inputs).
Proof.
  intros Hn _.
  apply (session_invariant json_loads ai_client handle_check_abnormality
           handle_list_services handle_general_question well_formed).
  - intros context user_input intent Hc _ Hp.
    specialize (Hp Hn).
    destruct (pattern_intent_shape (strip user_input))
      as (i & E & (t & Ht & Hin) & (tf & Htf & Hcan) & Hs & _).
    rewrite Hp in E. injection E as <-.
    eapply well_formed_turn; eauto.
    intros service H. destruct (Hs _ H) as (H1 & H2 & _). auto.
  - split; [|split].
    + exists "2h". split; [reflexivity|].
      exact (canonical_intro "2" "h" ltac:(discriminate) eq_refl eq_refl).
    + discriminate.
    + discriminate.
Qed.

Lemma pattern_session_well_formed_witness :
  well_formed
    (converse no_json (Some fallback_client) (fun _ => Return "fine")
       (fun _ => Return "none") (fun _ => Raise OtherException)
       initial_context ["check ordercontroller for the last 3 days"; "and now?"]).
Proof.
  apply pattern_session_well_formed.
  - intros client [= <-]. cbn. intuition discriminate.
  - repeat constructor.
Defined.

End SessionFacts.

(** ** The chat history *)

Module HistoryFacts.
Import Session Terms.

(** X23.  With a limit of two or more, a history within the limit stays
    within it: below the limit the message is appended; at the limit the
    message is appended and the second message, the oldest after the
    welcome, is dropped.  The first message stays and the new message is
    the last. *)
Theorem add_message_bounded (MAX now : Z) (messages : list Message)
    (role content : string) :
  (2 <= MAX)%Z -> (Z.of_nat (length messages) <= MAX)%Z ->
  let new := {| role := role; content := content; timestamp := now |} in
  let after := add_message MAX now messages role content in
  (Z.of_nat (length after) <= MAX)%Z
  /\ last after = Some new
  /\ head after = head (messages ++ [new])
  /\ ((Z.of_nat (length messages) < MAX)%Z -> after = messages ++ [new])
  /\ (Z.of_nat (length messages) = MAX ->
      exists welcome second rest,
        messages = welcome :: second :: rest
        /\ after = welcome :: rest ++ [new]).
Proof.
  intros Hmax Hlen new after. unfold after, add_message. fold new.
  destruct (Z.of_nat (length (messages ++ [new])) >? MAX)%Z eqn:E.
  - apply Z.gtb_lt in E. rewrite length_app in E. cbn [length] in E.
    assert (Z.of_nat (length messages) = MAX) as Heq by lia.
    destruct messages as [|welcome [|second rest]];
      [cbn in Heq; lia|cbn in Heq; lia|].
    cbn [app]. unfold slice_from.
    replace (- (MAX - 1) <? 0)%Z with true by (symmetry; apply Z.ltb_lt; lia).
    replace (Z.to_nat _) with 2.
    2:{ cbn [length] in *. rewrite length_app. cbn [length]. lia. }
    change (skipn 2 (welcome :: second :: rest ++ [new]))
      with (rest ++ [new]).
    repeat split.
    + cbn [app length] in *. rewrite ?length_app in *. cbn [length] in *. lia.
    + apply (last_snoc new (welcome :: rest)).
    + lia.
    + intros _. now exists welcome, second, rest.
  - rewrite Z.gtb_ltb in E. apply Z.ltb_ge in E. repeat split.
    + exact E.
    + apply last_snoc.
    + intros Heq. rewrite length_app in E. cbn [length] in E. lia.
Qed.

Lemma add_message_bounded_witness :
  add_message 3 7 three_messages "user" "and now?"
  = [ {| role := "assistant"; content := "welcome"; timestamp := 0 |};
      {| role := "assistant"; content := "all fine"; timestamp := 2 |};
      {| role := "user"; content := "and now?"; timestamp := 7 |} ].
Proof.
  destruct (add_message_bounded 3 7 three_messages "user" "and now?")
    as (_ & _ & _ & _ & H); [lia|cbn; lia|].
  destruct (H eq_refl) as (w & s2 & r & E & ->).
  injection E as <- <- <-. reflexivity.
Defined.

(** X24.  With a limit of zero or one nothing is ever dropped: at zero the
    message is appended; at one it is appended and, the history not being
    empty, its first message is put in front once more. *)
Theorem add_message_small_limit (now : Z) (messages : list Message)
    (role content : string) :
  let new := {| role := role; content := content; timestamp := now |} in
  add_message 0 now messages role content = messages ++ [new]
  /\ (forall welcome rest,
        messages = welcome :: rest ->
        add_message 1 now messages role content
        = welcome :: messages ++ [new]).
Proof.
  cbv zeta. split.
  - unfold add_message.
    destruct (_ >? 0)%Z; [|reflexivity].
    destruct messages as [|welcome rest]; reflexivity.
  - intros welcome rest ->. unfold add_message.
    replace (_ >? 1)%Z with true; [reflexivity|].
    symmetry. apply Z.gtb_lt. cbn [app length].
    rewrite length_app. cbn [length]. lia.
Qed.

Lemma add_message_small_limit_witness :
  length (add_message 1 7 three_messages "user" "and now?") = 5.
Proof.
  rewrite (proj2 (add_message_small_limit 7 three_messages "user" "and now?")
             _ _ eq_refl).
  reflexivity.
Defined.

End HistoryFacts.

(** ** Similar services *)

Module SimilarFacts.
Import PyStr Session Spec Terms FallbackFacts FilterMore.

Lemma similar_loop_all service_lower all_services :
  In EmptyString (split "-" service_lower) ->
  similar_loop service_lower all_services = map displayName all_services.
Proof.
  intros Hin. induction all_services as [|sv l IH]; [reflexivity|].
  cbn [similar_loop map]. destruct (_ || _)%bool; [now rewrite IH|].
  replace (existsb _ _) with true; [now rewrite IH|].
  symmetry. apply existsb_exists. exists EmptyString.
  split; [assumption|apply str_in_empty].
Qed.

Lemma similar_loop_sublist service_lower all_services :
  sublist (similar_loop service_lower all_services)
    (map displayName all_services).
Proof.
  induction all_services as [|sv l IH]; cbn [similar_loop map];
    [constructor|].
  destruct (_ || _)%bool; [now constructor|].
  destruct (existsb _ _); now constructor.
Qed.

Lemma split_tail sep a : forall rest,
  In EmptyString (split sep rest) ->
  exists part parts,
    split sep (a +:+ String sep rest) = part :: parts
    /\ In EmptyString parts.
Proof.
  intros rest Hin. induction a as [|c a (part & parts & E & IH)].
  - exists EmptyString, (split sep rest). split; [|assumption].
    change (EmptyString +:+ String sep rest) with (String sep rest).
    cbn [split]. now rewrite Ascii.eqb_refl.
  - change (String c a +:+ String sep rest)
      with (String c (a +:+ String sep rest)).
    cbn [split]. rewrite E. destruct (Ascii.eqb c sep).
    + exists EmptyString, (part :: parts). split; [reflexivity|now right].
    + now exists (String c part), parts.
Qed.

Lemma lower_app a b : lower (a +:+ b) = lower a +:+ lower b.
Proof.
  unfold lower. induction a as [|c a IH]; [reflexivity|].
  change (String c a +:+ b) with (String c (a +:+ b)).
  cbn [map_chars]. now rewrite IH.
Qed.

Lemma empty_part_split service_name :
  empty_part service_name ->
  In EmptyString (split "-" (lower service_name)).
Proof.
  intros [-> | [(b & ->) | [(a & ->) | (a & b & ->)]]].
  - now left.
  - rewrite lower_app. now left.
  - rewrite lower_app.
    destruct (split_tail "-" (lower a) EmptyString) as (p & ps & E & H);
      [now left|].
    change (lower "-") with (String "-" EmptyString).
    rewrite E. now right.
  - rewrite !lower_app.
    destruct (split_tail "-" (lower a) (String "-" (lower b)))
      as (p & ps & E & H).
    { cbn [split]. now left. }
    change (lower "--" +:+ lower b) with (String "-" (String "-" (lower b))).
    rewrite E. now right.
Qed.

Lemma similar_loop_similar service_name all_services n :
  In n (similar_loop (lower service_name) all_services) ->
  exists service,
    In service all_services /\ displayName service = n
    /\ similar_to service_name service.
Proof.
  induction all_services as [|sv l IH]; cbn [similar_loop]; [easy|].
  destruct (_ || _)%bool eqn:E1.
  - intros [<- | H].
    + exists sv. split; [now left|]. split; [reflexivity|].
      apply orb_true_iff in E1 as [E | E]; apply str_in_occurs in E;
        [now left | right; now left].
    + destruct (IH H) as (s' & ? & ? & ?). exists s'. split; [now right|easy].
  - destruct (existsb _ _) eqn:E2.
    + intros [<- | H].
      * exists sv. split; [now left|]. split; [reflexivity|].
        apply existsb_exists in E2 as (part & Hp & E).
        apply str_in_occurs in E. right; right. now exists part.
      * destruct (IH H) as (s' & ? & ? & ?).
        exists s'. split; [now right|easy].
    + intros H. destruct (IH H) as (s' & ? & ? & ?).
      exists s'. split; [now right|easy].
Qed.

Lemma similar_loop_keeps service_name sv :
  similar_to service_name sv ->
  forall all_services,
    similar_loop (lower service_name) (sv :: all_services)
    = displayName sv :: similar_loop (lower service_name) all_services.
Proof.
  intros Hs l. cbn [similar_loop]. fold (compared_name sv).
  destruct (_ || _)%bool eqn:E1; [reflexivity|].
  replace (existsb _ _) with true; [reflexivity|]. symmetry.
  apply orb_false_iff in E1 as [Ea Eb].
  destruct Hs as [H | [H | (part & Hp & H)]].
  - apply str_in_occurs in H. congruence.
  - apply str_in_occurs in H. congruence.
  - apply existsb_exists. exists part. split; [assumption|].
    now apply str_in_occurs.
Qed.

Lemma In_firstn_In {A} (x : A) n : forall l, In x (firstn n l) -> In x l.
Proof.
  induction n as [|n IH]; intros [|y l]; cbn [firstn]; try easy.
  intros [-> | H]; [now left|right; now apply IH].
Qed.

Lemma In_firstn_S {A} (x : A) n l : In x (firstn n l) -> In x (firstn (S n) l).
Proof.
  revert l. induction n as [|n IH]; intros [|y l]; cbn [firstn]; try easy.
  change (firstn (S (S n)) (y :: l)) with (y :: firstn (S n) l).
  intros [-> | H]; [now left|right; now apply IH].
Qed.

Lemma similar_loop_early service_name sv : forall n all_services,
  In sv (firstn n all_services) ->
  similar_to service_name sv ->
  In (displayName sv)
     (firstn n (similar_loop (lower service_name) all_services)).
Proof.
  intros n l. revert n. induction l as [|x l IH]; intros [|n]; try easy.
  cbn [firstn]. intros [-> | Hin] Hs.
  - rewrite similar_loop_keeps by assumption. now left.
  - specialize (IH n Hin Hs). cbn [similar_loop].
    destruct (_ || _)%bool; [now right|].
    destruct (existsb _ _); [now right|]. now apply In_firstn_S.
Qed.

(** X25.  [find_similar_services] reports at most five names, in the order
    of the listing, and each is the display name of a listed service that
    is similar to the asked name: one name is inside the other, or the
    display name holds one of the parts between the asked name's
    hyphens.  Letter case is ignored. *)
Theorem find_similar_services_sound all_services service_name :
  let similar := find_similar_services all_services service_name in
  length similar <= 5
  /\ sublist similar (map displayName all_services)
  /\ forall n, In n similar ->
       exists service,
         In service all_services /\ displayName service = n
         /\ similar_to service_name service.
Proof.
  cbv zeta. unfold find_similar_services. repeat split.
  - rewrite length_firstn. lia.
  - etransitivity; [apply sublist_take|apply similar_loop_sublist].
  - intros n Hin. apply (similar_loop_similar service_name).
    revert Hin. apply In_firstn_In.
Qed.

Lemma find_similar_services_sound_witness :
  exists service,
    In service
      [ {| displayName := Some "checkout"; entityId := Some "SERVICE-1" |};
        {| displayName := Some "Payment-API"; entityId := Some "SERVICE-2" |} ]
    /\ displayName service = Some "Payment-API"
    /\ similar_to "payment" service.
Proof.
  destruct (find_similar_services_sound
              [ {| displayName := Some "checkout";
                   entityId := Some "SERVICE-1" |};
                {| displayName := Some "Payment-API";
                   entityId := Some "SERVICE-2" |} ]
              "payment") as (_ & _ & H).
  apply H. vm_compute. now left.
Defined.

(** X26.  A similar service among the first five of the listing is always
    reported; so is one among them without a display name, whatever was
    asked, and what is reported for it is [None]. *)
Theorem find_similar_services_early all_services service_name service :
  In service (firstn 5 all_services) ->
  similar_to service_name service \/ displayName service = None ->
  In (displayName service) (find_similar_services all_services service_name).
Proof.
  intros Hin Hs. unfold find_similar_services.
  apply similar_loop_early; [assumption|].
  destruct Hs as [Hs | Hn]; [assumption|].
  right; left. unfold compared_name. rewrite Hn.
  now exists EmptyString, (lower service_name).
Qed.

Lemma find_similar_services_early_witness :
  In None
     (find_similar_services
        [ {| displayName := Some "checkout"; entityId := Some "SERVICE-1" |};
          {| displayName := None; entityId := Some "SERVICE-2" |} ]
        "payment").
Proof.
  apply (find_similar_services_early _ "payment"
           {| displayName := None; entityId := Some "SERVICE-2" |}).
  - cbn. right; now left.
  - now right.
Defined.

(** X27.  When the asked name is empty, starts or ends with a hyphen, or
    has two hyphens in a row, every service is similar: the first five of
    the listing are reported, whatever their names. *)
Theorem find_similar_services_empty_part all_services service_name :
  empty_part service_name ->
  find_similar_services all_services service_name
  = firstn 5 (map displayName all_services).
Proof.
  intros H. unfold find_similar_services.
  now rewrite similar_loop_all by now apply empty_part_split.
Qed.

Lemma find_similar_services_empty_part_witness :
  find_similar_services
    [ {| displayName := Some "checkout"; entityId := Some "SERVICE-1" |};
      {| displayName := Some "inventory"; entityId := Some "SERVICE-2" |} ]
    "payment-"
  = [Some "checkout"; Some "inventory"].
Proof.
  rewrite find_similar_services_empty_part; [reflexivity|].
  right; right; left. now exists "payment".
Defined.

End SimilarFacts.
